(** * Verification of the usage reader of the Claude usage status bar

    Shallow embedding of [src/usageReader.ts]: the transcript normalizer
    ([stripAnsi]), the time resolver ([parseAbsoluteTime], [parseResetTime],
    [formatDuration]), the quota extractor ([parseQuotas]), the account and
    error classifier ([detectAuthError], [parseCostUsage], ...), the
    coordinator ([parseCliOutput]), the formatter ([formatStatusText]), the
    environment of the command ([buildEnv]), the trust of a workspace in the
    configuration file of the CLI ([isWorkspaceTrusted], [trustWorkspace],
    [readStatusData]) and the run of the command ([runClaudeUsage],
    [readUsageData]).

    JavaScript strings are sequences of UTF-16 code units, numbers that the
    parser handles are integers (embedded in [Z]), and the regular
    expressions of the source are values of a small regex syntax run by a
    backtracking matcher that lists matches in the priority order of the
    ECMAScript semantics. *)

From Stdlib Require Import ZArith NArith String Ascii Bool Lia List.
From Stdlib Require Import DecimalString QArith.
From Stdlib Require DecimalPos.
Import ListNotations.

Set Warnings "-comment-terminator-in-string".
Local Open Scope Z_scope.

(** ** Strings *)

Module Js.

(** A UTF-16 code unit. *)
Definition cu := N.

Definition jsstring := list cu.

(** A Rocq string literal read as code units (one per byte: the literals of
    this development are ASCII). *)
Definition lit (s : string) : jsstring :=
  List.map N_of_ascii (list_ascii_of_string s).

Definition str_eqb (a b : jsstring) : bool :=
  if list_eq_dec N.eq_dec a b then true else false.

(** [String.prototype.toLowerCase] on the ASCII letters; the source applies it
    to captures of [(am|pm)] and [(used|left)] under the [i] flag only. *)
Definition lower_cu (c : cu) : cu :=
  if ((65 <=? c) && (c <=? 90))%N then (c + 32)%N else c.

Definition toLowerCase (s : jsstring) : jsstring := List.map lower_cu s.

(** [Array.prototype.join]. *)
Fixpoint join (sep : jsstring) (l : list jsstring) : jsstring :=
  match l with
  | [] => []
  | [x] => x
  | x :: tl => x ++ sep ++ join sep tl
  end.

(** [String.prototype.repeat]. *)
Definition repeat_str (s : jsstring) (n : nat) : jsstring :=
  List.concat (List.repeat s n).

(** Decimal rendering of an integer, as a template literal does. *)
Definition of_Z (z : Z) : jsstring :=
  lit (NilZero.string_of_int (Z.to_int z)).

(** Value of a string of decimal digits. [parseInt(s, 10)] is applied in the
    source to captures of [\d+], [\d{1,2}], [\d{1,3}], [\d{2}], [\d{4}] (and
    to ["1"]), which are non-empty digit strings; on these it is the decimal
    value, read here digit by digit. Other code units end the number, as in
    [parseInt]. *)
Definition is_digit (c : cu) : bool := ((48 <=? c) && (c <=? 57))%N.

Fixpoint parse_digits (acc : Z) (s : jsstring) : Z :=
  match s with
  | [] => acc
  | c :: tl =>
      if is_digit c then parse_digits (10 * acc + Z.of_N (c - 48)) tl else acc
  end.

Definition parseInt (s : jsstring) : Z := parse_digits 0 s.

End Js.
Import Js.

(** ** Regular expressions *)

Module Re.

(** Character classes are predicates on code units. *)
Definition cls := cu -> bool.

Definition chr (x : N) : cls := fun c => (c =? x)%N.
Definition range (a b : N) : cls := fun c => ((a <=? c) && (c <=? b))%N.
Definition union (p q : cls) : cls := fun c => p c || q c.
Definition compl (p : cls) : cls := fun c => negb (p c).

(** [\d] *)
Definition digit : cls := range 48 57.

(** [\w] *)
Definition word : cls :=
  union (range 97 122) (union (range 65 90) (union digit (chr 95))).

(** [\s]: WhiteSpace and LineTerminator of ECMAScript. *)
Definition space : cls := fun c =>
  ((9 <=? c) && (c <=? 13) || (c =? 32) || (c =? 160) || (c =? 5760)
   || (8192 <=? c) && (c <=? 8202) || (c =? 8232) || (c =? 8233)
   || (c =? 8239) || (c =? 8287) || (c =? 12288) || (c =? 65279))%N.

(** [\S] *)
Definition nonspace : cls := compl space.

(** A literal character under the [i] flag (no [u] flag): a code unit matches
    when its canonical form (simple upper case, never mapping a non-ASCII unit
    to an ASCII one) equals that of the pattern character; for an ASCII
    pattern character these are its two ASCII cases. *)
Definition chr_i (x : N) : cls := fun c => (lower_cu c =? lower_cu x)%N.

Inductive regex : Type :=
| Eps : regex
| Cls : cls -> regex
| Cat : regex -> regex -> regex
| Alt : regex -> regex -> regex
| Star : regex -> regex
| Grp : nat -> regex -> regex.

(** Derived forms; every quantifier of the source is greedy. *)
Definition Opt (r : regex) : regex := Alt r Eps.
Definition Plus (r : regex) : regex := Cat r (Star r).

Fixpoint times (n : nat) (r : regex) : regex :=
  match n with
  | O => Eps
  | S n' => Cat r (times n' r)
  end.

Fixpoint upto (n : nat) (r : regex) : regex :=
  match n with
  | O => Eps
  | S n' => Opt (Cat r (upto n' r))
  end.

(** [r{lo,hi}] *)
Definition Rep (lo hi : nat) (r : regex) : regex :=
  Cat (times lo r) (upto (hi - lo) r).

Fixpoint seq_of (l : list regex) : regex :=
  match l with
  | [] => Eps
  | [r] => r
  | r :: tl => Cat r (seq_of tl)
  end.

(** A literal word, exactly / under the [i] flag. *)
Definition word_x (s : string) : regex := seq_of (List.map (fun c => Cls (chr c)) (lit s)).
Definition word_i (s : string) : regex := seq_of (List.map (fun c => Cls (chr_i c)) (lit s)).

(** Captures: group number and captured text, most recent first. *)
Definition captures := list (nat * jsstring).

Fixpoint capture (n : nat) (c : captures) : option jsstring :=
  match c with
  | [] => None
  | (k, v) :: tl => if Nat.eqb k n then Some v else capture n tl
  end.

(** State of a match attempt: the input still to read and the captures. *)
Definition mstate := (jsstring * captures)%type.

(** The text consumed between two states of one attempt. *)
Definition consumed (before after : jsstring) : jsstring :=
  firstn (length before - length after) before.

(** The iterations of a greedy [Star] whose body matches as [step] says: one
    more iteration first, stopping last. An iteration that consumes nothing
    is rejected, as by the empty check of ECMAScript; every other iteration
    shortens the input, so its length bounds their number. *)
Definition star_iter (step : mstate -> list mstate) : nat -> mstate -> list mstate :=
  fix star (fuel : nat) (st : mstate) {struct fuel} : list mstate :=
    match fuel with
    | O => [st]
    | S fuel' =>
        flat_map
          (fun st' =>
             if (length (fst st') <? length (fst st))%nat
             then star fuel' st' else [])
          (step st)
        ++ [st]
    end.

(** All ways [r] matches a prefix of the input, in the order the backtracking
    matcher of ECMAScript tries them: the head of the list is the match it
    returns. *)
Fixpoint mtch (r : regex) (st : mstate) {struct r} : list mstate :=
  match r with
  | Eps => [st]
  | Cls p =>
      match fst st with
      | c :: tl => if p c then [(tl, snd st)] else []
      | [] => []
      end
  | Cat r1 r2 => flat_map (mtch r2) (mtch r1 st)
  | Alt r1 r2 => mtch r1 st ++ mtch r2 st
  | Star r1 => star_iter (mtch r1) (length (fst st)) st
  | Grp n r1 =>
      List.map (fun st' => (fst st', (n, consumed (fst st) (fst st')) :: snd st'))
        (mtch r1 st)
  end.

(** Result of a successful match: the matched text ([m[0]]) and the groups. *)
Record rmatch_result := { m0 : jsstring; groups : captures }.

Definition group (n : nat) (m : rmatch_result) : option jsstring :=
  capture n (groups m).

(** A match attempt anchored at the start of [s]. *)
Definition exec_at (r : regex) (s : jsstring) : option (jsstring * rmatch_result) :=
  match mtch r (s, []) with
  | (rest, c) :: _ => Some (rest, {| m0 := consumed s rest; groups := c |})
  | [] => None
  end.

(** [String.prototype.match] with a non-global pattern: the leftmost match. *)
Fixpoint rmatch (r : regex) (s : jsstring) : option rmatch_result :=
  match exec_at r s with
  | Some (_, m) => Some m
  | None =>
      match s with
      | [] => None
      | _ :: tl => rmatch r tl
      end
  end.

(** [RegExp.prototype.test] (patterns without [g] or [y]). *)
Definition test (r : regex) (s : jsstring) : bool :=
  match rmatch r s with
  | Some _ => true
  | None => false
  end.

(** [String.prototype.replace] with a global pattern and a replacer function:
    matches are found left to right, each search resuming where the previous
    match ended (one unit further after an empty match). *)
Fixpoint replace_from (fuel : nat) (r : regex) (f : rmatch_result -> jsstring)
    (s : jsstring) : jsstring :=
  match fuel with
  | O => s
  | S fuel' =>
      let skip :=
        match s with
        | [] => []
        | c :: tl => c :: replace_from fuel' r f tl
        end in
      match exec_at r s with
      | Some (rest, m) =>
          if (length rest <? length s)%nat
          then f m ++ replace_from fuel' r f rest
          else f m ++ skip
      | None => skip
      end
  end.

Definition replace_all (r : regex) (f : rmatch_result -> jsstring) (s : jsstring) : jsstring :=
  replace_from (S (length s)) r f s.

(** [String.prototype.split] with a pattern that cannot match the empty string
    (the source splits on [\r?\n] only). *)
Fixpoint split_from (fuel : nat) (r : regex) (cur : jsstring) (s : jsstring)
  : list jsstring :=
  match fuel with
  | O => [rev cur]
  | S fuel' =>
      match s with
      | [] => [rev cur]
      | c :: tl =>
          match exec_at r s with
          | Some (rest, _) =>
              if (length rest <? length s)%nat
              then rev cur :: split_from fuel' r [] rest
              else split_from fuel' r (c :: cur) tl
          | None => split_from fuel' r (c :: cur) tl
          end
      end
  end.

Definition split (r : regex) (s : jsstring) : list jsstring :=
  split_from (S (length s)) r [] s.

End Re.
Import Re.

(** ** The patterns of the source *)

Definition c_esc : N := 27.
Definition c_bel : N := 7.
Definition c_nl : N := 10.
Definition c_cr : N := 13.
Definition c_sp : N := 32.

Definition ch (s : string) : regex := word_x s.
Definition ci (s : string) : regex := word_i s.
Definition sp_star : regex := Star (Cls space).
Definition sp_plus : regex := Plus (Cls space).

(** Source pattern "/\x1B\[(\d*)C/g". *)
Definition CURSOR_FWD_RE : regex :=
  seq_of [Cls (chr c_esc); ch "["; Grp 1 (Star (Cls digit)); ch "C"].

(** Source pattern "/\x1B(?:[@-Z\\-_]|\[[0-?]*[ -/]*[@-~]|\][^\x07\x1B]*(?:\x07|\x1B\\))/g". *)
Definition ANSI_RE : regex :=
  Cat (Cls (chr c_esc))
    (Alt (Cls (union (range 64 90) (range 92 95)))
    (Alt (seq_of [ch "["; Star (Cls (range 48 63)); Star (Cls (range 32 47));
                  Cls (range 64 126)])
         (seq_of [ch "]"; Star (Cls (compl (union (chr c_bel) (chr c_esc))));
                  Alt (Cls (chr c_bel)) (Cat (Cls (chr c_esc)) (Cls (chr 92)))]))).

(** Source pattern "/\r/g". *)
Definition CR_RE : regex := Cls (chr c_cr).

(** Source pattern "/[\x00-\x08\x0B\x0C\x0E-\x1F]/g". *)
Definition stray_control : cls :=
  union (range 0 8) (union (chr 11) (union (chr 12) (range 14 31))).
Definition CONTROL_RE : regex := Cls stray_control.

(** Source pattern "/\r?\n/". *)
Definition NEWLINE_RE : regex := Cat (Opt (Cls (chr c_cr))) (Cls (chr c_nl)).

(** The six plan patterns of [parseAccountType], "/(?:·\s*)?claude\s+<plan>/i". *)
Definition middle_dot : regex := Cls (chr 183).
Definition plan_re (plan : string) : regex :=
  seq_of [Opt (Cat middle_dot sp_star); ci "claude"; sp_plus; ci plan].

(** Source pattern "/·\s*claude\s+(?:pro|max)\s*·\s*(\S+@\S+)/i". *)
Definition address : regex :=
  Grp 1 (seq_of [Plus (Cls nonspace); ch "@"; Plus (Cls nonspace)]).
Definition EMAIL_PLAN_RE : regex :=
  seq_of [middle_dot; sp_star; ci "claude"; sp_plus; Alt (ci "pro") (ci "max");
          sp_star; middle_dot; sp_star; address].

(** Source pattern "/(?:Email|Account):\s*(\S+@\S+)/i". *)
Definition EMAIL_FIELD_RE : regex :=
  seq_of [Alt (ci "email") (ci "account"); ch ":"; sp_star; address].

(** [.] matches every code unit but the line terminators. *)
Definition dot : cls :=
  compl (union (chr c_nl) (union (chr c_cr) (union (chr 8232) (chr 8233)))).

(** Source pattern "/let.?s\s+get\s+started/i". *)
Definition AUTH_SETUP_RE : regex :=
  seq_of [ci "let"; Opt (Cls dot); ci "s"; sp_plus; ci "get"; sp_plus; ci "started"].

(** Source pattern "/(?:token|session)\s*(?:has\s+)?expired/i". *)
Definition AUTH_EXPIRED_RE : regex :=
  seq_of [Alt (ci "token") (ci "session"); sp_star; Opt (Cat (ci "has") sp_plus);
          ci "expired"].

(** Source pattern "/(?:sign\s*in|log\s*in|authenticate)\s*(?:to\s+continue|required|to\s+use)/i". *)
Definition AUTH_LOGIN_RE : regex :=
  seq_of [Alt (seq_of [ci "sign"; sp_star; ci "in"])
            (Alt (seq_of [ci "log"; sp_star; ci "in"]) (ci "authenticate"));
          sp_star;
          Alt (seq_of [ci "to"; sp_plus; ci "continue"])
            (Alt (ci "required") (seq_of [ci "to"; sp_plus; ci "use"]))].

(** Source pattern "/no\s+(?:active\s+)?subscription/i". *)
Definition AUTH_NOSUB_RE : regex :=
  seq_of [ci "no"; sp_plus; Opt (Cat (ci "active") sp_plus); ci "subscription"].

(** Source pattern "/claude\.ai\/login/i". *)
Definition AUTH_URL_RE : regex := ci "claude.ai/login".

(** Source pattern "/(\d+)\s*d(?:ays?)?/i". *)
Definition RELATIVE_DAYS : regex :=
  seq_of [Grp 1 (Plus (Cls digit)); sp_star; ci "d";
          Opt (seq_of [ci "ay"; Opt (ci "s")])].

(** Source pattern "/(\d+)\s*h(?:ours?|r)?/i". *)
Definition RELATIVE_HOURS : regex :=
  seq_of [Grp 1 (Plus (Cls digit)); sp_star; ci "h";
          Opt (Alt (seq_of [ci "our"; Opt (ci "s")]) (ci "r"))].

(** Source pattern "/(\d+)\s*m(?:in(?:utes?)?)?/i". *)
Definition RELATIVE_MINS : regex :=
  seq_of [Grp 1 (Plus (Cls digit)); sp_star; ci "m";
          Opt (seq_of [ci "in"; Opt (seq_of [ci "ute"; Opt (ci "s")])])].

(** Source pattern "/\(([A-Za-z_/]+)\)/". *)
Definition TZ_RE : regex :=
  seq_of [ch "(";
          Grp 1 (Plus (Cls (union (range 65 90)
                             (union (range 97 122) (union (chr 95) (chr 47))))));
          ch ")"].

Definition am_pm : regex := Alt (ci "am") (ci "pm").

(** The common tail "(\d{1,2})(?::(\d{2}))?\s*(am|pm)" with groups numbered
    from [g]. *)
Definition clock_re (g : nat) : regex :=
  seq_of [Grp g (Rep 1 2 (Cls digit));
          Opt (Cat (ch ":") (Grp (g + 1) (Rep 2 2 (Cls digit))));
          sp_star; Grp (g + 2) am_pm].

(** Source pattern "/(\d{1,2})(?::(\d{2}))?\s*(am|pm)/i". *)
Definition TIME_ONLY_RE : regex := clock_re 1.

(** Source pattern "/(\w{3,9})\s+(\d{1,2})(?:,?\s+(\d{4}))?\s+(?:at\s+)?(\d{1,2})(?::(\d{2}))?\s*(am|pm)/i". *)
Definition DATE_TIME_RE : regex :=
  seq_of [Grp 1 (Rep 3 9 (Cls word)); sp_plus; Grp 2 (Rep 1 2 (Cls digit));
          Opt (seq_of [Opt (ch ","); sp_plus; Grp 3 (Rep 4 4 (Cls digit))]);
          sp_plus; Opt (Cat (ci "at") sp_plus); clock_re 4].

(** Source pattern "/rese\s*t?\s*s|renew/i". *)
Definition RESET_WORD_RE : regex :=
  Alt (seq_of [ci "rese"; sp_star; Opt (ci "t"); sp_star; ci "s"]) (ci "renew").

(** Source pattern "/\d{1,2}\s*(?:am|pm)/i". *)
Definition BARE_CLOCK_RE : regex :=
  seq_of [Rep 1 2 (Cls digit); sp_star; am_pm].

(** Source pattern "/(\d{1,3})\s*%\s*(used|left)/i". *)
Definition PERCENT_RE : regex :=
  seq_of [Grp 1 (Rep 1 3 (Cls digit)); sp_star; ch "%"; sp_star;
          Grp 2 (Alt (ci "used") (ci "left"))].

(** Source pattern "/extra\s+usage/i". *)
Definition COST_SECTION_RE : regex := seq_of [ci "extra"; sp_plus; ci "usage"].

(** Source pattern "/\$?([\d,]+\.?\d*)\s*\/\s*\$?([\d,]+\.?\d*)\s*spent/i". *)
Definition amount_re (g : nat) : regex :=
  Cat (Opt (ch "$"))
    (Grp g (seq_of [Plus (Cls (union digit (chr 44))); Opt (ch ".");
                    Star (Cls digit)])).
Definition COST_AMOUNT_RE : regex :=
  seq_of [amount_re 1; sp_star; ch "/"; sp_star; amount_re 2; sp_star; ci "spent"].

(** ** Transcript normalizer *)

(** The replacer of the cursor-forward sequences: [n] spaces, [n] taken as 1
    when the sequence has no number and capped at 100. *)
Definition cursor_spaces (m : rmatch_result) : jsstring :=
  let n := match group 1 m with
           | Some (c :: d) => c :: d
           | _ => lit "1"
           end in
  let count := Z.min (parseInt n) 100 in
  repeat_str (lit " ") (Z.to_nat count).

(** [stripAnsi] *)
Definition stripAnsi (raw : jsstring) : jsstring :=
  let s := replace_all CURSOR_FWD_RE cursor_spaces raw in
  let s := replace_all ANSI_RE (fun _ => []) s in
  let s := replace_all CR_RE (fun _ => [c_nl]) s in
  let s := replace_all CONTROL_RE (fun _ => []) s in
  s.

(** ** Exceptions *)

(** The only exception the parser can raise is a [RangeError]: from
    [Intl.DateTimeFormat] on an unknown time zone and from [toISOString] on an
    invalid date. *)
Inductive jserror : Type := RangeError.

Inductive outcome (A : Type) : Type :=
| Ret : A -> outcome A
| Throw : jserror -> outcome A.
Arguments Ret {A} _.
Arguments Throw {A} _.

Definition bind {A B : Type} (m : outcome A) (f : A -> outcome B) : outcome B :=
  match m with
  | Ret a => f a
  | Throw e => Throw e
  end.

Notation "x <- m ;; k" := (bind m (fun x => k))
  (at level 61, m at next level, right associativity).

(** A [for ... of] loop whose body either returns a value ([Ret (Some v)]),
    continues ([Ret None]) or throws. *)
Fixpoint first_return {A B : Type} (body : A -> outcome (option B)) (l : list A)
  : outcome (option B) :=
  match l with
  | [] => Ret None
  | x :: tl =>
      r <- body x ;;
      match r with
      | Some v => Ret (Some v)
      | None => first_return body tl
      end
  end.

(** ** Dates *)

Module Date.

Definition msPerMinute : Z := 60000.
Definition msPerHour : Z := 3600000.
Definition msPerDay : Z := 86400000.

(** Day number of a date of the proleptic Gregorian calendar, days counted
    from 1970-01-01; [m] is 1 to 12. *)
Definition days_from_civil (y m d : Z) : Z :=
  let y' := if m <=? 2 then y - 1 else y in
  let era := y' / 400 in
  let yoe := y' - era * 400 in
  let doy := (153 * (if 2 <? m then m - 3 else m + 9) + 2) / 5 + d - 1 in
  let doe := yoe * 365 + yoe / 4 - yoe / 100 + doy in
  era * 146097 + doe - 719468.

(** Year, month (1 to 12) and day of month of a day number. *)
Definition civil_from_days (z : Z) : Z * Z * Z :=
  let z := z + 719468 in
  let era := z / 146097 in
  let doe := z - era * 146097 in
  let yoe := (doe - doe / 1460 + doe / 36524 - doe / 146096) / 365 in
  let doy := doe - (365 * yoe + yoe / 4 - yoe / 100) in
  let mp := (5 * doy + 2) / 153 in
  let d := doy - (153 * mp + 2) / 5 + 1 in
  let m := if mp <? 10 then mp + 3 else mp - 9 in
  ((if m <=? 2 then yoe + era * 400 + 1 else yoe + era * 400), m, d).

Definition Day (t : Z) : Z := t / msPerDay.
Definition TimeWithinDay (t : Z) : Z := t mod msPerDay.

Definition YearFromTime (t : Z) : Z := fst (fst (civil_from_days (Day t))).
(** Zero-based, as [getMonth]. *)
Definition MonthFromTime (t : Z) : Z := snd (fst (civil_from_days (Day t))) - 1.
Definition DateFromTime (t : Z) : Z := snd (civil_from_days (Day t)).
Definition HourFromTime (t : Z) : Z := (t / msPerHour) mod 24.
Definition MinFromTime (t : Z) : Z := (t / msPerMinute) mod 60.
Definition SecFromTime (t : Z) : Z := (t / 1000) mod 60.
Definition msFromTime (t : Z) : Z := t mod 1000.

(** [MakeDay]: months and days out of range carry over. *)
Definition MakeDay (year month date : Z) : Z :=
  days_from_civil (year + month / 12) (month mod 12 + 1) 1 + date - 1.

Definition MakeTime (hour min sec ms : Z) : Z :=
  hour * msPerHour + min * msPerMinute + sec * 1000 + ms.

Definition MakeDate (day time : Z) : Z := day * msPerDay + time.

(** [TimeClip]: a time value is at most 8.64e15 ms from the epoch; [None] is
    the invalid date ([NaN]). *)
Definition maxTime : Z := 8640000000000000.
Definition TimeClip (t : Z) : option Z :=
  if Z.abs t <=? maxTime then Some t else None.

(** [new Date(y, mo, d, h, mi, 0).getTime()]: the fields make a local time
    value, which becomes a time value by the offset [tza] the system zone
    gives for that local time ([UTC(t)] of ECMAScript); years 0 to 99 mean
    1900 to 1999. *)
Definition of_fields (tza : Z -> Z) (y mo d h mi : Z) : option Z :=
  let yr := if (0 <=? y) && (y <=? 99) then 1900 + y else y in
  let t := MakeDate (MakeDay yr mo d) (MakeTime h mi 0 0) in
  TimeClip (t - tza t).

Definition pad (width : nat) (z : Z) : jsstring :=
  let d := of_Z z in
  repeat_str (lit "0") (width - length d) ++ d.

(** The text [Date.prototype.toISOString] gives for a time value. *)
Definition iso_string (t : Z) : jsstring :=
  let y := YearFromTime t in
  let year :=
    if (0 <=? y) && (y <=? 9999) then pad 4 y
    else (if y <? 0 then lit "-" else lit "+") ++ pad 6 (Z.abs y) in
  year ++ lit "-" ++ pad 2 (MonthFromTime t + 1) ++ lit "-"
  ++ pad 2 (DateFromTime t) ++ lit "T" ++ pad 2 (HourFromTime t)
  ++ lit ":" ++ pad 2 (MinFromTime t) ++ lit ":" ++ pad 2 (SecFromTime t)
  ++ lit "." ++ pad 3 (msFromTime t) ++ lit "Z".

(** [Date.prototype.toISOString]; the invalid date raises [RangeError]. *)
Definition toISOString (t : option Z) : outcome jsstring :=
  match t with
  | None => Throw RangeError
  | Some t => Ret (iso_string t)
  end.

End Date.

(** Calendar reading of an instant: year, month, day, hour, minute. *)
Record civil : Type := {
  year : Z; month : Z; day : Z; hour : Z; minute : Z
}.

(** What the parser asks of its host:
    - [clock]: [Date.now()], milliseconds since the epoch; the readings taken
      during one parse are one instant, the reference instant;
    - [local_tza t isUTC]: [LocalTZA] of ECMAScript, the offset of the system
      time zone in milliseconds: the one in force at the time value [t] when
      [isUTC] is [true], the one by which the local time value [t] is read
      when it is [false] (at a local time that a change of offset skips or
      repeats, the offset before the change);
    - [zone_parts tz t]: the parts [Intl.DateTimeFormat("en-US", {timeZone: tz,
      ...}).formatToParts] gives for the instant [t] (month 1 to 12), [None]
      when the zone name is not known to the host;
    - [month_of_name s]: [new Date(s + " 1, 2000").getMonth()], [None] when
      the host does not parse the date ([NaN]). *)
Record Host : Type := {
  clock : Z;
  local_tza : Z -> bool -> Z;
  zone_parts : jsstring -> Z -> option civil;
  month_of_name : jsstring -> option Z
}.

(** ** Data model *)

(** The [type] of a [Quota]. *)
Inductive QuotaType : Type := session | weekly | opus | sonnet.

(** [===] on quota types. *)
Definition QuotaType_eqb (a b : QuotaType) : bool :=
  match a, b with
  | session, session | weekly, weekly | opus, opus | sonnet, sonnet => true
  | _, _ => false
  end.

(** The string a quota type is in the source. *)
Definition type_name (t : QuotaType) : jsstring :=
  match t with
  | session => lit "session"
  | weekly => lit "weekly"
  | opus => lit "opus"
  | sonnet => lit "sonnet"
  end.

Record Quota : Type := {
  type : QuotaType;
  percent_remaining : Z;
  resets_at : jsstring;
  time_remaining_seconds : Z;
  time_remaining_human : jsstring
}.

(** A cost amount: the decimal value the text denotes (which the source
    rounds to a double), or [NaN]. *)
Inductive amount : Type :=
| NaN : amount
| Dec : Q -> amount.

Record CostUsage : Type := { spent : amount; budget : amount }.

Record AuthError : Type := { Code : jsstring; Message : jsstring }.

Record UsageData : Type := {
  account_type : jsstring;
  email : jsstring;
  quotas : option (list Quota);
  cost_usage : CostUsage;
  captured_at : jsstring;
  auth_error : option AuthError
}.

Inductive ReadResult : Type :=
| ok (data : UsageData)
| not_authenticated (message : jsstring)
| not_trusted (message : jsstring)
| error (message : jsstring).

Definition AUTH_ERROR_CODES : list jsstring :=
  [lit "setup_required"; lit "not_logged_in"; lit "token_expired";
   lit "no_subscription"].

(** ** Text parsers *)

(** The plans [parseAccountType] tests on each line, in its order, with the
    account type each gives. *)
Definition plans : list (string * string) :=
  [("max", "Claude Max"); ("pro", "Claude Pro"); ("team", "Claude Team");
   ("enterprise", "Claude Enterprise"); ("api", "Claude API");
   ("free", "Claude Free")]%string.

(** The body of the loop of [parseAccountType] on one line. *)
Fixpoint plan_of_line (l : list (string * string)) (line : jsstring) : option jsstring :=
  match l with
  | [] => None
  | (plan, name) :: tl =>
      if test (plan_re plan) line then Some (lit name) else plan_of_line tl line
  end.

(** [parseAccountType] *)
Fixpoint parseAccountType (lines : list jsstring) : jsstring :=
  match lines with
  | [] => lit "unknown"
  | line :: tl =>
      match plan_of_line plans line with
      | Some name => name
      | None => parseAccountType tl
      end
  end.

(** The text of a group that takes part in every match of its pattern. *)
Definition group_text (n : nat) (m : rmatch_result) : jsstring :=
  match group n m with
  | Some s => s
  | None => []
  end.

(** [parseEmail] *)
Fixpoint parseEmail (lines : list jsstring) : jsstring :=
  match lines with
  | [] => []
  | line :: tl =>
      match rmatch EMAIL_PLAN_RE line with
      | Some m => group_text 1 m
      | None =>
          match rmatch EMAIL_FIELD_RE line with
          | Some m => group_text 1 m
          | None => parseEmail tl
          end
      end
  end.

(** [AUTH_PATTERNS]: pattern, code and message. *)
Definition AUTH_PATTERNS : list (regex * AuthError) :=
  [(AUTH_SETUP_RE,
    {| Code := lit "setup_required";
       Message := lit "Claude CLI setup required. Run 'claude' in a terminal to complete first-time setup." |});
   (AUTH_EXPIRED_RE,
    {| Code := lit "token_expired";
       Message := lit "Claude authentication token expired. Run 'claude' to re-authenticate." |});
   (AUTH_LOGIN_RE,
    {| Code := lit "not_logged_in";
       Message := lit "Not logged in to Claude. Run 'claude' to authenticate." |});
   (AUTH_NOSUB_RE,
    {| Code := lit "no_subscription";
       Message := lit "No active Claude subscription found." |});
   (AUTH_URL_RE,
    {| Code := lit "not_logged_in";
       Message := lit "Not logged in to Claude. Run 'claude' to authenticate." |})].

(** The separator of [lines.join]. *)
Definition newline : jsstring := [c_nl].

(** The loop of [detectAuthError] over the table. *)
Fixpoint first_pattern (l : list (regex * AuthError)) (text : jsstring) : option AuthError :=
  match l with
  | [] => None
  | (pattern, e) :: tl =>
      if test pattern text then Some e else first_pattern tl text
  end.

(** [detectAuthError] *)
Definition detectAuthError (lines : list jsstring) : option AuthError :=
  first_pattern AUTH_PATTERNS (join newline lines).

(** ** Time resolver *)

(** [toHour24] *)
Definition toHour24 (hour : Z) (ampm : jsstring) : Z :=
  let h := hour in
  let h := if str_eqb (toLowerCase ampm) (lit "pm") && (h <? 12) then h + 12 else h in
  let h := if str_eqb (toLowerCase ampm) (lit "am") && (h =? 12) then 0 else h in
  h.

(** [formatDuration]: [Math.floor] of a quotient is the floored division,
    [%] the remainder that has the sign of the dividend. *)
Definition formatDuration (totalSeconds : Z) : jsstring :=
  let days := totalSeconds / 86400 in
  let hours := Z.rem totalSeconds 86400 / 3600 in
  let mins := Z.rem totalSeconds 3600 / 60 in
  if 0 <? days then
    if 0 <? hours then of_Z days ++ lit "d " ++ of_Z hours ++ lit "h"
    else of_Z days ++ lit "d"
  else if 0 <? hours then
    if 0 <? mins then of_Z hours ++ lit "h" ++ of_Z mins ++ lit "m"
    else of_Z hours ++ lit "h"
  else if 0 <? mins then of_Z mins ++ lit "m"
  else lit "< 1m".

(** What [computeDiffSeconds] and [parseAbsoluteTime] return: [resets_at] and
    [time_remaining_seconds]. *)
Record AbsoluteTime : Type := { abs_resets_at : jsstring; abs_seconds : Z }.

(** What [parseResetTime] returns: [resets_at], [time_remaining_seconds] and
    [time_remaining_human]. *)
Record ResetTime : Type := {
  reset_at : jsstring;
  reset_seconds : Z;
  reset_human : jsstring
}.

(** [{ ...abs, time_remaining_human: formatDuration(abs.time_remaining_seconds) }] *)
Definition with_human (a : AbsoluteTime) : ResetTime :=
  {| reset_at := abs_resets_at a;
     reset_seconds := abs_seconds a;
     reset_human := formatDuration (abs_seconds a) |}.

(** The result of [parseResetTime] when no line resolves. *)
Definition unresolved : ResetTime :=
  {| reset_at := []; reset_seconds := 0; reset_human := [] |}.

Section Parser.

Variable host : Host.

(** [getNowInTz]: the month becomes zero-based. *)
Definition getNowInTz (tz : jsstring) (now : Z) : outcome civil :=
  match zone_parts host tz now with
  | None => Throw RangeError
  | Some c =>
      Ret {| year := year c; month := month c - 1; day := day c;
             hour := hour c; minute := minute c |}
  end.

(** Calendar reading of [now] in the system zone ([getFullYear], [getMonth],
    [getDate], [getHours], [getMinutes]). *)
Definition local_parts (now : Z) : civil :=
  let t := now + local_tza host now true in
  {| year := Date.YearFromTime t; month := Date.MonthFromTime t;
     day := Date.DateFromTime t; hour := Date.HourFromTime t;
     minute := Date.MinFromTime t |}.

(** [new Date(y, mo, d, h, mi, 0).getTime()] on the host. *)
Definition local_time_value (y mo d h mi : Z) : option Z :=
  Date.of_fields (fun t => local_tza host t false) y mo d h mi.

(** [computeDiffSeconds]; [targetMo] is [None] when the month is [NaN]. A
    [NaN] operand makes [diffMs] and the date [now + diffMs] invalid, and
    [toISOString] raises. *)
Definition computeDiffSeconds (targetY : Z) (targetMo : option Z)
    (targetD targetH targetMin : Z) (tz : option jsstring) (now : Z)
  : outcome AbsoluteTime :=
  let targetAsLocal :=
    match targetMo with
    | Some mo => local_time_value targetY mo targetD targetH targetMin
    | None => None
    end in
  c <- match tz with
       | Some z => getNowInTz z now
       | None => Ret (local_parts now)
       end ;;
  let nowAsLocal :=
    local_time_value (year c) (month c) (day c) (hour c) (minute c) in
  match targetAsLocal, nowAsLocal with
  | Some t, Some n =>
      let diffMs := t - n in
      let diffSeconds := Z.max 0 (diffMs / 1000) in
      resetsAt <- Date.toISOString (Date.TimeClip (now + diffMs)) ;;
      Ret {| abs_resets_at := resetsAt; abs_seconds := diffSeconds |}
  | _, _ => Throw RangeError
  end.

(** [g ? parseInt(g, 10) : default] for a group that may not take part. *)
Definition opt_int (g : option jsstring) (default : Z) : Z :=
  match g with
  | Some s => parseInt s
  | None => default
  end.

(** [parseAbsoluteTime]; [Ret None] is [undefined]. *)
Definition parseAbsoluteTime (line : jsstring) (now : Z)
  : outcome (option AbsoluteTime) :=
  let tz := match rmatch TZ_RE line with
            | Some m => group 1 m
            | None => None
            end in
  r <- match rmatch DATE_TIME_RE line with
       | Some dateMatch =>
           let y := opt_int (group 3 dateMatch) (year (local_parts now)) in
           let h := toHour24 (parseInt (group_text 4 dateMatch)) (group_text 6 dateMatch) in
           let m := opt_int (group 5 dateMatch) 0 in
           let monthIdx := month_of_name host (group_text 1 dateMatch) in
           result <- computeDiffSeconds y monthIdx
                       (parseInt (group_text 2 dateMatch)) h m tz now ;;
           if 0 <=? abs_seconds result then Ret (Some result) else Ret None
       | None => Ret None
       end ;;
  match r with
  | Some result => Ret (Some result)
  | None =>
      match rmatch TIME_ONLY_RE line with
      | Some timeMatch =>
          let h := toHour24 (parseInt (group_text 1 timeMatch)) (group_text 3 timeMatch) in
          let m := opt_int (group 2 timeMatch) 0 in
          c <- match tz with
               | Some z => getNowInTz z now
               | None => Ret (local_parts now)
               end ;;
          let y := year c in
          let mo := month c in
          let d := day c in
          result <- computeDiffSeconds y (Some mo) d h m tz now ;;
          if abs_seconds result <=? 0
          then result' <- computeDiffSeconds y (Some mo) (d + 1) h m tz now ;;
               Ret (Some result')
          else Ret (Some result)
      | None => Ret None
      end
  end.

(** Body of the first loop of [parseResetTime]: lines with the reset word. *)
Definition labelled_reset (now : Z) (line : jsstring) : outcome (option ResetTime) :=
  if negb (test RESET_WORD_RE line) then Ret None
  else
    let dMatch := rmatch RELATIVE_DAYS line in
    let hMatch := rmatch RELATIVE_HOURS line in
    let mMatch := rmatch RELATIVE_MINS line in
    match dMatch, hMatch, mMatch with
    | None, None, None =>
        abs <- parseAbsoluteTime line now ;;
        Ret (option_map with_human abs)
    | _, _, _ =>
        let days := opt_int (option_map (group_text 1) dMatch) 0 in
        let hours := opt_int (option_map (group_text 1) hMatch) 0 in
        let mins := opt_int (option_map (group_text 1) mMatch) 0 in
        let totalSeconds := days * 86400 + hours * 3600 + mins * 60 in
        resetsAt <- Date.toISOString (Date.TimeClip (now + totalSeconds * 1000)) ;;
        Ret (Some {| reset_at := resetsAt;
                     reset_seconds := totalSeconds;
                     reset_human := formatDuration totalSeconds |})
    end.

(** Body of the second loop: any line with a clock time that is not a
    percentage line. *)
Definition bare_reset (now : Z) (line : jsstring) : outcome (option ResetTime) :=
  if negb (test BARE_CLOCK_RE line) then Ret None
  else if test PERCENT_RE line then Ret None
  else
    abs <- parseAbsoluteTime line now ;;
    Ret (option_map with_human abs).

(** [parseResetTime]: the two loops in turn. *)
Definition parseResetTime (contextLines : list jsstring) : outcome ResetTime :=
  let now := clock host in
  r1 <- first_return (labelled_reset now) contextLines ;;
  match r1 with
  | Some r => Ret r
  | None =>
      r2 <- first_return (bare_reset now) contextLines ;;
      match r2 with
      | Some r => Ret r
      | None => Ret unresolved
      end
  end.

End Parser.

(** ** Quota extractor *)

(** [QUOTA_LABELS]: the six label patterns
    "/current\s+session/i", "/current\s+week\s*\(all\s+models?\)/i",
    "/current\s+week\s*\(opus(?:\s+only)?\)/i",
    "/current\s+week\s*\(sonnet(?:\s+only)?\)/i", "/opus\s+usage/i" and
    "/sonnet\s+usage/i" with their types. *)
Definition QUOTA_LABELS : list (regex * QuotaType) :=
  [(seq_of [ci "current"; sp_plus; ci "session"], session);
   (seq_of [ci "current"; sp_plus; ci "week"; sp_star; ch "("; ci "all"; sp_plus;
            ci "model"; Opt (ci "s"); ch ")"], weekly);
   (seq_of [ci "current"; sp_plus; ci "week"; sp_star; ch "("; ci "opus";
            Opt (Cat sp_plus (ci "only")); ch ")"], opus);
   (seq_of [ci "current"; sp_plus; ci "week"; sp_star; ch "("; ci "sonnet";
            Opt (Cat sp_plus (ci "only")); ch ")"], sonnet);
   (seq_of [ci "opus"; sp_plus; ci "usage"], opus);
   (seq_of [ci "sonnet"; sp_plus; ci "usage"], sonnet)].

(** [QUOTA_LABELS.find(({ pattern }) => pattern.test(line))] *)
Fixpoint find_label (l : list (regex * QuotaType)) (line : jsstring) : option QuotaType :=
  match l with
  | [] => None
  | (pattern, t) :: tl =>
      if test pattern line then Some t else find_label tl line
  end.

Definition labelMatch (line : jsstring) : option QuotaType :=
  find_label QUOTA_LABELS line.

(** The two stop conditions of [findNextSectionBoundary] on one line. *)
Definition is_boundary (line : jsstring) : bool :=
  existsb (fun p => test (fst p) line) QUOTA_LABELS || test COST_SECTION_RE line.

Fixpoint scan_boundary (l : list jsstring) (k len : nat) : nat :=
  match l with
  | [] => len
  | line :: tl => if is_boundary line then k else scan_boundary tl (S k) len
  end.

(** [findNextSectionBoundary] *)
Definition findNextSectionBoundary (lines : list jsstring) (startIdx : nat) : nat :=
  scan_boundary (skipn (S startIdx) lines) (S startIdx) (length lines).

(** [lines.slice(i, j)] *)
Definition slice (i j : nat) (lines : list jsstring) : list jsstring :=
  firstn (j - i) (skipn i lines).

(** The inner loop of [parseQuotas]: the first line of the window, counted
    from index [j], that carries a percentage. *)
Fixpoint find_percent (l : list jsstring) (j : nat) : option (nat * rmatch_result) :=
  match l with
  | [] => None
  | line :: tl =>
      match rmatch PERCENT_RE line with
      | Some pMatch => Some (j, pMatch)
      | None => find_percent tl (S j)
      end
  end.

(** [percentRemaining] from the match of the percentage pattern. *)
Definition percent_of (pMatch : rmatch_result) : Z :=
  let value := parseInt (group_text 1 pMatch) in
  let isUsed := str_eqb (toLowerCase (group_text 2 pMatch)) (lit "used") in
  if isUsed then 100 - value else value.

Section Extractor.

Variable host : Host.

(** The outer loop of [parseQuotas] from index [i]; every iteration moves
    [i] forward, so [length lines] iterations are enough. *)
Fixpoint parseQuotas_from (fuel : nat) (lines : list jsstring) (i : nat)
  : outcome (list Quota) :=
  match fuel with
  | O => Ret []
  | S fuel' =>
      match nth_error lines i with
      | None => Ret []
      | Some line =>
          match labelMatch line with
          | None => parseQuotas_from fuel' lines (S i)
          | Some t =>
              let sectionEnd := findNextSectionBoundary lines i in
              let searchEnd := Nat.min (i + 6) sectionEnd in
              match find_percent (slice i searchEnd lines) i with
              | None => parseQuotas_from fuel' lines (S i)
              | Some (j, pMatch) =>
                  let resetWindow := slice i sectionEnd lines in
                  resetInfo <- parseResetTime host resetWindow ;;
                  rest <- parseQuotas_from fuel' lines (S j) ;;
                  Ret ({| type := t;
                          percent_remaining := percent_of pMatch;
                          resets_at := reset_at resetInfo;
                          time_remaining_seconds := reset_seconds resetInfo;
                          time_remaining_human := reset_human resetInfo |}
                       :: rest)
              end
          end
      end
  end.

(** [parseQuotas] *)
Definition parseQuotas (lines : list jsstring) : outcome (list Quota) :=
  parseQuotas_from (length lines) lines 0.

End Extractor.

(** ** Cost usage *)

(** [s.replace] with the string pattern "," and the empty replacement: a
    string pattern replaces its first occurrence only. *)
Fixpoint remove_first_comma (s : jsstring) : jsstring :=
  match s with
  | [] => []
  | c :: tl => if (c =? 44)%N then tl else c :: remove_first_comma tl
  end.

Fixpoint leading_digits (s : jsstring) : jsstring * jsstring :=
  match s with
  | c :: tl =>
      if is_digit c then let (d, r) := leading_digits tl in (c :: d, r)
      else ([], s)
  | [] => ([], [])
  end.

(** [parseFloat] on text made of digits, commas and points (the alphabet of
    the two groups of [COST_AMOUNT_RE]): the longest prefix of the form
    digits, optional point, digits is read, and there is no number when that
    prefix has no digit. *)
Definition parseFloat (s : jsstring) : amount :=
  let (ip, r) := leading_digits s in
  let fp := match r with
            | c :: r' => if (c =? 46)%N then fst (leading_digits r') else []
            | [] => []
            end in
  match ip ++ fp with
  | [] => NaN
  | ds => Dec (Qred (Qmake (parseInt ds) (Z.to_pos (10 ^ Z.of_nat (length fp)))))
  end.

Fixpoint find_amount (l : list jsstring) : option rmatch_result :=
  match l with
  | [] => None
  | line :: tl =>
      match rmatch COST_AMOUNT_RE line with
      | Some m => Some m
      | None => find_amount tl
      end
  end.

(** The number 0. *)
Definition zero : amount := Dec 0.

(** [parseCostUsage]: the window of the header at index [i] is
    [lines[i .. min(i + 10, length))], the first ten lines of the suffix. *)
Fixpoint parseCostUsage (lines : list jsstring) : CostUsage :=
  match lines with
  | [] => {| spent := zero; budget := zero |}
  | line :: tl =>
      if test COST_SECTION_RE line then
        match find_amount (firstn 10 lines) with
        | Some m =>
            {| spent := parseFloat (remove_first_comma (group_text 1 m));
               budget := parseFloat (remove_first_comma (group_text 2 m)) |}
        | None => parseCostUsage tl
        end
      else parseCostUsage tl
  end.

(** ** Coordinator *)

Section Coordinator.

Variable host : Host.

Definition no_data_message : jsstring :=
  lit "No quota data found in claude /usage output.".

(** [parseCliOutput]; the debug files it writes are not modelled. *)
Definition parseCliOutput (rawOutput : jsstring) : outcome ReadResult :=
  let stripped := stripAnsi rawOutput in
  let lines := split NEWLINE_RE stripped in
  let authError := detectAuthError lines in
  let hard :=
    match authError with
    | Some e => if existsb (str_eqb (Code e)) AUTH_ERROR_CODES then Some e else None
    | None => None
    end in
  match hard with
  | Some e => Ret (not_authenticated (Message e))
  | None =>
      qs <- parseQuotas host lines ;;
      match qs with
      | [] => Ret (error no_data_message)
      | _ :: _ =>
          Ret (ok {| account_type := parseAccountType lines;
                     email := parseEmail lines;
                     quotas := Some qs;
                     cost_usage := parseCostUsage lines;
                     captured_at := Date.iso_string (clock host);
                     auth_error := authError |})
      end
  end.

End Coordinator.

(** ** Status text *)

(** [quotas?.find((q) => q.type === t)] *)
Definition find_type (t : QuotaType) (qs : option (list Quota)) : option Quota :=
  match qs with
  | Some l => List.find (fun q => QuotaType_eqb (type q) t) l
  | None => None
  end.

Definition usage_part (prefix : jsstring) (q : option Quota) : list jsstring :=
  match q with
  | Some q =>
      let used := 100 - percent_remaining q in
      [prefix ++ of_Z used ++ lit "% " ++ time_remaining_human q]
  | None => []
  end.

Definition formatStatusText (data : UsageData) : jsstring :=
  let session := find_type session (quotas data) in
  let weekly := find_type weekly (quotas data) in
  let opus := find_type opus (quotas data) in
  let sonnet := find_type sonnet (quotas data) in
  let parts :=
    usage_part [] session ++ usage_part [] weekly
    ++ usage_part (lit "opus ") opus ++ usage_part (lit "sonnet ") sonnet in
  join (lit " | ") parts.

(** ** A concrete host for the scenarios of the test suite *)

Module Sample.

Definition civil_of (t : Z) : civil :=
  {| year := Date.YearFromTime t; month := Date.MonthFromTime t + 1;
     day := Date.DateFromTime t; hour := Date.HourFromTime t;
     minute := Date.MinFromTime t |}.

(** Toronto is five hours behind UTC in February and March before the
    change to daylight time, the period of the fixtures. *)
Definition known_zones (tz : jsstring) (t : Z) : option civil :=
  if str_eqb tz (lit "America/Toronto") then Some (civil_of (t - 5 * Date.msPerHour))
  else if str_eqb tz (lit "UTC") then Some (civil_of t)
  else None.

Definition month_names : list string :=
  ["jan"; "feb"; "mar"; "apr"; "may"; "jun"; "jul"; "aug"; "sep"; "oct"; "nov"; "dec"]%string.

Fixpoint index_of (s : jsstring) (l : list string) (k : Z) : option Z :=
  match l with
  | [] => None
  | n :: tl => if str_eqb s (lit n) then Some k else index_of s tl (k + 1)
  end.

(** Month names are recognised by their first three letters. *)
Definition english_month (s : jsstring) : option Z :=
  index_of (toLowerCase (firstn 3 s)) month_names 0.

(** The system zone is UTC. *)
Definition host (now : Z) : Host :=
  {| clock := now; local_tza := fun _ _ => 0; zone_parts := known_zones;
     month_of_name := english_month |}.

(** 2026-02-22T21:40:00Z, the frozen clock of the test suite. *)
Definition FAKE_NOW : Z :=
  Date.MakeDate (Date.MakeDay 2026 1 22) (Date.MakeTime 21 40 0 0).

Definition lines_of (l : list string) : list jsstring := List.map lit l.

Definition text_of (l : list string) : jsstring := join newline (lines_of l).

End Sample.

(** ** The environment of the command *)

(** [String.prototype.split] with a separator of one unit. *)
Fixpoint split_unit (d : cu) (s : jsstring) : list jsstring :=
  match s with
  | [] => [[]]
  | c :: tl =>
      if (c =? d)%N then [] :: split_unit d tl
      else match split_unit d tl with
           | x :: r => (c :: x) :: r
           | [] => [[c]]
           end
  end.

(** The variables of an environment. *)
Definition Env := jsstring -> option jsstring.

(** What [buildEnv] asks of its host: [process.env], [path.delimiter] (one
    unit, ":" or ";") and the value of
    [path.join(os.homedir(), ".local", "bin")]. *)
Record Process : Type := {
  process_env : Env;
  path_delimiter : cu;
  home_local_bin : jsstring
}.

Definition extraPaths (sys : Process) : list jsstring :=
  [home_local_bin sys; lit "/usr/local/bin"; lit "/opt/homebrew/bin"].

(** [pathParts.includes(p)] *)
Definition includes (p : jsstring) (parts : list jsstring) : bool :=
  existsb (str_eqb p) parts.

(** The body of the loop: [if (!pathParts.includes(p)) pathParts.unshift(p)]. *)
Definition add_missing (parts : list jsstring) (p : jsstring) : list jsstring :=
  if includes p parts then parts else p :: parts.

(** [pathParts] after the loop. *)
Definition pathParts (sys : Process) : list jsstring :=
  let currentPath := match process_env sys (lit "PATH") with
                     | Some v => v
                     | None => []
                     end in
  fold_left add_missing (extraPaths sys) (split_unit (path_delimiter sys) currentPath).

(** [buildEnv]: the environment of the process with [PATH] and [TERM]
    replaced. *)
Definition buildEnv (sys : Process) : Env :=
  fun name =>
    if str_eqb name (lit "TERM") then Some (lit "xterm-256color")
    else if str_eqb name (lit "PATH")
         then Some (join [path_delimiter sys] (pathParts sys))
         else process_env sys name.

(** [resolveClaudeBinary]: the empty string is falsy. *)
Definition resolveClaudeBinary (configuredPath : jsstring) : jsstring :=
  match configuredPath with
  | [] => lit "claude"
  | _ :: _ => configuredPath
  end.

(** ** The configuration file of the CLI *)

(** A JSON value as [JSON.parse] gives it; an object is the list of its
    properties in their order, each name once. *)
#[warnings="-register-all"] Inductive json : Type :=
| JNull : json
| JBool : bool -> json
| JNum : Q -> json
| JStr : jsstring -> json
| JArr : list json -> json
| JObj : list (jsstring * json) -> json.

(** The property [k] of an object, [None] for [undefined]. *)
Fixpoint get_field (k : jsstring) (fields : list (jsstring * json)) : option json :=
  match fields with
  | [] => None
  | (k', v) :: tl => if str_eqb k' k then Some v else get_field k tl
  end.

(** Assignment to the property [k] of an object: an existing property keeps
    its place, a new one comes last. *)
Fixpoint set_field (k : jsstring) (v : json) (fields : list (jsstring * json))
  : list (jsstring * json) :=
  match fields with
  | [] => [(k, v)]
  | (k', v') :: tl =>
      if str_eqb k' k then (k, v) :: tl else (k', v') :: set_field k v tl
  end.

(** [v.k] on a value that is not [null], for the names the source reads:
    ["projects"], ["hasTrustDialogAccepted"], ["oauthAccount"],
    ["emailAddress"], ["displayName"], ["billingType"] and workspace paths.
    None of them is a property of an array, of a string or of a prototype,
    so only objects have them. *)
Definition own (v : json) (k : jsstring) : option json :=
  match v with
  | JObj fields => get_field k fields
  | _ => None
  end.

(** Truthiness of a JSON value. *)
Definition truthy (v : json) : bool :=
  match v with
  | JNull => false
  | JBool b => b
  | JNum n => negb (Qeq_bool n 0)
  | JStr [] => false
  | JStr (_ :: _) => true
  | JArr _ | JObj _ => true
  end.

(** The exceptions of the functions that read and write the file. *)
Inductive fault : Type := TypeError | WriteError.

Inductive attempt (A : Type) : Type :=
| Done : A -> attempt A
| Fault : fault -> attempt A.
Arguments Done {A} _.
Arguments Fault {A} _.

(** The file [~/.claude.json]: [content] is what [JSON.parse] gives for its
    text, [None] when the file cannot be read or its text is not JSON;
    [writable] tells whether [writeFileSync] succeeds. Written with
    [JSON.stringify] and parsed again, a JSON value is the same value. *)
Record ConfigFile : Type := { content : option json; writable : bool }.

(** [readClaudeConfig]: the empty object when reading or parsing fails. *)
Definition readClaudeConfig (f : ConfigFile) : json :=
  match content f with
  | Some v => v
  | None => JObj []
  end.

(** [writeClaudeConfig] *)
Definition writeClaudeConfig (config : json) (f : ConfigFile) : attempt ConfigFile :=
  if writable f then Done {| content := Some config; writable := true |}
  else Fault WriteError.

(** A workspace path, as [uri.fsPath] and [process.cwd()] give it: a text
    with a path separator ("/" or "\"), which no name of an inherited
    property has. *)
Definition is_separator (c : cu) : bool := ((c =? 47) || (c =? 92))%N.

Record WorkspacePath : Type := {
  path_text : jsstring;
  path_separated : existsb is_separator path_text = true
}.

Definition flag_name : jsstring := lit "hasTrustDialogAccepted".

(** [isWorkspaceTrusted]:
    [config.projects?.[workspacePath]?.hasTrustDialogAccepted === true];
    reading [projects] of [null] raises. *)
Definition isWorkspaceTrusted (workspacePath : WorkspacePath) (f : ConfigFile)
  : attempt bool :=
  match readClaudeConfig f with
  | JNull => Fault TypeError
  | config =>
      let entry := match own config (lit "projects") with
                   | None | Some JNull => None
                   | Some projects => own projects (path_text workspacePath)
                   end in
      let flag := match entry with
                  | None | Some JNull => None
                  | Some e => own e flag_name
                  end in
      Done match flag with
           | Some (JBool true) => true
           | _ => false
           end
  end.

(** [{ hasTrustDialogAccepted: true }] *)
Definition trusted_entry : json := JObj [(flag_name, JBool true)].

(** [trustWorkspace]. The module is compiled in strict mode, where an
    assignment to a property of a primitive value raises; a property
    assigned to an array is not written by [JSON.stringify]. *)
Definition trustWorkspace (workspacePath : WorkspacePath) (f : ConfigFile)
  : attempt ConfigFile :=
  match readClaudeConfig f with
  | JNull | JBool _ | JNum _ | JStr _ => Fault TypeError
  | JArr items => writeClaudeConfig (JArr items) f
  | JObj fields =>
      let '(fields, projects) :=
        match get_field (lit "projects") fields with
        | Some projects =>
            if truthy projects then (fields, projects)
            else (set_field (lit "projects") (JObj []) fields, JObj [])
        | None => (set_field (lit "projects") (JObj []) fields, JObj [])
        end in
      match projects with
      | JObj entries =>
          let entry := match get_field (path_text workspacePath) entries with
                       | Some e => if truthy e then Some e else None
                       | None => None
                       end in
          match entry with
          | None =>
              writeClaudeConfig
                (JObj (set_field (lit "projects")
                         (JObj (set_field (path_text workspacePath) trusted_entry entries))
                         fields)) f
          | Some (JObj e) =>
              writeClaudeConfig
                (JObj (set_field (lit "projects")
                         (JObj (set_field (path_text workspacePath)
                                  (JObj (set_field flag_name (JBool true) e)) entries))
                         fields)) f
          | Some (JArr _) => writeClaudeConfig (JObj fields) f
          | Some _ => Fault TypeError
          end
      | JArr _ => writeClaudeConfig (JObj fields) f
      | _ => Fault TypeError
      end
  end.

(** [StatusInfo]; the three values are what the file holds, strings in a
    file the CLI wrote. *)
Record StatusInfo : Type := {
  status_email : json;
  status_displayName : json;
  status_billingType : json
}.

(** [account.k] with the empty string in place of [null] and [undefined]. *)
Definition field_or_empty (account : json) (k : jsstring) : json :=
  match own account k with
  | None | Some JNull => JStr []
  | Some v => v
  end.

(** [readStatusData]; [None] is [undefined]. Every exception is caught. *)
Definition readStatusData (f : ConfigFile) : option StatusInfo :=
  match content f with
  | None => None
  | Some data =>
      let account := match data with
                     | JNull => None
                     | _ => own data (lit "oauthAccount")
                     end in
      match account with
      | None => None
      | Some a =>
          if truthy a
          then Some {| status_email := field_or_empty a (lit "emailAddress");
                       status_displayName := field_or_empty a (lit "displayName");
                       status_billingType := field_or_empty a (lit "billingType") |}
          else None
      end
  end.

(** ** Running the command *)

(** Source pattern "/\d{1,3}\s*%\s*(?:used|left)/i" of [runClaudeUsage]. *)
Definition EARLY_RE : regex :=
  seq_of [Rep 1 3 (Cls digit); sp_star; ch "%"; sp_star; Alt (ci "used") (ci "left")].

(** How the promise of [runClaudeUsage] is settled: resolved with the
    output or rejected with an error, of which the message is kept. *)
Inductive settlement : Type :=
| Resolved : jsstring -> settlement
| Rejected : jsstring -> settlement.

(** The variables of one call of [runClaudeUsage]: [output]; [settled]
    together with the settlement of the promise; whether the timeout of
    [COMMAND_TIMEOUT_MS] is pending; [earlyKillTimer], [None] while it is
    undefined and then whether it is pending; the number of calls of
    [child.kill]. *)
Record Run : Type := {
  output : jsstring;
  settled : option settlement;
  timer_pending : bool;
  earlyKillTimer : option bool;
  kills : nat
}.

(** The state when the handlers are installed. *)
Definition started : Run :=
  {| output := []; settled := None; timer_pending := true;
     earlyKillTimer := None; kills := 0 |}.

(** [settle(err)] *)
Definition settle (err : option jsstring) (r : Run) : Run :=
  match settled r with
  | Some _ => r
  | None =>
      {| output := output r;
         settled := Some match err with
                         | Some message => Rejected message
                         | None => Resolved (output r)
                         end;
         timer_pending := false;
         earlyKillTimer := option_map (fun _ => false) (earlyKillTimer r);
         kills := kills r |}
  end.

(** What happens to the child process and the timers: data on [stdout] and
    [stderr] (the decoded chunk), the events [close] and [error] (with the
    code and the message of the error), and the two timers firing. *)
Inductive event : Type :=
| Stdout : jsstring -> event
| Stderr : jsstring -> event
| Close : event
| SpawnError : jsstring -> jsstring -> event
| Timeout : event
| EarlyKill : event.

(** [child.kill("SIGTERM")] *)
Definition kill (r : Run) : Run :=
  {| output := output r; settled := settled r; timer_pending := timer_pending r;
     earlyKillTimer := earlyKillTimer r; kills := S (kills r) |}.

(** The handlers. A timer fires only while it is pending. *)
Definition handle (r : Run) (e : event) : Run :=
  match e with
  | Stdout chunk =>
      let out := output r ++ chunk in
      let cleaned := stripAnsi out in
      let arm := match earlyKillTimer r with
                 | None => test EARLY_RE cleaned
                 | Some _ => false
                 end in
      {| output := out; settled := settled r; timer_pending := timer_pending r;
         earlyKillTimer := if arm then Some true else earlyKillTimer r;
         kills := kills r |}
  | Stderr chunk =>
      {| output := output r ++ chunk; settled := settled r;
         timer_pending := timer_pending r; earlyKillTimer := earlyKillTimer r;
         kills := kills r |}
  | Close => settle None r
  | SpawnError code message =>
      if str_eqb code (lit "ENOENT") then settle (Some (lit "ENOENT")) r
      else settle (Some message) r
  | Timeout =>
      if timer_pending r
      then settle (Some (lit "timeout"))
             (kill {| output := output r; settled := settled r; timer_pending := false;
                      earlyKillTimer := earlyKillTimer r; kills := kills r |})
      else r
  | EarlyKill =>
      match earlyKillTimer r with
      | Some true =>
          settle None
            (kill {| output := output r; settled := settled r;
                     timer_pending := timer_pending r; earlyKillTimer := Some false;
                     kills := kills r |})
      | _ => r
      end
  end.

(** The call after a sequence of events. *)
Definition run (events : list event) (r : Run) : Run := fold_left handle events r.

(** What a caller of [readUsageData] sees: a result, an exception, or
    nothing as long as the promise of the run is not settled. *)
Inductive reading : Type :=
| Returned : ReadResult -> reading
| Raised_fault : fault -> reading
| Raised_error : jserror -> reading
| Pending : reading.

Definition not_trusted_message : jsstring :=
  lit "Claude CLI hasn't trusted this workspace yet. Allow the extension to authorize it?".

Definition not_found_message : jsstring :=
  lit "Claude CLI not found. Install from https://claude.ai/code or set claudeUsage.claudePath in settings.".

Definition timeout_message : jsstring := lit "claude /usage timed out after 30s.".

(** [readUsageData], with the configuration file and the events of the
    child process that [runClaudeUsage] spawns for a binary in a working
    directory (with the environment of [buildEnv]). *)
Definition readUsageData (host : Host) (f : ConfigFile)
    (child : jsstring -> jsstring -> list event)
    (claudePath : jsstring) (workspacePath : WorkspacePath) : reading :=
  match isWorkspaceTrusted workspacePath f with
  | Fault e => Raised_fault e
  | Done false => Returned (not_trusted not_trusted_message)
  | Done true =>
      let binary := resolveClaudeBinary claudePath in
      match settled (run (child binary (path_text workspacePath)) started) with
      | None => Pending
      | Some (Rejected message) =>
          if str_eqb message (lit "ENOENT") then Returned (error not_found_message)
          else if str_eqb message (lit "timeout") then Returned (error timeout_message)
          else Returned (error (lit "Failed to run claude: " ++ message))
      | Some (Resolved rawOutput) =>
          match parseCliOutput host rawOutput with
          | Ret result => Returned result
          | Throw e => Raised_error e
          end
      end
  end.

(** * Notions used by the properties *)

(** ** The duration rendering *)

(** The rendering rule in the words of the specification: the largest unit
    that fits decides the form, a leftover smaller unit is shown only when it
    is positive, every unit by floored division. *)
Definition duration_rule (n : Z) : jsstring :=
  if 86400 <=? n then
    let d := n / 86400 in
    let h := (n - d * 86400) / 3600 in
    if 0 <? h then of_Z d ++ lit "d " ++ of_Z h ++ lit "h" else of_Z d ++ lit "d"
  else if 3600 <=? n then
    let h := n / 3600 in
    let m := (n - h * 3600) / 60 in
    if 0 <? m then of_Z h ++ lit "h" ++ of_Z m ++ lit "m" else of_Z h ++ lit "h"
  else if 60 <=? n then of_Z (n / 60) ++ lit "m"
  else lit "< 1m".

(** ** The status line *)

(** The prefix of a part: model-specific categories carry their name. *)
Definition part_prefix (t : QuotaType) : jsstring :=
  match t with
  | session | weekly => []
  | opus | sonnet => type_name t ++ lit " "
  end.

(** The part shown for category [t]: that of its first record, if any. *)
Definition part_of (qs : option (list Quota)) (t : QuotaType) : list jsstring :=
  match find_type t qs with
  | Some q =>
      [part_prefix t ++ of_Z (100 - percent_remaining q) ++ lit "% "
       ++ time_remaining_human q]
  | None => []
  end.

Definition scenario_quotas : list Quota :=
  [{| type := session; percent_remaining := 86; resets_at := [];
      time_remaining_seconds := 12000; time_remaining_human := lit "3h20m" |};
   {| type := weekly; percent_remaining := 93; resets_at := [];
      time_remaining_seconds := 440400; time_remaining_human := lit "5d 2h" |};
   {| type := sonnet; percent_remaining := 100; resets_at := [];
      time_remaining_seconds := 598800; time_remaining_human := lit "6d 22h" |}].

Definition scenario_data : UsageData :=
  {| account_type := lit "unknown"; email := [];
     quotas := Some scenario_quotas;
     cost_usage := {| spent := zero; budget := zero |};
     captured_at := []; auth_error := None |}.

(** ** The coordinator *)

(** The lines the parsers see and the block the phrases are looked up in. *)
Definition normalized_lines (raw : jsstring) : list jsstring :=
  split NEWLINE_RE (stripAnsi raw).

Definition joined_block (raw : jsstring) : jsstring :=
  join newline (normalized_lines raw).

(** What [parseCliOutput] does once the lines are known. *)
Definition outcome_of_lines (host : Host) (lines : list jsstring) : outcome ReadResult :=
  match first_pattern AUTH_PATTERNS (join newline lines) with
  | Some e => Ret (not_authenticated (Message e))
  | None =>
      qs <- parseQuotas host lines ;;
      match qs with
      | [] => Ret (error no_data_message)
      | _ :: _ =>
          Ret (ok {| account_type := parseAccountType lines;
                     email := parseEmail lines;
                     quotas := Some qs;
                     cost_usage := parseCostUsage lines;
                     captured_at := Date.iso_string (clock host);
                     auth_error := None |})
      end
  end.

Definition expired_with_quota : jsstring :=
  Sample.text_of ["Your session has expired. Please log in again.";
                  "Current session"; "14% used"; "Resets in 2h 30m"]%string.

Definition clean_fixture : jsstring :=
  Sample.text_of ["Current session"; "14% used"; "Resets 8pm (America/Toronto)";
                  EmptyString; "Current week (all models)"; "7% used";
                  "Resets Feb 27 at 7pm (America/Toronto)"]%string.

(** ** The normalizer *)

Definition cr_to_nl (c : cu) : cu := if chr c_cr c then c_nl else c.

(** A code unit the normalizer lets through: not a carriage return and not
    one of the control codes it deletes (which include ESC and BEL). *)
Definition passes (c : cu) : Prop := c <> c_cr /\ stray_control c = false.

(** ** Matches of the patterns *)

(** What a match step does to the state: it reads the prefix [pre] of the
    input and leaves the captures alone. *)
Definition reads (P : jsstring -> Prop) (a b : mstate) : Prop :=
  exists pre, fst a = pre ++ fst b /\ P pre /\ snd b = snd a.

Definition all_in (p : cls) (s : jsstring) : Prop := Forall (fun c => p c = true) s.

Definition is_percent_word (w : jsstring) : Prop :=
  toLowerCase w = lit "used" \/ toLowerCase w = lit "left".

(** ** The percentage of a record *)

Definition over_hundred : list jsstring :=
  Sample.lines_of ["Current session"; "150% used"]%string.

Definition over_hundred_record : Quota :=
  {| type := session; percent_remaining := -50; resets_at := [];
     time_remaining_seconds := 0; time_remaining_human := [] |}.

(** ** Clock times without a date *)

(** The two words of the last group of a clock time, in any case. *)
Definition is_am_pm (w : jsstring) : Prop :=
  toLowerCase w = lit "am" \/ toLowerCase w = lit "pm".

(** The zone named on the line ([tz] in [parseAbsoluteTime]). *)
Definition zone_of (line : jsstring) : option jsstring :=
  match rmatch TZ_RE line with
  | Some m => group 1 m
  | None => None
  end.

(** The calendar reading of [now] that [parseAbsoluteTime] and
    [computeDiffSeconds] take: in the zone of the line when it names one, in
    the system zone otherwise. *)
Definition civil_now (host : Host) (tz : option jsstring) (now : Z) : outcome civil :=
  match tz with
  | Some z => getNowInTz host z now
  | None => Ret (local_parts host now)
  end.

(** More than the farthest a clock time can be: 99 hours and 99 minutes,
    and a day. *)
Definition six_days : Z := 6 * Date.msPerDay.

(** The reset line of the session section of the fixtures. *)
Definition eight_pm : jsstring := lit "Resets 8pm (America/Toronto)".

(** 2026-02-23T02:00:00Z, 21:00 of the 22nd in Toronto. *)
Definition nine_pm_toronto : Z := Sample.FAKE_NOW + (4 * 60 + 20) * 60000.

(** What the clock-time pattern finds on that line. *)
Definition eight_pm_match : rmatch_result :=
  {| m0 := lit "8pm"; groups := [(3%nat, lit "pm"); (1%nat, lit "8")] |}.

(** The calendar reading of [nine_pm_toronto] in Toronto, the month
    zero-based. *)
Definition toronto_nine_pm : civil :=
  {| year := 2026; month := 1; day := 22; hour := 21; minute := 0 |}.

(** Central European time around the start of summer time in 2026: one hour
    ahead of UTC until 2026-03-29T01:00:00Z and two hours from then on. The
    local times from 02:00 to 03:00 of that day are skipped; they are read
    by the offset before the change. *)
Definition summer_time_start : Z :=
  Date.MakeDate (Date.MakeDay 2026 2 29) (Date.MakeTime 1 0 0 0).

Definition berlin_tza (t : Z) (isUTC : bool) : Z :=
  if isUTC then
    if t <? summer_time_start then Date.msPerHour else 2 * Date.msPerHour
  else
    if t <? summer_time_start + 2 * Date.msPerHour then Date.msPerHour
    else 2 * Date.msPerHour.

(** The sample host with its system zone set to Europe/Berlin. *)
Definition berlin_host (now : Z) : Host :=
  {| clock := now; local_tza := berlin_tza; zone_parts := Sample.known_zones;
     month_of_name := Sample.english_month |}.

(** 2026-03-29T02:59:00Z, and a reset one minute later. *)
Definition gap_now : Z :=
  Date.MakeDate (Date.MakeDay 2026 2 29) (Date.MakeTime 2 59 0 0).

Definition three_am : jsstring := lit "Resets 3am (UTC)".

(** 2026-03-29T00:30:00Z, half an hour before the change, and a reset in
    the evening. *)
Definition before_change : Z :=
  Date.MakeDate (Date.MakeDay 2026 2 29) (Date.MakeTime 0 30 0 0).

Definition eight_pm_utc : jsstring := lit "Resets 8pm (UTC)".

(** The readings of a formatter that counts the hours of the day from 1 to
    24: the hour after midnight reads 24. *)
Definition h24_zones (tz : jsstring) (t : Z) : option civil :=
  match Sample.known_zones tz t with
  | Some c =>
      Some {| year := year c; month := month c; day := day c;
              hour := if hour c =? 0 then 24 else hour c; minute := minute c |}
  | None => None
  end.

(** The sample host with such a formatter. *)
Definition h24_host (now : Z) : Host :=
  {| clock := now; local_tza := fun _ _ => 0; zone_parts := h24_zones;
     month_of_name := Sample.english_month |}.

(** 2026-02-23T00:10:00Z, and a reset five minutes earlier in the day. *)
Definition after_midnight : Z :=
  Date.MakeDate (Date.MakeDay 2026 1 23) (Date.MakeTime 0 10 0 0).

Definition five_past_midnight : jsstring := lit "Resets 12:05am (UTC)".

(** ** The extractor, section by section *)

(** The lines of a section after its first line: those before the next
    label or cost header. *)
Fixpoint section_rest (l : list jsstring) : list jsstring :=
  match l with
  | [] => []
  | line :: tl => if is_boundary line then [] else line :: section_rest tl
  end.

(** The record [parseQuotas] pushes. *)
Definition quota_of (t : QuotaType) (pMatch : rmatch_result) (r : ResetTime) : Quota :=
  {| type := t;
     percent_remaining := percent_of pMatch;
     resets_at := reset_at r;
     time_remaining_seconds := reset_seconds r;
     time_remaining_human := reset_human r |}.

(** [parseQuotas] read on the lines still to scan instead of an index. *)
Fixpoint quotas_from (host : Host) (fuel : nat) (s : list jsstring)
  : outcome (list Quota) :=
  match fuel with
  | O => Ret []
  | S fuel' =>
      match s with
      | [] => Ret []
      | line :: tl =>
          match labelMatch line with
          | None => quotas_from host fuel' tl
          | Some t =>
              let sect := line :: section_rest tl in
              match find_percent (firstn 6 sect) 0 with
              | None => quotas_from host fuel' tl
              | Some (k, pMatch) =>
                  resetInfo <- parseResetTime host sect ;;
                  rest <- quotas_from host fuel' (skipn (S k) s) ;;
                  Ret (quota_of t pMatch resetInfo :: rest)
              end
          end
      end
  end.

(** ** Reordering inside a section *)

(** Lines inside a section: none is a label or a cost header. *)
Definition inside (l : list jsstring) : Prop :=
  Forall (fun line => is_boundary line = false) l.


(** The lines of a session section. *)
Definition session_label : jsstring := lit "Current session".
Definition percent_line : jsstring := lit "14% used".
Definition reset_line : jsstring := lit "Resets 8pm (America/Toronto)".






(** ** Relative durations *)

(** Patterns without groups leave the captures alone. *)
Fixpoint groupless (r : regex) : bool :=
  match r with
  | Eps | Cls _ => true
  | Cat r1 r2 | Alt r1 r2 => groupless r1 && groupless r2
  | Star r1 => groupless r1
  | Grp _ _ => false
  end.

(** Where a text starts with a unit outside the class. *)
Definition stops (p : cls) (s : jsstring) : Prop :=
  match s with
  | [] => True
  | c :: _ => p c = false
  end.

(** The shape of the three relative patterns: digits (group 1), optional
    white space, the unit letter [u] in either case, a groupless tail. *)
Definition token_re (u : N) (tail : regex) : regex :=
  Cat (Grp 1 (Plus (Cls digit))) (Cat sp_star (Cat (Cls (chr_i u)) tail)).

(** The letters d, h and m. *)
Definition unit_letter (u : N) : Prop := u = 100%N \/ u = 104%N \/ u = 109%N.

(** A pattern that can match the empty text. *)
Definition nullable (r : regex) : Prop := forall a, In a (mtch r a).

(** A text without digits. *)
Definition digit_free (s : jsstring) : Prop := Forall (fun c => digit c = false) s.

(** The three units, their letters and their patterns. *)
Inductive time_unit : Type := Days | Hours | Minutes.

(** Equality of units. *)
Definition unit_eqb (a b : time_unit) : bool :=
  match a, b with
  | Days, Days | Hours, Hours | Minutes, Minutes => true
  | _, _ => false
  end.

Definition letter_of (k : time_unit) : N :=
  match k with
  | Days => 100
  | Hours => 104
  | Minutes => 109
  end%N.

Definition pattern_of (k : time_unit) : regex :=
  match k with
  | Days => RELATIVE_DAYS
  | Hours => RELATIVE_HOURS
  | Minutes => RELATIVE_MINS
  end.

(** A duration token: a number, optional white space, the unit letter in
    either case, then any text without digits (the rest of the unit word
    and what separates it from the next token). *)
Record token : Type := {
  t_unit : time_unit;
  t_digits : jsstring;
  t_gap : jsstring;
  t_letter : cu;
  t_text : jsstring
}.

(** The parts of a token are what their names say. *)
Definition token_ok (t : token) : Prop :=
  t_digits t <> [] /\ all_in digit (t_digits t) /\ all_in space (t_gap t)
  /\ chr_i (letter_of (t_unit t)) (t_letter t) = true /\ digit_free (t_text t).

(** The text of a token, and of a sequence of tokens. *)
Definition render (t : token) : jsstring :=
  t_digits t ++ t_gap t ++ t_letter t :: t_text t.

Definition render_all (toks : list token) : jsstring :=
  List.concat (List.map render toks).

(** The number written for unit [k]: that of its first token. *)
Fixpoint amount_of (k : time_unit) (toks : list token) : option jsstring :=
  match toks with
  | [] => None
  | t :: tl => if unit_eqb (t_unit t) k then Some (t_digits t) else amount_of k tl
  end.

(** The seconds the relative branch of [parseResetTime] computes on a line. *)
Definition relative_total (line : jsstring) : Z :=
  opt_int (option_map (group_text 1) (rmatch RELATIVE_DAYS line)) 0 * 86400
  + opt_int (option_map (group_text 1) (rmatch RELATIVE_HOURS line)) 0 * 3600
  + opt_int (option_map (group_text 1) (rmatch RELATIVE_MINS line)) 0 * 60.

Definition relative_reset (now total : Z) : outcome (option ResetTime) :=
  resetsAt <- Date.toISOString (Date.TimeClip (now + total * 1000)) ;;
  Ret (Some {| reset_at := resetsAt;
               reset_seconds := total;
               reset_human := formatDuration total |}).

(** The seconds a sequence of tokens denotes. *)
Definition seconds_of (toks : list token) : Z :=
  opt_int (amount_of Days toks) 0 * 86400
  + opt_int (amount_of Hours toks) 0 * 3600
  + opt_int (amount_of Minutes toks) 0 * 60.

Definition tok (k : time_unit) (digits word : string) : token :=
  {| t_unit := k; t_digits := lit digits; t_gap := lit " ";
     t_letter := hd 0%N (lit word); t_text := tl (lit word) |}.

Definition three_units : list token :=
  [tok Days "3" "Days "; tok Hours "2" "hr "; tok Minutes "05" "min"].

Definition far_future : list token := [tok Days "200000000" "days"].

(** A reset in three hours, followed by a count of messages. *)
Definition stray_word_line : jsstring := lit "Resets in 3 hours (5 messages left)".

(** ** The scenarios of the test suite *)

Definition kind_of (r : outcome ReadResult) : string :=
  match r with
  | Ret (ok _) => "ok"
  | Ret (not_authenticated _) => "not_authenticated"
  | Ret (not_trusted _) => "not_trusted"
  | Ret (error _) => "error"
  | Throw _ => "throws"
  end.

Definition at_test_clock (raw : jsstring) : outcome ReadResult :=
  parseCliOutput (Sample.host Sample.FAKE_NOW) raw.

Definition pro_fixture : jsstring :=
  join newline
    (([183%N] ++ lit " Claude Pro " ++ [183%N] ++ lit " user@example.com")
     :: Sample.lines_of
          [EmptyString; "Current session"; "14% used"; "Resets 8pm (America/Toronto)";
           EmptyString; "Current week (all models)"; "7% used";
           "Resets Feb 27 at 7pm (America/Toronto)"]%string).

(** ** Escape sequences *)

(** The cursor-forward sequence with the parameter text [ds]: ESC, "[",
    [ds], "C". *)
Definition cursor_forward (ds : jsstring) : jsstring :=
  c_esc :: lit "[" ++ ds ++ lit "C".

(** The number of spaces that stand for it: the parameter, 1 when it is
    absent, at most 100. *)
Definition forward_count (ds : jsstring) : nat :=
  Z.to_nat (Z.min (match ds with [] => 1 | _ :: _ => parseInt ds end) 100).

(** The classes of a control sequence: parameter units "0" to "?",
    intermediate units " " to "/", final units "@" to "~". *)
Definition csi_param : cls := range 48 63.
Definition csi_inter : cls := range 32 47.
Definition csi_final : cls := range 64 126.

(** A control sequence: ESC, "[", parameters, intermediates, final unit. *)
Definition csi (params inter : jsstring) (final : cu) : jsstring :=
  c_esc :: lit "[" ++ params ++ inter ++ [final].

(** The units that make a two-unit escape with ESC: "@" to "Z" and "\" to
    "_". *)
Definition esc_second : cls := union (range 64 90) (range 92 95).

(** ** The records of a transcript *)

(** The types of the label lines of a transcript, in the order of the
    lines. *)
Definition label_types (lines : list jsstring) : list QuotaType :=
  flat_map (fun line => match labelMatch line with
                        | Some t => [t]
                        | None => []
                        end) lines.

(** [a] is [b] with some of its elements left out. *)
Fixpoint subseq (a b : list QuotaType) : bool :=
  match a, b with
  | [], _ => true
  | _ :: _, [] => false
  | x :: a', y :: b' => if QuotaType_eqb x y then subseq a' b' else subseq a b'
  end.

(** A record whose reset time was resolved: the seconds are not negative,
    the text is their rendering and the instant is a time value in ISO
    form. *)
Definition resolved (q : Quota) : Prop :=
  0 <= time_remaining_seconds q
  /\ time_remaining_human q = formatDuration (time_remaining_seconds q)
  /\ exists t, Z.abs t <= Date.maxTime /\ resets_at q = Date.iso_string t.

(** A record without reset time. *)
Definition unresolved_record (q : Quota) : Prop :=
  resets_at q = [] /\ time_remaining_seconds q = 0 /\ time_remaining_human q = [].

(** A transcript with four label lines, one of them without percentage,
    and its records at the clock of the test suite. *)
Definition week_lines : list jsstring :=
  Sample.lines_of
    ["Current session"; "14% used"; "Resets in 3h 20m";
     "Current week (all models)"; "7% used"; "Resets in 5d 2h";
     "Current week (Opus)"; "no data";
     "Current week (Sonnet only)"; "0% used"; "Resets in 6d 22h"]%string.

Definition week_records : list Quota :=
  Eval vm_compute in
    match parseQuotas (Sample.host Sample.FAKE_NOW) week_lines with
    | Ret qs => qs
    | Throw _ => []
    end.

(** A session section with a clock time and a week section without reset
    line, and their two records at the clock of the test suite. *)
Definition mixed_lines : list jsstring :=
  Sample.lines_of
    ["Current session"; "14% used"; "Resets 8pm (America/Toronto)";
     "Current week (all models)"; "7% used"]%string.

Definition timed_record : Quota :=
  {| type := session; percent_remaining := 86;
     resets_at := lit "2026-02-23T01:00:00.000Z";
     time_remaining_seconds := 12000; time_remaining_human := lit "3h20m" |}.

Definition untimed_record : Quota :=
  {| type := weekly; percent_remaining := 93; resets_at := [];
     time_remaining_seconds := 0; time_remaining_human := [] |}.

(** A resolved time: seconds that are not negative and the ISO form of a
    time value. *)
Definition resolved_time (seconds : Z) (at_ : jsstring) : Prop :=
  0 <= seconds /\ exists t, Z.abs t <= Date.maxTime /\ at_ = Date.iso_string t.

(** ** Results of the coordinator *)

(** The data of the result on the two-section fixture at the clock of the
    test suite. *)
Definition clean_fixture_data : UsageData :=
  Eval vm_compute in
    match parseCliOutput (Sample.host Sample.FAKE_NOW) clean_fixture with
    | Ret (ok d) => d
    | _ => scenario_data
    end.

(** The messages of the table of authentication phrases. *)
Definition auth_messages : list jsstring :=
  List.map (fun p => Message (snd p)) AUTH_PATTERNS.

(** Every record of [more] has the type of a record of [qs]. *)
Definition types_covered (qs more : list Quota) : bool :=
  forallb (fun q => existsb (fun q' => QuotaType_eqb (type q') (type q)) qs) more.

(** The data of the scenario with a second session record at the end. *)
Definition late_session : Quota :=
  {| type := session; percent_remaining := 50; resets_at := [];
     time_remaining_seconds := 60; time_remaining_human := lit "1m" |}.

Definition scenario_data_more : UsageData :=
  {| account_type := lit "unknown"; email := [];
     quotas := Some (scenario_quotas ++ [late_session]);
     cost_usage := {| spent := zero; budget := zero |};
     captured_at := []; auth_error := None |}.

(** ** Dated times and unknown zones *)

(** A reset line with a zone the sample host does not know. *)
Definition phobos_line : jsstring := lit "Resets 3pm (Mars/Phobos)".

(** A reset line with a date, read on 2026-12-30 at 12:00 UTC. *)
Definition january_line : jsstring := lit "Resets Jan 2 at 3pm (UTC)".
Definition year_end : Z :=
  Date.MakeDate (Date.MakeDay 2026 11 30) (Date.MakeTime 12 0 0 0).
Definition january_match : rmatch_result :=
  Eval vm_compute in
    match rmatch DATE_TIME_RE january_line with
    | Some m => m
    | None => {| m0 := []; groups := [] |}
    end.
Definition year_end_utc : civil :=
  {| year := 2026; month := 11; day := 30; hour := 12; minute := 0 |}.

(** ** Reading a rendered duration back *)

(** What a rendered duration still says of the seconds: whole hours from
    one day on, whole minutes below. *)
Definition shown (n : Z) : Z :=
  if 86400 <=? n then n / 3600 * 3600 else n / 60 * 60.

(** A token written without gap: the number [z], the letter of the unit and
    the text [sep]. *)
Definition plain_token (k : time_unit) (z : Z) (sep : jsstring) : token :=
  {| t_unit := k; t_digits := of_Z z; t_gap := [];
     t_letter := letter_of k; t_text := sep |}.

(** The tokens of the rendering of [n] seconds, from one minute on. *)
Definition duration_tokens (n : Z) : list token :=
  let days := n / 86400 in
  let hours := Z.rem n 86400 / 3600 in
  let mins := Z.rem n 3600 / 60 in
  if 0 <? days then
    if 0 <? hours then [plain_token Days days (lit " "); plain_token Hours hours []]
    else [plain_token Days days []]
  else if 0 <? hours then
    if 0 <? mins then [plain_token Hours hours []; plain_token Minutes mins []]
    else [plain_token Hours hours []]
  else [plain_token Minutes mins []].

(** ** Cost usage *)

(** The cost pair of a match of the amount pattern. *)
Definition cost_of (m : rmatch_result) : CostUsage :=
  {| spent := parseFloat (remove_first_comma (group_text 1 m));
     budget := parseFloat (remove_first_comma (group_text 2 m)) |}.

(** A line without the cost header, a line without the amount pair. *)
Definition no_header (line : jsstring) : Prop := test COST_SECTION_RE line = false.
Definition no_amount (line : jsstring) : Prop := rmatch COST_AMOUNT_RE line = None.

(** Where an integer amount ends: at the end of the text or at a comma. *)
Definition ends_integer (rest : jsstring) : Prop :=
  match rest with
  | [] => True
  | c :: _ => c = 44%N
  end.

(** A cost section whose amount line comes [k] lines after the header. *)
Definition cost_lines (k : nat) : list jsstring :=
  [lit "Current session"; lit "Extra usage"] ++ List.repeat [] k
  ++ [lit "$12.50 / $100 spent"; lit "Resets Mar 1"].
Definition cost_match : rmatch_result :=
  Eval vm_compute in
    match rmatch COST_AMOUNT_RE (lit "$12.50 / $100 spent") with
    | Some m => m
    | None => {| m0 := []; groups := [] |}
    end.

(** ** The address of the account *)

(** A text without white space that has "@" between two non-empty parts. *)
Definition is_address (e : jsstring) : Prop :=
  all_in nonspace e
  /\ exists u d, e = u ++ 64%N :: d /\ u <> [] /\ d <> [].

(** [e] is a part of [line]. *)
Definition part_of_line (e line : jsstring) : Prop :=
  exists pre post, line = pre ++ e ++ post.

(** ** The search path *)

(** The entries of the search path of an environment. *)
Definition path_entries (d : cu) (env : Env) : list jsstring :=
  split_unit d (match env (lit "PATH") with Some v => v | None => [] end).


(** The delimiter is ":" or ";" and does not occur in the directory of the
    home. *)
Definition usual_delimiter (sys : Process) : Prop :=
  (path_delimiter sys = 58%N \/ path_delimiter sys = 59%N)
  /\ Forall (fun c => c <> path_delimiter sys) (home_local_bin sys).

(** A process of a POSIX system. *)
Definition sample_process : Process :=
  {| process_env := fun name =>
       if str_eqb name (lit "PATH") then Some (lit "/usr/bin:/usr/local/bin:/bin")
       else if str_eqb name (lit "HOME") then Some (lit "/home/u")
       else None;
     path_delimiter := 58%N;
     home_local_bin := lit "/home/u/.local/bin" |}.

(** ** Trust *)

(** An array stands where [trustWorkspace] writes: the configuration, its
    [projects] or the entry of the workspace is one. *)
Definition array_on_way (workspacePath : WorkspacePath) (f : ConfigFile) : bool :=
  match readClaudeConfig f with
  | JArr _ => true
  | JObj fields =>
      match get_field (lit "projects") fields with
      | Some (JArr _) => true
      | Some (JObj entries) =>
          match get_field (path_text workspacePath) entries with
          | Some (JArr _) => true
          | _ => false
          end
      | _ => false
      end
  | _ => false
  end.

(** A configuration as the CLI writes it, and two workspaces. *)
Definition sample_config : ConfigFile :=
  {| content :=
       Some (JObj [(lit "numStartups", JNum 12);
                   (lit "oauthAccount",
                    JObj [(lit "emailAddress", JStr (lit "user@example.com"));
                          (lit "displayName", JStr (lit "User"))]);
                   (lit "projects",
                    JObj [(lit "/home/u/old",
                           JObj [(lit "hasTrustDialogAccepted", JBool true);
                                 (lit "allowedTools", JArr [])])])]);
     writable := true |}.

Definition new_workspace : WorkspacePath :=
  {| path_text := lit "/home/u/new"; path_separated := eq_refl |}.

Definition old_workspace : WorkspacePath :=
  {| path_text := lit "/home/u/old"; path_separated := eq_refl |}.

Definition sample_config_trusted : ConfigFile :=
  Eval vm_compute in
    match trustWorkspace new_workspace sample_config with
    | Done f => f
    | Fault _ => sample_config
    end.

(** A configuration that is an array. *)
Definition array_config : ConfigFile :=
  {| content := Some (JArr [JNum 1]); writable := true |}.

(** The body of [isWorkspaceTrusted] on a configuration that is not
    [null]. *)
Definition trusted_in (config : json) (p : jsstring) : bool :=
  let entry := match own config (lit "projects") with
               | None | Some JNull => None
               | Some projects => own projects p
               end in
  let flag := match entry with
              | None | Some JNull => None
              | Some e => own e flag_name
              end in
  match flag with
  | Some (JBool true) => true
  | _ => false
  end.

(** The ways [trustWorkspace] ends when it writes the file: the
    configuration it read and the one it wrote. *)
Inductive trust_case (p : jsstring) : json -> json -> Prop :=
| trust_array (items : list json) : trust_case p (JArr items) (JArr items)
| trust_projects_array (fields : list (jsstring * json)) (items : list json) :
    get_field (lit "projects") fields = Some (JArr items) ->
    trust_case p (JObj fields) (JObj fields)
| trust_entry_array (fields entries : list (jsstring * json)) (items : list json) :
    get_field (lit "projects") fields = Some (JObj entries) ->
    get_field p entries = Some (JArr items) ->
    trust_case p (JObj fields) (JObj fields)
| trust_new_projects (fields : list (jsstring * json)) :
    match get_field (lit "projects") fields with
    | Some v => truthy v = false
    | None => True
    end ->
    trust_case p (JObj fields)
      (JObj (set_field (lit "projects") (JObj [(p, trusted_entry)])
               (set_field (lit "projects") (JObj []) fields)))
| trust_new_entry (fields entries : list (jsstring * json)) :
    get_field (lit "projects") fields = Some (JObj entries) ->
    match get_field p entries with
    | Some v => truthy v = false
    | None => True
    end ->
    trust_case p (JObj fields)
      (JObj (set_field (lit "projects") (JObj (set_field p trusted_entry entries)) fields))
| trust_old_entry (fields entries e : list (jsstring * json)) :
    get_field (lit "projects") fields = Some (JObj entries) ->
    get_field p entries = Some (JObj e) ->
    trust_case p (JObj fields)
      (JObj (set_field (lit "projects")
               (JObj (set_field p (JObj (set_field flag_name (JBool true) e)) entries))
               fields)).

(** ** Runs of the command *)

(** The text of the chunks of a sequence of events, in their order. *)
Fixpoint chunks (events : list event) : jsstring :=
  match events with
  | [] => []
  | Stdout c :: tl | Stderr c :: tl => c ++ chunks tl
  | _ :: tl => chunks tl
  end.

(** A run in which the usage appears and the command is ended early. *)
Definition early_run : list event :=
  [Stderr (lit "warning" ++ [c_nl]);
   Stdout (lit "Current session" ++ [c_cr] ++ lit "14% used" ++ [c_cr]);
   Stdout (lit "Resets 8pm (America/Toronto)" ++ [c_cr]);
   EarlyKill; Close; Timeout].

Definition early_output : jsstring :=
  Eval vm_compute in
    lit "warning" ++ [c_nl] ++ lit "Current session" ++ [c_cr] ++ lit "14% used" ++ [c_cr]
    ++ lit "Resets 8pm (America/Toronto)" ++ [c_cr].

(** * Properties *)

Lemma str_eqb_eq (a b : jsstring) : str_eqb a b = true <-> a = b.
Proof. unfold str_eqb; destruct (list_eq_dec N.eq_dec a b); split; congruence. Qed.

(** ** Lists *)

Lemma Forall_firstn_keeps {A : Type} (P : A -> Prop) (n : nat) (l : list A) :
  Forall P l -> Forall P (firstn n l).
Proof.
  intros H. revert n. induction H as [| x l Hx _ IH]; intros [| n]; cbn; auto.
Qed.


(** ** The duration rendering *)

Lemma rem_sub_div (n k : Z) : 0 <= n -> 0 < k -> Z.rem n k = n - n / k * k.
Proof.
  intros Hn Hk. rewrite Z.rem_mod_nonneg by lia.
  rewrite Z.mod_eq by lia. ring.
Qed.

Lemma div_pos_iff (n k : Z) : 0 <= n -> 0 < k -> (0 <? n / k) = (k <=? n).
Proof.
  intros Hn Hk. destruct (Z.leb_spec k n) as [H | H].
  - apply Z.ltb_lt. apply Z.div_str_pos. lia.
  - rewrite Z.div_small by lia. reflexivity.
Qed.

(** C7: on every non-negative number of seconds [formatDuration] renders
    exactly by the rule of the specification, with floored divisions. *)
Theorem formatDuration_rule (n : Z) :
  0 <= n -> formatDuration n = duration_rule n.
Proof.
  intros Hn. unfold formatDuration, duration_rule.
  rewrite (div_pos_iff _ _ Hn) by lia.
  rewrite (rem_sub_div _ _ Hn) by lia.
  destruct (Z.leb_spec 86400 n) as [Hd | Hd]; [reflexivity |].
  rewrite (Z.div_small n 86400) by lia.
  replace (n - 0 * 86400) with n by ring.
  rewrite (div_pos_iff _ _ Hn) by lia.
  rewrite (rem_sub_div _ _ Hn) by lia.
  destruct (Z.leb_spec 3600 n) as [Hh | Hh]; [reflexivity |].
  rewrite (Z.div_small n 3600) by lia.
  replace (n - 0 * 3600) with n by ring.
  rewrite (div_pos_iff _ _ Hn) by lia.
  reflexivity.
Qed.

(** The rule at 12000 seconds. *)
Lemma formatDuration_rule_witness :
  0 <= 12000 /\ formatDuration 12000 = duration_rule 12000.
Proof. split; [lia | apply (formatDuration_rule 12000); lia]. Defined.

Example formatDuration_3h20m : formatDuration 12000 = lit "3h20m".
Proof. reflexivity. Qed.

Example formatDuration_5d2h : formatDuration 440400 = lit "5d 2h".
Proof. reflexivity. Qed.

Example formatDuration_1d : formatDuration 86400 = lit "1d".
Proof. reflexivity. Qed.

Example formatDuration_under_minute : formatDuration 59 = lit "< 1m".
Proof. reflexivity. Qed.

(** ** The status line *)

(** C8: the status line is the parts of the categories session, weekly, opus,
    sonnet in this order, each "<used>% <human>" with used = 100 -
    percent_remaining, the model-specific ones prefixed by their name, joined
    with " | "; the three-record scenario renders as stated. *)
Theorem formatStatusText_order (data : UsageData) :
  formatStatusText data
  = join (lit " | ")
      (flat_map (part_of (quotas data)) [session; weekly; opus; sonnet])
  /\ formatStatusText scenario_data = lit "14% 3h20m | 7% 5d 2h | sonnet 0% 6d 22h".
Proof.
  split; [| reflexivity].
  unfold formatStatusText, part_of, usage_part. simpl flat_map.
  rewrite app_nil_r.
  destruct (find_type session (quotas data)), (find_type weekly (quotas data)),
    (find_type opus (quotas data)), (find_type sonnet (quotas data)); reflexivity.
Qed.

(** ** The coordinator *)

Lemma first_pattern_some l text p e :
  In (p, e) l -> test p text = true -> exists e', first_pattern l text = Some e'.
Proof.
  induction l as [| [p0 e0] tl IH]; intros Hin Ht; [destruct Hin |].
  cbn [first_pattern]. destruct (test p0 text) eqn:E0; [eauto |].
  destruct Hin as [Heq | Hin]; [| eauto].
  inversion Heq; subst. congruence.
Qed.

Lemma first_pattern_none l text :
  (forall p e, In (p, e) l -> test p text = false) <-> first_pattern l text = None.
Proof.
  induction l as [| [p0 e0] tl IH]; cbn [first_pattern].
  - split; [reflexivity | intros _ p e []].
  - split.
    + intros H. rewrite (H p0 e0) by (left; reflexivity).
      apply IH. intros p e Hin. apply (H p e). right; exact Hin.
    + destruct (test p0 text) eqn:E0; [discriminate |].
      intros H p e [Heq | Hin].
      * inversion Heq; subst; exact E0.
      * apply (proj2 IH H p e Hin).
Qed.

(** Every code of the phrase table is a hard authentication failure. *)
Lemma first_pattern_hard text e :
  first_pattern AUTH_PATTERNS text = Some e ->
  existsb (str_eqb (Code e)) AUTH_ERROR_CODES = true.
Proof.
  unfold AUTH_PATTERNS. cbn [first_pattern].
  repeat match goal with
         | |- context [test ?p text] => destruct (test p text)
         end;
    intros H; inversion H; subst; reflexivity.
Qed.

Lemma parseCliOutput_lines (host : Host) (raw : jsstring) :
  parseCliOutput host raw = outcome_of_lines host (normalized_lines raw).
Proof.
  unfold parseCliOutput, outcome_of_lines, detectAuthError, normalized_lines.
  generalize (split NEWLINE_RE (stripAnsi raw)). intros lines.
  destruct (first_pattern AUTH_PATTERNS (join newline lines)) as [e |] eqn:E.
  - rewrite (first_pattern_hard _ _ E). reflexivity.
  - reflexivity.
Qed.

(** C2: when the joined block of normalized lines matches a phrase of the
    authentication table, the outcome is [not_authenticated] with the message
    of the first matching phrase, whatever quota text the transcript holds. *)
Theorem auth_failure_precedence (host : Host) (raw : jsstring) (p : regex) (e : AuthError) :
  In (p, e) AUTH_PATTERNS ->
  test p (joined_block raw) = true ->
  exists e', detectAuthError (normalized_lines raw) = Some e'
             /\ parseCliOutput host raw = Ret (not_authenticated (Message e')).
Proof.
  intros Hin Ht. rewrite parseCliOutput_lines.
  unfold joined_block in Ht. unfold detectAuthError, outcome_of_lines.
  revert Ht. generalize (normalized_lines raw). intros lines Ht.
  destruct (first_pattern_some _ _ _ _ Hin Ht) as [e' He'].
  exists e'. split; [exact He' |]. rewrite He'. reflexivity.
Qed.

(** The precedence on an output with an expired session and a quota
    section. *)
Lemma auth_failure_precedence_witness :
  exists e', detectAuthError (normalized_lines expired_with_quota) = Some e'
             /\ parseCliOutput (Sample.host Sample.FAKE_NOW) expired_with_quota
                = Ret (not_authenticated (Message e')).
Proof.
  apply (auth_failure_precedence (Sample.host Sample.FAKE_NOW) expired_with_quota
           AUTH_EXPIRED_RE
           {| Code := lit "token_expired";
              Message := lit "Claude authentication token expired. Run 'claude' to re-authenticate." |}).
  - right; left; reflexivity.
  - vm_compute; reflexivity.
Defined.

(** The quota text of that transcript would be extracted on its own. *)
Example expired_with_quota_has_records :
  exists q, parseQuotas (Sample.host Sample.FAKE_NOW) (normalized_lines expired_with_quota)
            = Ret [q]
            /\ percent_remaining q = 86 /\ time_remaining_seconds q = 9000.
Proof. eexists. split; [vm_compute; reflexivity | split; reflexivity]. Qed.

(** C3: without an authentication phrase the outcome is [ok] exactly when
    quota extraction yields at least one record; zero records give the
    no-data error, and the quotas of an [ok] outcome are never empty. *)
Theorem ok_iff_quota_found (host : Host) (raw : jsstring) :
  (forall p e, In (p, e) AUTH_PATTERNS -> test p (joined_block raw) = false) ->
  (parseQuotas host (normalized_lines raw) = Ret []
   -> parseCliOutput host raw = Ret (error no_data_message))
  /\ ((exists d, parseCliOutput host raw = Ret (ok d))
      <-> (exists qs, parseQuotas host (normalized_lines raw) = Ret qs /\ qs <> []))
  /\ (forall d, parseCliOutput host raw = Ret (ok d) ->
        exists qs, quotas d = Some qs /\ qs <> []
                   /\ parseQuotas host (normalized_lines raw) = Ret qs).
Proof.
  intros Hno. apply first_pattern_none in Hno.
  rewrite parseCliOutput_lines. unfold joined_block in Hno.
  unfold outcome_of_lines. revert Hno.
  generalize (normalized_lines raw). intros lines Hno. rewrite Hno.
  destruct (parseQuotas host lines) as [[| q qs] | err]; unfold bind.
  - split; [reflexivity |]. split.
    + split; [intros [d H]; discriminate | intros [qs [H Hne]]].
      inversion H; subst. congruence.
    + intros d H; discriminate.
  - split; [discriminate |]. split.
    + split; [intros _ | intros _; eauto].
      exists (q :: qs). split; [reflexivity | discriminate].
    + intros d H. injection H as <-. unfold quotas.
      exists (q :: qs). repeat split; discriminate.
  - split; [discriminate |]. split.
    + split; [intros [d H]; discriminate | intros [qs [H _]]; discriminate].
    + intros d H; discriminate.
Qed.

(** The three cases on the two-section fixture. *)
Lemma ok_iff_quota_found_witness :
  (parseQuotas (Sample.host Sample.FAKE_NOW) (normalized_lines clean_fixture) = Ret []
   -> parseCliOutput (Sample.host Sample.FAKE_NOW) clean_fixture
      = Ret (error no_data_message))
  /\ ((exists d, parseCliOutput (Sample.host Sample.FAKE_NOW) clean_fixture = Ret (ok d))
      <-> (exists qs, parseQuotas (Sample.host Sample.FAKE_NOW)
                        (normalized_lines clean_fixture) = Ret qs /\ qs <> []))
  /\ (forall d, parseCliOutput (Sample.host Sample.FAKE_NOW) clean_fixture = Ret (ok d) ->
        exists qs, quotas d = Some qs /\ qs <> []
                   /\ parseQuotas (Sample.host Sample.FAKE_NOW)
                        (normalized_lines clean_fixture) = Ret qs).
Proof.
  apply (ok_iff_quota_found (Sample.host Sample.FAKE_NOW) clean_fixture).
  intros p e Hin.
  repeat (destruct Hin as [Hin | Hin];
          [injection Hin as <- <-; vm_compute; reflexivity |]).
  destruct Hin.
Defined.

(** The scenario of the test suite: a clean two-section transcript. *)
Example clean_fixture_records :
  exists d a b,
    parseCliOutput (Sample.host Sample.FAKE_NOW) clean_fixture = Ret (ok d)
    /\ quotas d = Some [a; b]
    /\ (type a, percent_remaining a, time_remaining_seconds a, time_remaining_human a)
       = (session, 86, 12000, lit "3h20m")
    /\ (type b, percent_remaining b, time_remaining_seconds b, time_remaining_human b)
       = (weekly, 93, 440400, lit "5d 2h").
Proof.
  do 3 eexists. split; [vm_compute; reflexivity |].
  split; [reflexivity |]. split; reflexivity.
Qed.

Example empty_output_is_no_data :
  parseCliOutput (Sample.host Sample.FAKE_NOW) [] = Ret (error no_data_message).
Proof. vm_compute; reflexivity. Qed.

(** ** Cost usage *)

Lemma parseCostUsage_absent (lines : list jsstring) :
  Forall (fun line => test COST_SECTION_RE line = false) lines ->
  parseCostUsage lines = {| spent := zero; budget := zero |}.
Proof.
  induction 1 as [| line tl Hline _ IH]; [reflexivity |].
  cbn [parseCostUsage]. rewrite Hline. exact IH.
Qed.

Lemma parseCostUsage_no_pair (lines : list jsstring) :
  Forall (fun line => rmatch COST_AMOUNT_RE line = None) lines ->
  parseCostUsage lines = {| spent := zero; budget := zero |}.
Proof.
  intros H.
  assert (Hfind : forall l, Forall (fun line => rmatch COST_AMOUNT_RE line = None) l ->
                            find_amount l = None).
  { induction 1 as [| x l Hx _ IHl]; [reflexivity |]. cbn [find_amount]. rewrite Hx. exact IHl. }
  induction H as [| line tl Hline Htl IH]; [reflexivity |].
  cbn [parseCostUsage].
  rewrite (Hfind (firstn 10 (line :: tl)))
    by (apply Forall_firstn_keeps; constructor; assumption).
  destruct (test COST_SECTION_RE line); exact IH.
Qed.

Example cost_one_separator :
  parseCostUsage (Sample.lines_of ["Extra usage"; "$1,234.50 / $2,000 spent"]%string)
  = {| spent := Dec (2469 # 2); budget := Dec (2000 # 1) |}.
Proof. vm_compute; reflexivity. Qed.

(** C9, on the example of the specification: the amounts of "$1,234.50 / $2,000,000
    spent" are read as 1234.5 and 2000, not 2000000: only the first comma of
    each amount is removed, and the number ends at the comma that is left. *)
Theorem parseCostUsage_second_separator :
  parseCostUsage (Sample.lines_of ["Extra usage"; "$1,234.50 / $2,000,000 spent"]%string)
  = {| spent := Dec (2469 # 2); budget := Dec (2000 # 1) |}.
Proof. vm_compute; reflexivity. Qed.

(** ** The normalizer *)

Lemma exec_at_cls (p : cls) (c : cu) (tl : jsstring) :
  exec_at (Cls p) (c :: tl)
  = if p c then Some (tl, {| m0 := consumed (c :: tl) tl; groups := [] |}) else None.
Proof. unfold exec_at. cbn. destruct (p c); reflexivity. Qed.

Lemma exec_at_cls_nil (p : cls) : exec_at (Cls p) [] = None.
Proof. reflexivity. Qed.

(** Deleting the matches of a one-unit class is filtering. *)
Lemma replace_cls_delete (p : cls) (fuel : nat) (s : jsstring) :
  (length s < fuel)%nat ->
  replace_from fuel (Cls p) (fun _ => []) s = filter (fun c => negb (p c)) s.
Proof.
  revert s. induction fuel as [| fuel IH]; intros s Hlen; [lia |].
  destruct s as [| c tl]; [reflexivity |].
  cbn [replace_from filter]. rewrite exec_at_cls.
  cbn [length] in Hlen.
  destruct (p c); cbn [negb].
  - replace (length tl <? length (c :: tl))%nat with true
      by (symmetry; apply Nat.ltb_lt; cbn; lia).
    cbn [app]. apply IH. lia.
  - f_equal. apply IH. lia.
Qed.

(** Replacing the matches of a one-unit class by one unit is mapping. *)
Lemma replace_cls_subst (p : cls) (x : cu) (fuel : nat) (s : jsstring) :
  (length s < fuel)%nat ->
  replace_from fuel (Cls p) (fun _ => [x]) s
  = List.map (fun c => if p c then x else c) s.
Proof.
  revert s. induction fuel as [| fuel IH]; intros s Hlen; [lia |].
  destruct s as [| c tl]; [reflexivity |].
  cbn [replace_from List.map]. rewrite exec_at_cls.
  cbn [length] in Hlen.
  destruct (p c).
  - replace (length tl <? length (c :: tl))%nat with true
      by (symmetry; apply Nat.ltb_lt; cbn; lia).
    cbn [app]. f_equal. apply IH. lia.
  - f_equal. apply IH. lia.
Qed.

(** A pattern that starts with a literal unit matches nowhere in a text
    without that unit. *)
Lemma exec_at_first_unit (x : N) (r : regex) (s : jsstring) :
  hd_error s <> Some x -> exec_at (Cat (Cls (chr x)) r) s = None.
Proof.
  intros H. unfold exec_at. cbn [mtch fst snd].
  destruct s as [| c tl]; [reflexivity |].
  unfold chr. destruct (N.eqb_spec c x) as [-> | _]; [| reflexivity].
  exfalso. apply H. reflexivity.
Qed.

Lemma replace_absent_unit (x : N) (r : regex) (f : rmatch_result -> jsstring)
    (fuel : nat) (s : jsstring) :
  Forall (fun c => c <> x) s ->
  replace_from fuel (Cat (Cls (chr x)) r) f s = s.
Proof.
  revert s. induction fuel as [| fuel IH]; intros s Hs; [reflexivity |].
  cbn [replace_from].
  rewrite exec_at_first_unit.
  - destruct Hs as [| c tl Hc Htl]; [reflexivity |]. f_equal. apply IH. exact Htl.
  - destruct Hs as [| c tl Hc Htl]; cbn; congruence.
Qed.

(** [stripAnsi] ends with a map and a filter of code units. *)
Lemma stripAnsi_unfold (raw : jsstring) :
  stripAnsi raw
  = filter (fun c => negb (stray_control c))
      (List.map cr_to_nl
         (replace_all ANSI_RE (fun _ => [])
            (replace_all CURSOR_FWD_RE cursor_spaces raw))).
Proof.
  unfold stripAnsi, replace_all, CONTROL_RE, CR_RE.
  rewrite replace_cls_delete by lia.
  rewrite replace_cls_subst by lia.
  reflexivity.
Qed.

Lemma stripAnsi_passes (raw : jsstring) : Forall passes (stripAnsi raw).
Proof.
  rewrite stripAnsi_unfold. apply Forall_forall. intros c Hc.
  apply filter_In in Hc. destruct Hc as [Hin Hctl].
  split.
  - apply in_map_iff in Hin. destruct Hin as [c0 [Hc0 _]].
    unfold cr_to_nl, chr in Hc0. destruct (N.eqb_spec c0 c_cr) as [E | E].
    + subst c. discriminate.
    + subst c. exact E.
  - apply negb_true_iff in Hctl. exact Hctl.
Qed.

Lemma passes_not_esc (c : cu) : passes c -> c <> c_esc.
Proof. intros [_ H] ->. discriminate H. Qed.

Lemma passes_low (c : cu) :
  passes c -> (c < 32)%N -> c = 9%N \/ c = c_nl.
Proof.
  intros [Hcr Hctl] Hlow. unfold stray_control, union, range, chr in Hctl.
  unfold c_cr, c_nl in *.
  repeat match type of Hctl with
         | (_ || _) = false => apply orb_false_iff in Hctl; destruct Hctl as [? Hctl]
         | (_ && _) = false => apply andb_false_iff in Hctl
         end.
  repeat match goal with
         | H : (_ && _) = false |- _ => apply andb_false_iff in H
         | H : (_ =? _)%N = false |- _ => apply N.eqb_neq in H
         | H : (_ <=? _)%N = false \/ _ |- _ => rewrite !N.leb_gt in H
         end.
  lia.
Qed.

(** On a text of passing units the normalizer changes nothing. *)
Lemma stripAnsi_fixed (s : jsstring) : Forall passes s -> stripAnsi s = s.
Proof.
  intros Hs. rewrite stripAnsi_unfold.
  assert (Hesc : Forall (fun c => c <> c_esc) s).
  { eapply Forall_impl; [| exact Hs]. exact passes_not_esc. }
  unfold replace_all.
  change CURSOR_FWD_RE
    with (Cat (Cls (chr c_esc))
            (seq_of [ch "["; Grp 1 (Star (Cls digit)); ch "C"])).
  rewrite replace_absent_unit by exact Hesc.
  unfold ANSI_RE. rewrite replace_absent_unit by exact Hesc.
  induction Hs as [| c tl [Hcr Hctl] _ IH]; [reflexivity |].
  assert (Hc : cr_to_nl c = c).
  { unfold cr_to_nl, chr. destruct (N.eqb_spec c c_cr); [contradiction | reflexivity]. }
  cbn [List.map filter]. rewrite Hc, Hctl. cbn [negb]. f_equal. apply IH.
  inversion Hesc; assumption.
Qed.

(** C10: [stripAnsi] is idempotent, and its output holds no ESC, no carriage
    return and no control code below 32 other than tab and newline. *)
Theorem stripAnsi_idempotent (s : jsstring) :
  stripAnsi (stripAnsi s) = stripAnsi s
  /\ Forall (fun c => c <> c_esc /\ c <> c_cr /\ ((c < 32)%N -> c = 9%N \/ c = c_nl))
       (stripAnsi s).
Proof.
  split.
  - apply stripAnsi_fixed. apply stripAnsi_passes.
  - eapply Forall_impl; [| apply stripAnsi_passes].
    intros c Hc. split; [exact (passes_not_esc c Hc) |].
    split; [exact (proj1 Hc) | exact (passes_low c Hc)].
Qed.

Example stripAnsi_sample :
  stripAnsi ([27; 91; 51; 67; 27; 91; 49; 109]%N ++ lit "ab" ++ [13; 7; 9; 27]%N
             ++ lit "[Cx" ++ [27; 93; 49; 50; 27; 92]%N ++ lit "y")
  = lit "   ab" ++ [c_nl; 9%N] ++ lit " x12y".
Proof. vm_compute; reflexivity. Qed.

(** ** Matches of the patterns *)

Lemma in_mtch_eps (a b : mstate) : In b (mtch Eps a) <-> b = a.
Proof. cbn. split; [intros [H | []]; auto | auto]. Qed.

Lemma in_mtch_cls (p : cls) (a b : mstate) :
  In b (mtch (Cls p) a) <-> exists c, fst a = c :: fst b /\ p c = true /\ snd b = snd a.
Proof.
  cbn [mtch]. destruct a as [[| c tl] ca]; cbn [fst snd].
  - split; [intros [] | intros [c [H _]]; discriminate].
  - destruct (p c) eqn:E.
    + split.
      * intros [<- | []]. exists c. auto.
      * intros [c0 [H0 [_ H1]]]. injection H0 as -> ->. left.
        destruct b; cbn in *; subst; reflexivity.
    + split; [intros [] | intros [c0 [H0 [H1 _]]]].
      injection H0 as -> _. congruence.
Qed.

Lemma in_mtch_cat (r1 r2 : regex) (a c : mstate) :
  In c (mtch (Cat r1 r2) a) <-> exists b, In b (mtch r1 a) /\ In c (mtch r2 b).
Proof. cbn [mtch]. apply in_flat_map. Qed.

(** Splits a match of a concatenation [H] at the state [s] in between. *)
Ltac cat_inv H s H1 :=
  apply in_mtch_cat in H; destruct H as [s [H1 H]].

Lemma in_mtch_alt (r1 r2 : regex) (a b : mstate) :
  In b (mtch (Alt r1 r2) a) <-> In b (mtch r1 a) \/ In b (mtch r2 a).
Proof. cbn [mtch]. apply in_app_iff. Qed.

Lemma in_mtch_grp (n : nat) (r : regex) (a b : mstate) :
  In b (mtch (Grp n r) a)
  <-> exists b0, In b0 (mtch r a)
                 /\ b = (fst b0, (n, consumed (fst a) (fst b0)) :: snd b0).
Proof.
  cbn [mtch]. rewrite in_map_iff. split; intros [b0 [H1 H2]]; exists b0; auto.
Qed.

Lemma in_mtch_opt (r : regex) (a b : mstate) :
  In b (mtch (Opt r) a) <-> In b (mtch r a) \/ b = a.
Proof. unfold Opt. rewrite in_mtch_alt, in_mtch_eps. reflexivity. Qed.

Lemma consumed_app (pre rest : jsstring) : consumed (pre ++ rest) rest = pre.
Proof.
  unfold consumed. rewrite length_app.
  replace (length pre + length rest - length rest)%nat with (length pre + 0)%nat by lia.
  rewrite firstn_app_2. cbn. apply app_nil_r.
Qed.

Lemma reads_refl (P : jsstring -> Prop) (a : mstate) : P [] -> reads P a a.
Proof. intros H. exists []. auto. Qed.

Lemma reads_cls (p : cls) (a b : mstate) :
  In b (mtch (Cls p) a) -> reads (fun pre => exists c, pre = [c] /\ p c = true) a b.
Proof.
  intros H. apply in_mtch_cls in H. destruct H as [c [H1 [H2 H3]]].
  exists [c]. split; [exact H1 |]. split; [eauto | exact H3].
Qed.

Lemma reads_seq (P Q : jsstring -> Prop) (a b c : mstate) :
  reads P a b -> reads Q b c ->
  reads (fun pre => exists p q, pre = p ++ q /\ P p /\ Q q) a c.
Proof.
  intros [p [H1 [H2 H3]]] [q [H4 [H5 H6]]].
  exists (p ++ q). split; [rewrite H1, H4; apply app_assoc |].
  split; [eauto | congruence].
Qed.

Lemma reads_weaken (P Q : jsstring -> Prop) (a b : mstate) :
  (forall pre, P pre -> Q pre) -> reads P a b -> reads Q a b.
Proof. intros HPQ [pre [H1 [H2 H3]]]. exists pre. auto. Qed.

Lemma reads_star_cls (p : cls) (fuel : nat) (a b : mstate) :
  In b (star_iter (mtch (Cls p)) fuel a) -> reads (all_in p) a b.
Proof.
  revert a. induction fuel as [| fuel IH]; intros a H.
  - destruct H as [<- | []]. apply reads_refl. constructor.
  - cbn [star_iter] in H. apply in_app_iff in H. destruct H as [H | [<- | []]].
    + apply in_flat_map in H. destruct H as [m [Hm Hb]].
      destruct (length (fst m) <? length (fst a))%nat; [| destruct Hb].
      apply reads_cls in Hm. apply IH in Hb.
      destruct Hm as [p1 [E1 [[c [-> Hc]] E2]]].
      destruct Hb as [p2 [E3 [Hp2 E4]]].
      exists (c :: p2). split; [rewrite E1, E3; reflexivity |].
      split; [constructor; assumption | congruence].
    + apply reads_refl. constructor.
Qed.

Lemma reads_star (p : cls) (a b : mstate) :
  In b (mtch (Star (Cls p)) a) -> reads (all_in p) a b.
Proof. cbn [mtch]. apply reads_star_cls. Qed.

Lemma reads_times (p : cls) (n : nat) (a b : mstate) :
  In b (mtch (times n (Cls p)) a) ->
  reads (fun pre => all_in p pre /\ length pre = n) a b.
Proof.
  revert a. induction n as [| n IH]; intros a H; cbn [times] in H.
  - apply in_mtch_eps in H. subst. apply reads_refl. split; [constructor | reflexivity].
  - apply in_mtch_cat in H. destruct H as [m [Hm Hb]].
    apply reads_cls in Hm. apply IH in Hb.
    destruct Hm as [p1 [E1 [[c [-> Hc]] E2]]].
    destruct Hb as [p2 [E3 [[Hp2 Hl] E4]]].
    exists (c :: p2). split; [rewrite E1, E3; reflexivity |].
    split; [| congruence]. split; [constructor; assumption | cbn; lia].
Qed.

Lemma reads_upto (p : cls) (n : nat) (a b : mstate) :
  In b (mtch (upto n (Cls p)) a) ->
  reads (fun pre => all_in p pre /\ (length pre <= n)%nat) a b.
Proof.
  revert a. induction n as [| n IH]; intros a H; cbn [upto] in H.
  - apply in_mtch_eps in H. subst. apply reads_refl. split; [constructor | cbn; lia].
  - apply in_mtch_opt in H. destruct H as [H | ->].
    + apply in_mtch_cat in H. destruct H as [m [Hm Hb]].
      apply reads_cls in Hm. apply IH in Hb.
      destruct Hm as [p1 [E1 [[c [-> Hc]] E2]]].
      destruct Hb as [p2 [E3 [[Hp2 Hl] E4]]].
      exists (c :: p2). split; [rewrite E1, E3; reflexivity |].
      split; [| congruence]. split; [constructor; assumption | cbn; lia].
    + apply reads_refl. split; [constructor | cbn; lia].
Qed.

Lemma reads_rep (p : cls) (lo hi : nat) (a b : mstate) :
  In b (mtch (Rep lo hi (Cls p)) a) ->
  reads (fun pre => all_in p pre /\ (lo <= length pre <= lo + (hi - lo))%nat) a b.
Proof.
  unfold Rep. intros H. apply in_mtch_cat in H. destruct H as [m [Hm Hb]].
  apply reads_times in Hm. apply reads_upto in Hb.
  eapply reads_weaken; [| exact (reads_seq _ _ _ _ _ Hm Hb)].
  intros pre [p1 [p2 [-> [[H1 H2] [H3 H4]]]]].
  split; [apply Forall_app; auto | rewrite length_app; lia].
Qed.

Lemma reads_word (f : N -> cls) (l : jsstring) (a b : mstate) :
  In b (mtch (seq_of (List.map (fun c => Cls (f c)) l)) a) ->
  reads (fun pre => Forall2 (fun c x => f x c = true) pre l) a b.
Proof.
  revert a. induction l as [| x [| y tl] IH]; intros a H.
  - apply in_mtch_eps in H. subst. apply reads_refl. constructor.
  - cbn [List.map seq_of] in H. apply reads_cls in H.
    eapply reads_weaken; [| exact H].
    intros pre [c [-> Hc]]. repeat constructor. exact Hc.
  - change (seq_of (List.map (fun c => Cls (f c)) (x :: y :: tl)))
      with (Cat (Cls (f x)) (seq_of (List.map (fun c => Cls (f c)) (y :: tl)))) in H.
    apply in_mtch_cat in H. destruct H as [m [Hm Hb]].
    apply reads_cls in Hm. apply IH in Hb.
    eapply reads_weaken; [| exact (reads_seq _ _ _ _ _ Hm Hb)].
    intros pre [p1 [p2 [-> [[c [-> Hc]] H2]]]]. constructor; assumption.
Qed.

Lemma same_letters (pre l : jsstring) :
  Forall2 (fun c x => chr_i x c = true) pre l -> toLowerCase pre = toLowerCase l.
Proof.
  induction 1 as [| c x pre l Hc _ IH]; [reflexivity |].
  unfold toLowerCase in *. cbn [List.map]. rewrite IH.
  unfold chr_i in Hc. apply N.eqb_eq in Hc. rewrite Hc. reflexivity.
Qed.

Lemma same_units (pre l : jsstring) :
  Forall2 (fun c x => chr x c = true) pre l -> pre = l.
Proof.
  induction 1 as [| c x pre l Hc _ IH]; [reflexivity |].
  unfold chr in Hc. apply N.eqb_eq in Hc. subst. reflexivity.
Qed.

Lemma reads_word_i (w : string) (a b : mstate) :
  In b (mtch (word_i w) a) ->
  reads (fun pre => toLowerCase pre = toLowerCase (lit w)) a b.
Proof.
  intros H. apply reads_word in H. eapply reads_weaken; [| exact H].
  intros pre. apply same_letters.
Qed.

Lemma reads_word_x (w : string) (a b : mstate) :
  In b (mtch (word_x w) a) -> reads (fun pre => pre = lit w) a b.
Proof.
  intros H. apply reads_word in H. eapply reads_weaken; [| exact H].
  intros pre. apply same_units.
Qed.

(** A group records what its body reads. *)
Lemma group_reads (P : jsstring -> Prop) (n : nat) (r : regex) (a b : mstate) :
  (forall b0, In b0 (mtch r a) -> reads P a b0) ->
  In b (mtch (Grp n r) a) ->
  exists pre, P pre /\ fst a = pre ++ fst b /\ snd b = (n, pre) :: snd a.
Proof.
  intros Hr H. apply in_mtch_grp in H. destruct H as [b0 [Hb0 ->]].
  destruct (Hr b0 Hb0) as [pre [E1 [HP E2]]].
  exists pre. cbn [fst snd]. rewrite E1 at 2. rewrite consumed_app.
  split; [exact HP |]. split; [exact E1 | congruence].
Qed.

Lemma PERCENT_RE_shape (a b : mstate) :
  In b (mtch PERCENT_RE a) ->
  exists ds w,
    snd b = (2%nat, w) :: (1%nat, ds) :: snd a
    /\ all_in digit ds /\ (1 <= length ds <= 3)%nat /\ is_percent_word w.
Proof.
  unfold PERCENT_RE. cbn [seq_of]. intros H.
  cat_inv H s1 H1.
  cat_inv H s2 H2.
  cat_inv H s3 H3.
  apply in_mtch_cat in H. destruct H as [s4 [H4 H5]].
  apply (group_reads _ _ _ _ _ (reads_rep digit 1 3 a)) in H1.
  destruct H1 as [ds [[Hd Hl] [_ E1]]].
  apply reads_star in H2. destruct H2 as [_ [_ [_ E2]]].
  apply reads_word_x in H3. destruct H3 as [_ [_ [_ E3]]].
  apply reads_star in H4. destruct H4 as [_ [_ [_ E4]]].
  apply (group_reads is_percent_word) in H5.
  - destruct H5 as [w [Hw [_ E5]]]. exists ds, w.
    split; [congruence |]. split; [exact Hd |]. split; [cbn in Hl; lia | exact Hw].
  - intros b0 Hb0. apply in_mtch_alt in Hb0. destruct Hb0 as [Hb0 | Hb0];
      apply reads_word_i in Hb0; (eapply reads_weaken; [| exact Hb0]);
      intros pre Hpre; [left | right]; exact Hpre.
Qed.

Lemma exec_at_in (r : regex) (s rest : jsstring) (m : rmatch_result) :
  exec_at r s = Some (rest, m) ->
  In (rest, groups m) (mtch r (s, [])) /\ m0 m = consumed s rest.
Proof.
  unfold exec_at. destruct (mtch r (s, [])) as [| [rest0 c0] l]; [discriminate |].
  intros H. injection H as <- <-. split; [left; reflexivity | reflexivity].
Qed.

(** A match found by [rmatch] is a match of the pattern at some position. *)
Lemma rmatch_in (r : regex) (s : jsstring) (m : rmatch_result) :
  rmatch r s = Some m ->
  exists k rest, In (rest, groups m) (mtch r (skipn k s, [])).
Proof.
  induction s as [| c tl IH]; cbn [rmatch].
  - destruct (exec_at r []) as [[rest m'] |] eqn:E; [| discriminate].
    intros H. injection H as <-. exists 0%nat, rest. apply (exec_at_in _ _ _ _ E).
  - destruct (exec_at r (c :: tl)) as [[rest m'] |] eqn:E.
    + intros H. injection H as <-. exists 0%nat, rest. apply (exec_at_in _ _ _ _ E).
    + intros H. destruct (IH H) as [k [rest Hk]]. exists (S k), rest. exact Hk.
Qed.

Lemma digits_value_bound (ds : jsstring) (acc : Z) :
  all_in digit ds -> 0 <= acc ->
  acc * 10 ^ Z.of_nat (length ds) <= parse_digits acc ds
  < (acc + 1) * 10 ^ Z.of_nat (length ds).
Proof.
  intros H. revert acc. induction H as [| c tl Hc _ IH]; intros acc Hacc.
  - cbn. lia.
  - cbn [parse_digits length]. 
    assert (Hd : is_digit c = true) by exact Hc.
    rewrite Hd. unfold digit, range in Hc. apply andb_true_iff in Hc.
    destruct Hc as [Hlo Hhi]. apply N.leb_le in Hlo, Hhi.
    specialize (IH (10 * acc + Z.of_N (c - 48)) ltac:(lia)).
    rewrite Nat2Z.inj_succ, Z.pow_succ_r by lia.
    assert (0 < 10 ^ Z.of_nat (length tl)) by (apply Z.pow_pos_nonneg; lia).
    nia.
Qed.

Lemma percent_value_range (m : rmatch_result) (line : jsstring) :
  rmatch PERCENT_RE line = Some m ->
  0 <= parseInt (group_text 1 m) <= 999
  /\ is_percent_word (group_text 2 m).
Proof.
  intros H. apply rmatch_in in H. destruct H as [k [rest H]].
  apply PERCENT_RE_shape in H. destruct H as [ds [w [E [Hd [Hl Hw]]]]].
  cbn [snd] in E. unfold group_text, group. rewrite E. cbn [capture Nat.eqb].
  split; [| exact Hw].
  pose proof (digits_value_bound ds 0 Hd ltac:(lia)) as B. unfold parseInt.
  assert (10 ^ Z.of_nat (length ds) <= 10 ^ 3) by (apply Z.pow_le_mono_r; lia).
  lia.
Qed.

(** ** The percentage of a record *)

Lemma find_percent_in (l : list jsstring) (j j' : nat) (m : rmatch_result) :
  find_percent l j = Some (j', m) ->
  exists line, In line l /\ rmatch PERCENT_RE line = Some m.
Proof.
  revert j. induction l as [| line tl IH]; intros j H; [discriminate |].
  cbn [find_percent] in H.
  destruct (rmatch PERCENT_RE line) as [m' |] eqn:E.
  - injection H as _ <-. exists line. split; [left; reflexivity | exact E].
  - destruct (IH _ H) as [line' [Hin Hm]]. exists line'. split; [right; exact Hin | exact Hm].
Qed.

Lemma In_slice (i j : nat) (lines : list jsstring) (line : jsstring) :
  In line (slice i j lines) -> In line lines.
Proof.
  unfold slice. intros H.
  rewrite <- (firstn_skipn i lines). apply in_or_app. right.
  rewrite <- (firstn_skipn (j - i) (skipn i lines)). apply in_or_app. left. exact H.
Qed.

(** Every record comes from a percentage line of the transcript. *)
Lemma parseQuotas_from_percent (host : Host) (lines : list jsstring) (fuel : nat) :
  forall i qs q,
    parseQuotas_from host fuel lines i = Ret qs -> In q qs ->
    exists line pMatch,
      In line lines /\ rmatch PERCENT_RE line = Some pMatch
      /\ percent_remaining q = percent_of pMatch.
Proof.
  induction fuel as [| fuel IH]; intros i qs q H Hq.
  - injection H as <-. destruct Hq.
  - cbn [parseQuotas_from] in H.
    destruct (nth_error lines i) as [line |]; [| injection H as <-; destruct Hq].
    destruct (labelMatch line) as [t |]; [| exact (IH _ _ _ H Hq)].
    destruct (find_percent _ i) as [[j pMatch] |] eqn:Ef; [| exact (IH _ _ _ H Hq)].
    destruct (parseResetTime host _) as [resetInfo | e]; [| discriminate].
    cbn [bind] in H.
    destruct (parseQuotas_from host fuel lines (S j)) as [rest | e] eqn:Er; [| discriminate].
    cbn [bind] in H. injection H as <-.
    destruct Hq as [<- | Hq]; [| exact (IH _ _ _ Er Hq)].
    apply find_percent_in in Ef. destruct Ef as [line' [Hin Hm]].
    exists line', pMatch. split; [exact (In_slice _ _ _ _ Hin) |].
    split; [exact Hm | reflexivity].
Qed.

Lemma percent_of_cases (line : jsstring) (pMatch : rmatch_result) :
  rmatch PERCENT_RE line = Some pMatch ->
  let value := parseInt (group_text 1 pMatch) in
  0 <= value <= 999
  /\ ((toLowerCase (group_text 2 pMatch) = lit "used" /\ percent_of pMatch = 100 - value)
      \/ (toLowerCase (group_text 2 pMatch) = lit "left" /\ percent_of pMatch = value)).
Proof.
  intros H. apply percent_value_range in H. destruct H as [Hv Hw].
  split; [exact Hv |]. unfold percent_of.
  destruct Hw as [Hw | Hw]; rewrite Hw; [left | right]; split; reflexivity.
Qed.

(** C6 as the code has it: the percentage of a record comes from a line the
    percentage pattern matches; with [value] the number of one to three digits
    it captures (0 to 999), the record holds [100 - value] when the word is
    "used" and [value] when it is "left"; it lies between 0 and 100 exactly
    when [value] does not exceed 100. *)
Theorem percent_remaining_derivation (host : Host) (lines : list jsstring)
    (qs : list Quota) (q : Quota) :
  parseQuotas host lines = Ret qs -> In q qs ->
  exists line pMatch,
    In line lines /\ rmatch PERCENT_RE line = Some pMatch
    /\ let value := parseInt (group_text 1 pMatch) in
       0 <= value <= 999
       /\ ((toLowerCase (group_text 2 pMatch) = lit "used"
            /\ percent_remaining q = 100 - value)
           \/ (toLowerCase (group_text 2 pMatch) = lit "left"
               /\ percent_remaining q = value))
       /\ -899 <= percent_remaining q <= 999
       /\ (0 <= percent_remaining q <= 100 <-> value <= 100).
Proof.
  intros H Hq. unfold parseQuotas in H.
  destruct (parseQuotas_from_percent _ _ _ _ _ _ H Hq) as [line [pMatch [Hin [Hm Hp]]]].
  exists line, pMatch. split; [exact Hin |]. split; [exact Hm |].
  destruct (percent_of_cases _ _ Hm) as [Hv Hc]. cbv zeta in *.
  rewrite Hp. destruct Hc as [[Hw Hc] | [Hw Hc]]; rewrite Hc.
  - split; [exact Hv |]. split; [left; auto |]. lia.
  - split; [exact Hv |]. split; [right; auto |]. lia.
Qed.

(** The derivation on "150% used". *)
Lemma percent_remaining_derivation_witness :
  exists line pMatch,
    In line over_hundred /\ rmatch PERCENT_RE line = Some pMatch
    /\ let value := parseInt (group_text 1 pMatch) in
       0 <= value <= 999
       /\ ((toLowerCase (group_text 2 pMatch) = lit "used"
            /\ percent_remaining over_hundred_record = 100 - value)
           \/ (toLowerCase (group_text 2 pMatch) = lit "left"
               /\ percent_remaining over_hundred_record = value))
       /\ -899 <= percent_remaining over_hundred_record <= 999
       /\ (0 <= percent_remaining over_hundred_record <= 100 <-> value <= 100).
Proof.
  apply (percent_remaining_derivation (Sample.host Sample.FAKE_NOW) over_hundred
           [over_hundred_record] over_hundred_record).
  - vm_compute; reflexivity.
  - left; reflexivity.
Defined.

(** The range 0 to 100 does not hold: "150% used" gives a record at -50. *)
Lemma percent_remaining_below_zero :
  parseQuotas (Sample.host Sample.FAKE_NOW) over_hundred = Ret [over_hundred_record]
  /\ percent_remaining over_hundred_record = -50
  /\ ~ (0 <= percent_remaining over_hundred_record <= 100).
Proof.
  split; [vm_compute; reflexivity |]. split; [reflexivity |].
  cbn. lia.
Qed.

Example percent_left_above_hundred :
  exists q,
    parseQuotas (Sample.host Sample.FAKE_NOW)
      (Sample.lines_of ["Current session"; "250% left"]%string) = Ret [q]
    /\ percent_remaining q = 250.
Proof. eexists. split; [vm_compute; reflexivity | reflexivity]. Qed.

(** "remaining" is not a word of the percentage pattern: no record. *)
Example percent_remaining_word :
  parseQuotas (Sample.host Sample.FAKE_NOW)
    (Sample.lines_of ["Current session"; "40% remaining"]%string) = Ret [].
Proof. vm_compute; reflexivity. Qed.

(** ** Clock times without a date *)

Lemma clock_re_shape (g : nat) (a b : mstate) :
  In b (mtch (clock_re g) a) ->
  exists hh mm ap,
    snd b = (g + 2, ap)%nat :: mm ++ (g, hh) :: snd a
    /\ all_in digit hh /\ (1 <= length hh <= 2)%nat
    /\ (mm = [] \/ exists d, mm = [((g + 1)%nat, d)] /\ all_in digit d /\ length d = 2%nat)
    /\ is_am_pm ap.
Proof.
  unfold clock_re. cbn [seq_of]. intros H.
  cat_inv H s1 H1.
  cat_inv H s2 H2.
  apply in_mtch_cat in H. destruct H as [s3 [H3 H4]].
  apply (group_reads _ _ _ _ _ (reads_rep digit 1 2 a)) in H1.
  destruct H1 as [hh [[Hd Hl] [_ E1]]].
  assert (Hmm : exists mm, snd s2 = mm ++ snd s1
            /\ (mm = [] \/ exists d, mm = [((g + 1)%nat, d)] /\ all_in digit d
                                     /\ length d = 2%nat)).
  { apply in_mtch_opt in H2. destruct H2 as [H2 | ->].
    - apply in_mtch_cat in H2. destruct H2 as [s1' [Hc Hg]].
      apply reads_word_x in Hc. destruct Hc as [_ [_ [_ Ec]]].
      apply (group_reads _ _ _ _ _ (reads_rep digit 2 2 s1')) in Hg.
      destruct Hg as [d [[Hdd Hdl] [_ Eg]]].
      exists [((g + 1)%nat, d)]. split; [rewrite Eg, Ec; reflexivity |].
      right. exists d. split; [reflexivity |]. split; [exact Hdd | cbn in Hdl; lia].
    - exists []. split; [reflexivity | left; reflexivity]. }
  destruct Hmm as [mm [E2 Hmm]].
  apply reads_star in H3. destruct H3 as [_ [_ [_ E3]]].
  apply (group_reads is_am_pm) in H4.
  - destruct H4 as [ap [Hap [_ E4]]]. exists hh, mm, ap.
    split; [rewrite E4, E3, E2, E1; reflexivity |].
    split; [exact Hd |]. split; [cbn in Hl; lia |]. split; assumption.
  - intros b0 Hb0. unfold am_pm in Hb0. apply in_mtch_alt in Hb0.
    destruct Hb0 as [Hb0 | Hb0]; apply reads_word_i in Hb0;
      (eapply reads_weaken; [| exact Hb0]); intros pre Hpre; [left | right]; exact Hpre.
Qed.

Lemma digits_nonneg (ds : jsstring) (acc : Z) : 0 <= acc -> 0 <= parse_digits acc ds.
Proof.
  revert acc. induction ds as [| c tl IH]; intros acc Hacc; cbn [parse_digits]; [exact Hacc |].
  destruct (is_digit c); [| exact Hacc]. apply IH. lia.
Qed.

Lemma two_digits_bound (ds : jsstring) :
  all_in digit ds -> (length ds <= 2)%nat -> 0 <= parseInt ds <= 99.
Proof.
  intros Hd Hl. pose proof (digits_value_bound ds 0 Hd ltac:(lia)) as B.
  unfold parseInt.
  assert (10 ^ Z.of_nat (length ds) <= 10 ^ 2) by (apply Z.pow_le_mono_r; lia).
  lia.
Qed.

Lemma toHour24_bound (hour : Z) (ampm : jsstring) :
  0 <= hour <= 99 -> 0 <= toHour24 hour ampm <= 99.
Proof.
  intros H. unfold toHour24.
  destruct (str_eqb (toLowerCase ampm) (lit "pm")), (str_eqb (toLowerCase ampm) (lit "am"));
    cbn [andb];
    repeat match goal with
           | |- context [if ?b then _ else _] => destruct b eqn:?
           end;
    try lia;
    repeat match goal with
           | H : (_ <? _) = true |- _ => apply Z.ltb_lt in H
           | H : (_ =? _) = true |- _ => apply Z.eqb_eq in H
           end; lia.
Qed.

(** The hour and the minute a clock-time match yields. *)
Lemma TIME_ONLY_RE_range (line : jsstring) (tm : rmatch_result) :
  rmatch TIME_ONLY_RE line = Some tm ->
  0 <= toHour24 (parseInt (group_text 1 tm)) (group_text 3 tm) <= 99
  /\ 0 <= opt_int (group 2 tm) 0 <= 99.
Proof.
  intros H. apply rmatch_in in H. destruct H as [k [rest H]].
  unfold TIME_ONLY_RE in H. apply clock_re_shape in H.
  destruct H as [hh [mm [ap [E [Hd [Hl [Hmm Hap]]]]]]]. cbn [snd] in E.
  unfold group_text, group. rewrite E.
  destruct Hmm as [-> | [d [-> [Hdd Hdl]]]]; cbn [capture Nat.eqb Nat.add app opt_int].
  - split; [| lia]. apply toHour24_bound. apply two_digits_bound; [exact Hd | lia].
  - split; [apply toHour24_bound |]; apply two_digits_bound; try assumption; lia.
Qed.

Lemma local_parts_clock (host : Host) (now : Z) :
  0 <= hour (local_parts host now) <= 23 /\ 0 <= minute (local_parts host now) <= 59.
Proof.
  unfold local_parts, Date.HourFromTime, Date.MinFromTime. cbn [hour minute].
  pose proof (Z.mod_pos_bound ((now + local_tza host now true) / Date.msPerHour) 24
                ltac:(lia)).
  pose proof (Z.mod_pos_bound ((now + local_tza host now true) / Date.msPerMinute) 60
                ltac:(lia)).
  lia.
Qed.

Lemma TimeClip_valid (t : Z) : Z.abs t <= Date.maxTime -> Date.TimeClip t = Some t.
Proof.
  intros H. unfold Date.TimeClip. apply Z.leb_le in H. rewrite H. reflexivity.
Qed.

(** [computeDiffSeconds] for a target [k] days after today at [h]:[m], on a
    host whose system zone keeps one offset [z]. *)
Lemma computeDiffSeconds_today (host : Host) (tz : option jsstring) (now : Z)
    (c : civil) (z n k h m : Z) :
  (forall t, local_tza host t false = z) ->
  civil_now host tz now = Ret c ->
  local_time_value host (year c) (month c) (day c) (hour c) (minute c) = Some n ->
  Z.abs n <= Date.maxTime - six_days ->
  Z.abs now <= Date.maxTime - six_days ->
  0 <= hour c <= 23 -> 0 <= minute c <= 59 ->
  0 <= k <= 1 -> 0 <= h <= 99 -> 0 <= m <= 99 ->
  let diff := k * 86400 + ((h * 60 + m) - (hour c * 60 + minute c)) * 60 in
  computeDiffSeconds host (year c) (Some (month c)) (day c + k) h m tz now
  = Ret {| abs_resets_at := Date.iso_string (now + diff * 1000);
           abs_seconds := Z.max 0 diff |}.
Proof.
  intros Hz Hc Hn Bn Bnow Hh Hm Hk Hhh Hmm diff.
  unfold computeDiffSeconds. fold (civil_now host tz now). rewrite Hc. cbn [bind].
  rewrite Hn.
  unfold local_time_value, Date.of_fields in *. cbv zeta in *. rewrite !Hz in *.
  set (yr := if (0 <=? year c) && (year c <=? 99) then 1900 + year c else year c) in *.
  unfold Date.TimeClip in Hn.
  destruct (Z.abs _ <=? Date.maxTime) eqn:En in Hn; [| discriminate].
  injection Hn as Hn.
  assert (Et : Date.MakeDate (Date.MakeDay yr (month c) (day c + k)) (Date.MakeTime h m 0 0)
               - z = n + diff * 1000).
  { subst n diff. unfold Date.MakeDate, Date.MakeDay, Date.MakeTime,
      Date.msPerDay, Date.msPerHour, Date.msPerMinute. ring. }
  rewrite Et.
  assert (Bd : -86400 < diff < 448800) by (subst diff; lia).
  apply Z.leb_le in En. unfold six_days, Date.msPerDay, Date.maxTime in *.
  rewrite TimeClip_valid by (unfold Date.maxTime; lia).
  replace (n + diff * 1000 - n) with (diff * 1000) by ring.
  rewrite TimeClip_valid by (unfold Date.maxTime; lia).
  cbn [Date.toISOString bind].
  rewrite Z.div_mul by lia. reflexivity.
Qed.

Lemma parseAbsoluteTime_clock (host : Host) (line : jsstring) (now : Z)
    (tm : rmatch_result) :
  rmatch DATE_TIME_RE line = None ->
  rmatch TIME_ONLY_RE line = Some tm ->
  parseAbsoluteTime host line now
  = (let h := toHour24 (parseInt (group_text 1 tm)) (group_text 3 tm) in
     let m := opt_int (group 2 tm) 0 in
     c <- civil_now host (zone_of line) now ;;
     result <- computeDiffSeconds host (year c) (Some (month c)) (day c) h m
                 (zone_of line) now ;;
     if abs_seconds result <=? 0
     then result' <- computeDiffSeconds host (year c) (Some (month c)) (day c + 1) h m
                       (zone_of line) now ;;
          Ret (Some result')
     else Ret (Some result)).
Proof.
  intros Hd Ht. unfold parseAbsoluteTime. rewrite Hd, Ht. reflexivity.
Qed.

(** Where the system zone keeps one offset [z] and the calendar reading [c]
    of [now] (in the zone named on the line if any) has its hour below 24,
    a line with a clock time and no date resolves to today's occurrence of
    the time when that is later than [now] (to the minute) and to
    tomorrow's otherwise; the remaining seconds are positive and the reset
    instant is after [now]. *)
Lemma clock_time_next_occurrence (host : Host) (line : jsstring) (now : Z)
    (tm : rmatch_result) (c : civil) (z n : Z) :
  (forall t, local_tza host t false = z) ->
  rmatch DATE_TIME_RE line = None ->
  rmatch TIME_ONLY_RE line = Some tm ->
  civil_now host (zone_of line) now = Ret c ->
  0 <= hour c <= 23 -> 0 <= minute c <= 59 ->
  local_time_value host (year c) (month c) (day c) (hour c) (minute c) = Some n ->
  Z.abs n <= Date.maxTime - six_days ->
  Z.abs now <= Date.maxTime - six_days ->
  let h := toHour24 (parseInt (group_text 1 tm)) (group_text 3 tm) in
  let m := opt_int (group 2 tm) 0 in
  let today := ((h * 60 + m) - (hour c * 60 + minute c)) * 60 in
  exists r,
    parseAbsoluteTime host line now = Ret (Some r)
    /\ abs_seconds r = (if 0 <? today then today else today + 86400)
    /\ 0 < abs_seconds r
    /\ abs_resets_at r = Date.iso_string (now + abs_seconds r * 1000).
Proof.
  intros Hz Hd Ht Hc Hh Hm Hn Bn Bnow h m today.
  destruct (TIME_ONLY_RE_range _ _ Ht) as [Bh Bm]. fold h in Bh. fold m in Bm.
  rewrite (parseAbsoluteTime_clock _ _ _ _ Hd Ht). cbv zeta. fold h m.
  rewrite Hc. cbn [bind].
  pose proof (computeDiffSeconds_today host (zone_of line) now c z n 0 h m
                Hz Hc Hn Bn Bnow Hh Hm ltac:(lia) Bh Bm) as E0.
  pose proof (computeDiffSeconds_today host (zone_of line) now c z n 1 h m
                Hz Hc Hn Bn Bnow Hh Hm ltac:(lia) Bh Bm) as E1.
  cbv zeta in E0, E1. rewrite Z.add_0_r in E0. rewrite E0. cbn [bind abs_seconds].
  replace (0 * 86400 + (h * 60 + m - (hour c * 60 + minute c)) * 60) with today
    by (subst today; ring).
  replace (1 * 86400 + (h * 60 + m - (hour c * 60 + minute c)) * 60)
    with (today + 86400) in E1 by (subst today; ring).
  assert (Bt : -86400 < today) by (subst today; lia).
  destruct (Z.ltb_spec 0 today) as [Hpos | Hneg].
  - replace (Z.max 0 today <=? 0) with false by (symmetry; apply Z.leb_gt; lia).
    eexists. split; [reflexivity |]. cbn [abs_seconds abs_resets_at].
    rewrite Z.max_r by lia. repeat split; lia.
  - replace (Z.max 0 today <=? 0) with true by (symmetry; apply Z.leb_le; lia).
    rewrite E1. cbn [bind].
    eexists. split; [reflexivity |]. cbn [abs_seconds abs_resets_at].
    rewrite Z.max_r by lia. repeat split; lia.
Qed.

(** At 16:40 in Toronto "8pm" is 3h20m away ... *)
Example eight_pm_same_day :
  parseAbsoluteTime (Sample.host Sample.FAKE_NOW) eight_pm Sample.FAKE_NOW
  = Ret (Some {| abs_resets_at := lit "2026-02-23T01:00:00.000Z"; abs_seconds := 12000 |}).
Proof. vm_compute; reflexivity. Qed.

(** ... and at 21:00 in Toronto it is tomorrow's, 23 hours away. *)
Example eight_pm_next_day :
  parseAbsoluteTime (Sample.host nine_pm_toronto) eight_pm nine_pm_toronto
  = Ret (Some {| abs_resets_at := lit "2026-02-24T01:00:00.000Z"; abs_seconds := 82800 |}).
Proof. vm_compute; reflexivity. Qed.

(** The next occurrence of "8pm" at 21:00 in Toronto. *)
Example eight_pm_next_occurrence :
  let h := toHour24 (parseInt (group_text 1 eight_pm_match)) (group_text 3 eight_pm_match) in
  let m := opt_int (group 2 eight_pm_match) 0 in
  let today := ((h * 60 + m) - (hour toronto_nine_pm * 60 + minute toronto_nine_pm)) * 60 in
  exists r,
    parseAbsoluteTime (Sample.host nine_pm_toronto) eight_pm nine_pm_toronto = Ret (Some r)
    /\ abs_seconds r = (if 0 <? today then today else today + 86400)
    /\ 0 < abs_seconds r
    /\ abs_resets_at r = Date.iso_string (nine_pm_toronto + abs_seconds r * 1000).
Proof.
  apply (clock_time_next_occurrence (Sample.host nine_pm_toronto) eight_pm nine_pm_toronto
           eight_pm_match toronto_nine_pm 0 1771794000000).
  - intros t; reflexivity.
  - vm_compute; reflexivity.
  - vm_compute; reflexivity.
  - vm_compute; reflexivity.
  - cbn; lia.
  - cbn; lia.
  - vm_compute; reflexivity.
  - vm_compute; discriminate.
  - vm_compute; discriminate.
Qed.

(** The hour of a twelve-hour clock time: 12am is hour 0, 12pm hour 12 and
    the other hours of the afternoon are twelve more than written. *)
Lemma toHour24_twelve_hour (h : Z) :
  1 <= h <= 12 ->
  toHour24 h (lit "am") = h mod 12 /\ toHour24 h (lit "pm") = h mod 12 + 12.
Proof.
  intros H. unfold toHour24.
  change (str_eqb (toLowerCase (lit "am")) (lit "pm")) with false.
  change (str_eqb (toLowerCase (lit "am")) (lit "am")) with true.
  change (str_eqb (toLowerCase (lit "pm")) (lit "pm")) with true.
  change (str_eqb (toLowerCase (lit "pm")) (lit "am")) with false.
  cbn [andb].
  destruct (Z.eqb_spec h 12) as [-> | Hne]; [split; reflexivity |].
  rewrite (proj2 (Z.ltb_lt h 12)) by lia.
  rewrite Z.mod_small by lia. split; reflexivity.
Qed.

(** C4: two readings of a clock time that are not its next occurrence.
    With the system zone set to Europe/Berlin, "3am (UTC)" read at 02:59
    UTC on 2026-03-29 is put on the next day, 23h1m away, though today's
    3am is one minute ahead: the reading 02:59 of the zone of the line is
    turned into a local time of the system zone, where that hour is skipped
    that day, and so lands after 03:00. On a host whose formatter gives
    hour 24 after midnight, "12:05am (UTC)" read at 00:10 UTC resolves to
    zero seconds and to an instant five minutes in the past. The sample
    host, in UTC and with hours 0 to 23, gives one minute and 23h55m. *)
Theorem clock_time_misread :
  Date.iso_string gap_now = lit "2026-03-29T02:59:00.000Z"
  /\ parseResetTime (berlin_host gap_now) [three_am]
     = Ret {| reset_at := lit "2026-03-30T02:00:00.000Z"; reset_seconds := 82860;
              reset_human := lit "23h1m" |}
  /\ parseResetTime (Sample.host gap_now) [three_am]
     = Ret {| reset_at := lit "2026-03-29T03:00:00.000Z"; reset_seconds := 60;
              reset_human := lit "1m" |}
  /\ Date.iso_string after_midnight = lit "2026-02-23T00:10:00.000Z"
  /\ parseResetTime (h24_host after_midnight) [five_past_midnight]
     = Ret {| reset_at := lit "2026-02-23T00:05:00.000Z"; reset_seconds := 0;
              reset_human := lit "< 1m" |}
  /\ parseResetTime (Sample.host after_midnight) [five_past_midnight]
     = Ret {| reset_at := lit "2026-02-24T00:05:00.000Z"; reset_seconds := 86100;
              reset_human := lit "23h55m" |}.
Proof. repeat split; vm_compute; reflexivity. Qed.

(** With the system zone set to Europe/Berlin, "8pm (UTC)" read at 00:30 UTC
    on the day of the change is an hour short: the two readings are taken
    as local times of the system zone, which are 18h30m apart that day. *)
Example eight_pm_across_the_change :
  parseResetTime (berlin_host before_change) [eight_pm_utc]
  = Ret {| reset_at := lit "2026-03-29T19:00:00.000Z"; reset_seconds := 66600;
           reset_human := lit "18h30m" |}
  /\ parseResetTime (Sample.host before_change) [eight_pm_utc]
     = Ret {| reset_at := lit "2026-03-29T20:00:00.000Z"; reset_seconds := 70200;
              reset_human := lit "19h30m" |}.
Proof. split; vm_compute; reflexivity. Qed.

(** ** The extractor, section by section *)

Lemma scan_boundary_section (l : list jsstring) (k len : nat) :
  len = (k + length l)%nat ->
  scan_boundary l k len = (k + length (section_rest l))%nat.
Proof.
  revert k. induction l as [| line tl IH]; intros k H; cbn [scan_boundary section_rest].
  - cbn in *. lia.
  - destruct (is_boundary line); [cbn; lia |].
    rewrite IH by (cbn in H; lia). cbn. lia.
Qed.

Lemma section_rest_prefix (l : list jsstring) :
  firstn (length (section_rest l)) l = section_rest l.
Proof.
  induction l as [| line tl IH]; [reflexivity |].
  cbn [section_rest]. destruct (is_boundary line); [reflexivity |].
  cbn [length firstn]. rewrite IH. reflexivity.
Qed.

Lemma find_percent_shift (l : list jsstring) (j : nat) :
  find_percent l j
  = match find_percent l 0 with
    | Some (k, m) => Some ((j + k)%nat, m)
    | None => None
    end.
Proof.
  revert j. induction l as [| line tl IH]; intros j; [reflexivity |].
  cbn [find_percent]. destruct (rmatch PERCENT_RE line).
  - rewrite Nat.add_0_r. reflexivity.
  - rewrite (IH (S j)), (IH 1%nat). destruct (find_percent tl 0) as [[k m] |]; [| reflexivity].
    f_equal. f_equal. lia.
Qed.

Lemma skipn_cons_inv {A : Type} (i : nat) (l : list A) (x : A) (tl : list A) :
  skipn i l = x :: tl ->
  nth_error l i = Some x /\ skipn (S i) l = tl /\ length l = (i + S (length tl))%nat.
Proof.
  revert l. induction i as [| i IH]; intros l H.
  - cbn in H. subst l. repeat split.
  - destruct l as [| y l]; [discriminate |]. cbn [skipn] in H.
    destruct (IH _ H) as [H1 [H2 H3]]. cbn [nth_error length].
    split; [exact H1 |]. split; [exact H2 | lia].
Qed.

Lemma skipn_nil_inv {A : Type} (i : nat) (l : list A) :
  skipn i l = [] -> nth_error l i = None.
Proof.
  intros H. apply nth_error_None.
  pose proof (length_skipn i l) as E. rewrite H in E. cbn in E. lia.
Qed.

Lemma parseQuotas_from_suffix (host : Host) (lines : list jsstring) (fuel : nat) :
  forall i, parseQuotas_from host fuel lines i = quotas_from host fuel (skipn i lines).
Proof.
  induction fuel as [| fuel IH]; intros i; [reflexivity |].
  cbn [parseQuotas_from quotas_from].
  destruct (skipn i lines) as [| line tl] eqn:E.
  - rewrite (skipn_nil_inv _ _ E). reflexivity.
  - destruct (skipn_cons_inv _ _ _ _ E) as [Hn [Ht Hl]]. rewrite Hn.
    destruct (labelMatch line) as [t |]; [| rewrite IH, Ht; reflexivity].
    assert (Hend : findNextSectionBoundary lines i = (S i + length (section_rest tl))%nat).
    { unfold findNextSectionBoundary. rewrite Ht. apply scan_boundary_section. lia. }
    rewrite Hend.
    assert (Hsect : slice i (S i + length (section_rest tl)) lines = line :: section_rest tl).
    { unfold slice. rewrite E.
      replace (S i + length (section_rest tl) - i)%nat with (S (length (section_rest tl))) by lia.
      cbn [firstn]. rewrite section_rest_prefix. reflexivity. }
    assert (Hwin : slice i (Nat.min (i + 6) (S i + length (section_rest tl))) lines
                   = firstn 6 (line :: section_rest tl)).
    { rewrite <- Hsect. unfold slice. rewrite firstn_firstn. f_equal. lia. }
    rewrite Hwin, Hsect, find_percent_shift.
    destruct (find_percent (firstn 6 (line :: section_rest tl)) 0) as [[k pMatch] |].
    + destruct (parseResetTime host (line :: section_rest tl)) as [r | e]; [| reflexivity].
      cbn [bind]. rewrite IH.
      replace (skipn (S (i + k)) lines) with (skipn (S k) (line :: tl)); [reflexivity |].
      rewrite <- E, skipn_skipn. f_equal. lia.
    + rewrite IH, Ht. reflexivity.
Qed.

Lemma parseQuotas_suffix (host : Host) (lines : list jsstring) :
  parseQuotas host lines = quotas_from host (length lines) lines.
Proof. unfold parseQuotas. rewrite parseQuotas_from_suffix. reflexivity. Qed.

(** Fuel beyond the number of lines left changes nothing. *)
Lemma quotas_from_fuel (host : Host) (f1 : nat) :
  forall f2 s, (length s <= f1)%nat -> (length s <= f2)%nat ->
               quotas_from host f1 s = quotas_from host f2 s.
Proof.
  induction f1 as [| f1 IH]; intros f2 s H1 H2.
  - destruct s; [| cbn in H1; lia]. destruct f2; reflexivity.
  - destruct f2 as [| f2]; [destruct s; [reflexivity | cbn in H2; lia] |].
    destruct s as [| line tl]; [reflexivity |]. cbn [length] in H1, H2.
    cbn [quotas_from].
    assert (Htl : quotas_from host f1 tl = quotas_from host f2 tl) by (apply IH; lia).
    destruct (labelMatch line); [| exact Htl].
    destruct (find_percent _ 0) as [[k pMatch] |]; [| exact Htl].
    destruct (parseResetTime host _); [| reflexivity]. cbn [bind].
    rewrite (IH f2 (skipn (S k) (line :: tl))); [reflexivity | |];
      rewrite length_skipn; cbn [length]; lia.
Qed.

(** ** Reordering inside a section *)


Lemma test_true (r : regex) (s : jsstring) :
  test r s = true <-> exists m, rmatch r s = Some m.
Proof.
  unfold test. destruct (rmatch r s) as [m |]; split; try congruence; eauto.
  intros [m H]; discriminate.
Qed.









Lemma find_percent_bound (w : list jsstring) (k : nat) (m : rmatch_result) :
  find_percent w 0 = Some (k, m) -> (k < length w)%nat.
Proof.
  revert k. induction w as [| line tl IH]; intros k H; [discriminate |].
  cbn [find_percent] in H. destruct (rmatch PERCENT_RE line).
  - injection H as <- _. cbn. lia.
  - rewrite find_percent_shift in H.
    destruct (find_percent tl 0) as [[k' m'] |] eqn:E; [| discriminate].
    injection H as <- <-. specialize (IH _ eq_refl). cbn. lia.
Qed.



(** Lines on which the body of a loop continues can be taken out. *)
Lemma first_return_drop {A B : Type} (f : A -> outcome (option B)) (b u v : list A) :
  Forall (fun z => f z = Ret None) b ->
  first_return f (u ++ b ++ v) = first_return f (u ++ v).
Proof.
  intros Hb. induction u as [| z u IH]; cbn [app first_return].
  - induction Hb as [| z b Hz _ IHb]; [reflexivity |].
    cbn [app first_return]. rewrite Hz. cbn [bind]. exact IHb.
  - rewrite IH. reflexivity.
Qed.



Lemma quotas_from_plain (host : Host) (line : jsstring) (tl : list jsstring) (fuel : nat) :
  labelMatch line = None ->
  quotas_from host (S fuel) (line :: tl) = quotas_from host fuel tl.
Proof. intros H. cbn [quotas_from]. rewrite H. reflexivity. Qed.



Lemma quotas_from_label (host : Host) (line : jsstring) (tl : list jsstring)
    (fuel : nat) (t : QuotaType) :
  labelMatch line = Some t ->
  quotas_from host (S fuel) (line :: tl)
  = match find_percent (firstn 6 (line :: section_rest tl)) 0 with
    | None => quotas_from host fuel tl
    | Some (k, pMatch) =>
        resetInfo <- parseResetTime host (line :: section_rest tl) ;;
        rest <- quotas_from host fuel (skipn k tl) ;;
        Ret (quota_of t pMatch resetInfo :: rest)
    end.
Proof. intros H. cbn [quotas_from]. rewrite H. reflexivity. Qed.





(** Both orders of the three-line section give the record of the scenario. *)
Example reorder_three_lines :
  exists q,
    parseQuotas (Sample.host Sample.FAKE_NOW) [session_label; percent_line; reset_line]
    = Ret [q]
    /\ parseQuotas (Sample.host Sample.FAKE_NOW) [session_label; reset_line; percent_line]
       = Ret [q]
    /\ (percent_remaining q, time_remaining_seconds q, time_remaining_human q)
       = (86, 12000, lit "3h20m").
Proof.
  eexists. split; [vm_compute; reflexivity |].
  split; [vm_compute; reflexivity | reflexivity].
Qed.


(** ** Relative durations *)

Lemma groupless_captures (r : regex) :
  groupless r = true -> forall a b, In b (mtch r a) -> snd b = snd a.
Proof.
  induction r as [| p | r1 IH1 r2 IH2 | r1 IH1 r2 IH2 | r1 IH1 | n r1 IH1];
    cbn [groupless]; intros Hg a b H.
  - apply in_mtch_eps in H. subst. reflexivity.
  - apply in_mtch_cls in H. destruct H as [c [_ [_ H]]]. exact H.
  - apply andb_true_iff in Hg. destruct Hg as [G1 G2].
    apply in_mtch_cat in H. destruct H as [m [Hm Hb]].
    rewrite (IH2 G2 _ _ Hb). exact (IH1 G1 _ _ Hm).
  - apply andb_true_iff in Hg. destruct Hg as [G1 G2].
    apply in_mtch_alt in H. destruct H as [H | H]; auto.
  - cbn [mtch] in H. remember (length (fst a)) as fuel eqn:Ef. clear Ef.
    revert a b H. induction fuel as [| fuel IHf]; intros a b H.
    + destruct H as [<- | []]. reflexivity.
    + cbn [star_iter] in H. apply in_app_iff in H. destruct H as [H | [<- | []]];
        [| reflexivity].
      apply in_flat_map in H. destruct H as [m [Hm Hb]].
      destruct (length (fst m) <? length (fst a))%nat; [| destruct Hb].
      rewrite (IHf _ _ Hb). exact (IH1 Hg _ _ Hm).
  - discriminate.
Qed.

(** A greedy star over a class can stop after any run of units of the class. *)
Lemma star_cls_reaches (p : cls) (xs rest : jsstring) (caps : captures) :
  all_in p xs -> In (rest, caps) (mtch (Star (Cls p)) (xs ++ rest, caps)).
Proof.
  intros H. cbn [mtch fst]. induction H as [| x xs Hx _ IH].
  - cbn [app]. destruct (length rest); cbn [star_iter]; [left; reflexivity |].
    apply in_or_app. right. left. reflexivity.
  - cbn [app length star_iter]. apply in_or_app. left.
    apply in_flat_map. exists (xs ++ rest, caps). split.
    + cbn [mtch fst snd]. rewrite Hx. left. reflexivity.
    + cbn [fst length]. rewrite (proj2 (Nat.ltb_lt _ _) (Nat.lt_succ_diag_r _)).
      exact IH.
Qed.

Lemma plus_cls_reaches (p : cls) (x : cu) (xs rest : jsstring) (caps : captures) :
  p x = true -> all_in p xs ->
  In (rest, caps) (mtch (Plus (Cls p)) (x :: xs ++ rest, caps)).
Proof.
  intros Hx Hxs. unfold Plus. apply in_mtch_cat. exists (xs ++ rest, caps). split.
  - cbn [mtch fst snd]. rewrite Hx. left. reflexivity.
  - apply star_cls_reaches. exact Hxs.
Qed.

Lemma reads_plus (p : cls) (a b : mstate) :
  In b (mtch (Plus (Cls p)) a) -> reads (fun pre => all_in p pre /\ pre <> []) a b.
Proof.
  unfold Plus. intros H. apply in_mtch_cat in H. destruct H as [m [Hm Hb]].
  apply reads_cls in Hm. apply reads_star in Hb.
  eapply reads_weaken; [| exact (reads_seq _ _ _ _ _ Hm Hb)].
  intros pre [p1 [p2 [-> [[c [-> Hc]] H2]]]].
  split; [constructor; assumption | discriminate].
Qed.

(** The longest run of units of a class at the start of a text is unique. *)
Lemma run_unique (p : cls) (xs ys r1 r2 : jsstring) :
  xs ++ r1 = ys ++ r2 -> all_in p xs -> all_in p ys -> stops p r1 -> stops p r2 ->
  xs = ys /\ r1 = r2.
Proof.
  intros E Hx. revert ys E. induction Hx as [| x xs Hx _ IH]; intros ys E Hy S1 S2.
  - destruct Hy as [| y ys Hy _]; [auto |].
    cbn in E. subst r1. cbn in S1. congruence.
  - destruct Hy as [| y ys Hy Hys].
    + cbn in E. subst r2. cbn in S2. congruence.
    + cbn in E. injection E as -> E. destruct (IH ys E Hys S1 S2) as [-> ->]. auto.
Qed.

Lemma digit_not_space (c : cu) : digit c = true -> space c = false.
Proof.
  unfold digit, range, space. intros H. apply andb_true_iff in H.
  destruct H as [H1 H2]. apply N.leb_le in H1, H2.
  repeat match goal with
         | |- (_ || _) = false => apply orb_false_iff; split
         | |- (_ && _) = false => apply andb_false_iff
         | |- (_ =? _)%N = false => apply N.eqb_neq; lia
         end;
    try (left; apply N.leb_gt; lia); try (right; apply N.leb_gt; lia).
Qed.

Lemma unit_letter_cases (u : N) (c : cu) :
  unit_letter u -> chr_i u c = true -> c = u \/ c = (u - 32)%N.
Proof.
  unfold chr_i, lower_cu. intros Hu H. apply N.eqb_eq in H.
  destruct Hu as [-> | [-> | ->]]; cbn in H;
    destruct ((65 <=? c) && (c <=? 90))%N; lia.
Qed.

Lemma unit_letter_class (u : N) (c : cu) :
  unit_letter u -> chr_i u c = true -> digit c = false /\ space c = false.
Proof.
  intros Hu H. destruct (unit_letter_cases u c Hu H) as [-> | ->];
    destruct Hu as [-> | [-> | ->]]; split; reflexivity.
Qed.

(** Every match of a relative pattern at the start of a token reads its
    digits, its gap and its letter, which is then the letter of the
    pattern. *)
Lemma token_match_capture (u : N) (tail : regex) (ds sp rest : jsstring) (c : cu)
    (b : mstate) :
  unit_letter u -> groupless tail = true ->
  all_in digit ds -> all_in space sp -> digit c = false -> space c = false ->
  In b (mtch (token_re u tail) (ds ++ sp ++ c :: rest, [])) ->
  chr_i u c = true /\ snd b = [(1%nat, ds)].
Proof.
  intros Hu Hg Hds Hsp Hcd Hcs H. unfold token_re in H.
  cat_inv H s1 H1.
  cat_inv H s2 H2.
  apply in_mtch_cat in H. destruct H as [s3 [H3 H4]].
  apply (group_reads _ _ _ _ _ (reads_plus digit _)) in H1.
  destruct H1 as [p1 [[Hp1 _] [E1 C1]]]. cbn [fst snd] in E1, C1.
  apply reads_star in H2. destruct H2 as [p2 [E2 [Hp2 C2]]].
  apply in_mtch_cls in H3. destruct H3 as [c' [E3 [Hc' C3]]].
  apply (groupless_captures _ Hg) in H4.
  destruct (unit_letter_class u c' Hu Hc') as [Hc'd Hc's].
  rewrite E2, E3 in E1.
  assert (S1 : stops digit (p2 ++ c' :: fst s3)).
  { destruct Hp2 as [| x p2 Hx _]; [exact Hc'd |]. cbn.
    destruct (digit x) eqn:Ex; [| reflexivity].
    apply digit_not_space in Ex. congruence. }
  assert (S2 : stops digit (sp ++ c :: rest)).
  { destruct Hsp as [| x sp Hx _]; [exact Hcd |]. cbn.
    destruct (digit x) eqn:Ex; [| reflexivity].
    apply digit_not_space in Ex. congruence. }
  destruct (run_unique digit _ _ _ _ (eq_sym E1) Hp1 Hds S1 S2) as [-> E'].
  destruct (run_unique space p2 sp (c' :: fst s3) (c :: rest) E' Hp2 Hsp Hc's Hcs)
    as [_ E''].
  injection E'' as -> _. split; [exact Hc' |]. congruence.
Qed.

Lemma nullable_opt (r : regex) : nullable (Opt r).
Proof. intros a. apply in_mtch_opt. right. reflexivity. Qed.

(** At the start of a token with the letter of the pattern there is a match. *)
Lemma token_match_exists (u : N) (tail : regex) (d : cu) (ds sp rest : jsstring) (c : cu) :
  nullable tail ->
  all_in digit (d :: ds) -> all_in space sp -> chr_i u c = true ->
  mtch (token_re u tail) ((d :: ds) ++ sp ++ c :: rest, []) <> [].
Proof.
  intros Hn Hds Hsp Hc E.
  assert (H : In (rest, [(1%nat, d :: ds)])
                (mtch (token_re u tail) ((d :: ds) ++ sp ++ c :: rest, []))).
  { unfold token_re. apply in_mtch_cat.
    exists (sp ++ c :: rest, [(1%nat, d :: ds)]). split.
    - apply in_mtch_grp. exists (sp ++ c :: rest, []). split.
      + inversion Hds; subst. apply plus_cls_reaches; assumption.
      + cbn [fst snd]. rewrite consumed_app. reflexivity.
    - apply in_mtch_cat. exists (c :: rest, [(1%nat, d :: ds)]). split.
      + apply star_cls_reaches. exact Hsp.
      + apply in_mtch_cat. exists (rest, [(1%nat, d :: ds)]). split.
        * cbn [mtch fst snd]. rewrite Hc. left. reflexivity.
        * apply Hn. }
  rewrite E in H. destruct H.
Qed.

Lemma exec_at_none (r : regex) (s : jsstring) :
  mtch r (s, []) = [] -> exec_at r s = None.
Proof.
  intros H. unfold exec_at.
  destruct (mtch r (s, [])) as [| [rest c0] l]; [reflexivity | discriminate H].
Qed.

Lemma rmatch_step (r : regex) (c : cu) (s : jsstring) :
  mtch r (c :: s, []) = [] -> rmatch r (c :: s) = rmatch r s.
Proof. intros H. cbn [rmatch]. rewrite (exec_at_none _ _ H). reflexivity. Qed.

Lemma rmatch_here (r : regex) (s : jsstring) :
  mtch r (s, []) <> [] ->
  exists m rest, rmatch r s = Some m /\ In (rest, groups m) (mtch r (s, [])).
Proof.
  intros H. destruct (exec_at r s) as [[rest m] |] eqn:E.
  - exists m, rest. split; [| exact (proj1 (exec_at_in _ _ _ _ E))].
    destruct s; cbn [rmatch]; rewrite E; reflexivity.
  - unfold exec_at in E. destruct (mtch r (s, [])) as [| [rest c0] l]; [congruence |].
    discriminate.
Qed.

Lemma token_re_needs_digit (u : N) (tail : regex) (c : cu) (s : jsstring) :
  digit c = false -> mtch (token_re u tail) (c :: s, []) = [].
Proof. intros H. unfold token_re, Plus. cbn [mtch fst snd]. rewrite H. reflexivity. Qed.

Lemma rmatch_digit_free (u : N) (tail : regex) (txt s : jsstring) :
  digit_free txt -> rmatch (token_re u tail) (txt ++ s) = rmatch (token_re u tail) s.
Proof.
  induction 1 as [| c txt Hc _ IH]; [reflexivity |].
  cbn [app]. rewrite rmatch_step by (apply token_re_needs_digit; exact Hc). exact IH.
Qed.

Lemma all_in_digit_free (sp : jsstring) : all_in space sp -> digit_free sp.
Proof.
  intros H. eapply Forall_impl; [| exact H]. intros c Hc. cbn in Hc.
  destruct (digit c) eqn:E; [| reflexivity]. apply digit_not_space in E. congruence.
Qed.

Lemma pattern_of_token (k : time_unit) :
  exists tail, pattern_of k = token_re (letter_of k) tail
               /\ groupless tail = true /\ nullable tail.
Proof.
  destruct k; eexists; (split; [reflexivity |]); split;
    try reflexivity; apply nullable_opt.
Qed.

Lemma letter_of_unit (k : time_unit) : unit_letter (letter_of k).
Proof. destruct k; unfold unit_letter; cbn; auto. Qed.

Lemma letters_differ (k k' : time_unit) (c : cu) :
  chr_i (letter_of k) c = true -> chr_i (letter_of k') c = true -> k = k'.
Proof.
  unfold chr_i. intros H1 H2. apply N.eqb_eq in H1, H2. rewrite H1 in H2.
  destruct k, k'; try reflexivity; discriminate.
Qed.

Lemma rmatch_other_token (k : time_unit) (t : token) (s : jsstring) :
  token_ok t -> unit_eqb (t_unit t) k = false ->
  rmatch (pattern_of k) (render t ++ s) = rmatch (pattern_of k) s.
Proof.
  intros [_ [Hd [Hg [Hl Hx]]]] Hk.
  destruct (pattern_of_token k) as [tail [-> [Hgl _]]].
  destruct (unit_letter_class _ _ (letter_of_unit (t_unit t)) Hl) as [Hld Hls].
  unfold render. rewrite <- !app_assoc. cbn [app].
  assert (Hrun : forall ds, all_in digit ds ->
            rmatch (token_re (letter_of k) tail) (ds ++ t_gap t ++ t_letter t :: t_text t ++ s)
            = rmatch (token_re (letter_of k) tail) (t_gap t ++ t_letter t :: t_text t ++ s)).
  { intros ds Hds. induction Hds as [| d ds Hdd Hds IH]; [reflexivity |].
    cbn [app]. rewrite rmatch_step; [exact IH |].
    destruct (mtch _ _) as [| b l] eqn:E; [reflexivity |]. exfalso.
    assert (Hb : In b (mtch (token_re (letter_of k) tail)
                         ((d :: ds) ++ t_gap t ++ t_letter t :: t_text t ++ s, [])))
      by (cbn [app]; rewrite E; left; reflexivity).
    apply (token_match_capture _ _ _ _ _ _ _ (letter_of_unit k) Hgl
             (Forall_cons _ Hdd Hds) Hg Hld Hls) in Hb.
    destruct Hb as [Hb _].
    rewrite (letters_differ _ _ _ Hl Hb) in Hk. destruct k; discriminate. }
  rewrite (Hrun _ Hd).
  rewrite rmatch_digit_free by (apply all_in_digit_free; exact Hg).
  change (t_letter t :: t_text t ++ s) with ((t_letter t :: t_text t) ++ s).
  apply rmatch_digit_free. constructor; assumption.
Qed.

Lemma rmatch_this_token (k : time_unit) (t : token) (s : jsstring) :
  token_ok t -> unit_eqb (t_unit t) k = true ->
  exists m, rmatch (pattern_of k) (render t ++ s) = Some m
            /\ group_text 1 m = t_digits t.
Proof.
  intros [Hne [Hd [Hg [Hl Hx]]]] Hk.
  assert (Ek : t_unit t = k) by (destruct (t_unit t), k; try reflexivity; discriminate).
  subst k.
  destruct (pattern_of_token (t_unit t)) as [tail [-> [Hgl Hnl]]].
  destruct (unit_letter_class _ _ (letter_of_unit (t_unit t)) Hl) as [Hld Hls].
  unfold render. rewrite <- !app_assoc. cbn [app].
  destruct (t_digits t) as [| d ds] eqn:Ed; [congruence |].
  destruct (rmatch_here (token_re (letter_of (t_unit t)) tail)
              ((d :: ds) ++ t_gap t ++ t_letter t :: t_text t ++ s))
    as [m [rest [Hm Hin]]].
  { apply token_match_exists; assumption. }
  exists m. split; [exact Hm |].
  apply (token_match_capture _ _ _ _ _ _ _ (letter_of_unit (t_unit t)) Hgl Hd Hg Hld Hls)
    in Hin.
  destruct Hin as [_ Hc]. cbn [snd] in Hc.
  unfold group_text, group. rewrite Hc. reflexivity.
Qed.

Lemma rmatch_end (k : time_unit) : rmatch (pattern_of k) [] = None.
Proof. destruct k; reflexivity. Qed.

(** What each relative pattern finds on a sequence of tokens. *)
Lemma rmatch_tokens (k : time_unit) (toks : list token) :
  Forall token_ok toks ->
  option_map (group_text 1) (rmatch (pattern_of k) (render_all toks)) = amount_of k toks.
Proof.
  induction 1 as [| t tl Ht _ IH].
  - unfold render_all. cbn [List.map List.concat amount_of].
    rewrite rmatch_end. reflexivity.
  - unfold render_all. cbn [List.map List.concat amount_of].
    fold (render_all tl).
    destruct (unit_eqb (t_unit t) k) eqn:Ek.
    + destruct (rmatch_this_token k t (render_all tl) Ht Ek) as [m [-> Hm]].
      cbn [option_map]. rewrite Hm. reflexivity.
    + rewrite (rmatch_other_token k t _ Ht Ek). exact IH.
Qed.

Lemma rmatch_line (k : time_unit) (head : jsstring) (toks : list token) :
  digit_free head -> Forall token_ok toks ->
  option_map (group_text 1) (rmatch (pattern_of k) (head ++ render_all toks))
  = amount_of k toks.
Proof.
  intros Hh Ht. destruct (pattern_of_token k) as [tail [E _]].
  rewrite E, rmatch_digit_free by exact Hh. rewrite <- E. apply rmatch_tokens. exact Ht.
Qed.

Lemma labelled_reset_relative (host : Host) (now : Z) (line : jsstring) :
  test RESET_WORD_RE line = true ->
  rmatch RELATIVE_DAYS line <> None \/ rmatch RELATIVE_HOURS line <> None
  \/ rmatch RELATIVE_MINS line <> None ->
  labelled_reset host now line = relative_reset now (relative_total line).
Proof.
  intros Ht Hm. unfold labelled_reset, relative_total, relative_reset.
  rewrite Ht. cbn [negb].
  destruct (rmatch RELATIVE_DAYS line), (rmatch RELATIVE_HOURS line),
    (rmatch RELATIVE_MINS line); try reflexivity.
  exfalso. destruct Hm as [H | [H | H]]; apply H; reflexivity.
Qed.

Lemma relative_total_tokens (head : jsstring) (toks : list token) :
  digit_free head -> Forall token_ok toks ->
  relative_total (head ++ render_all toks) = seconds_of toks.
Proof.
  intros Hh Ht. unfold relative_total, seconds_of.
  change RELATIVE_DAYS with (pattern_of Days).
  change RELATIVE_HOURS with (pattern_of Hours).
  change RELATIVE_MINS with (pattern_of Minutes).
  rewrite (rmatch_line Days head toks Hh Ht).
  rewrite (rmatch_line Hours head toks Hh Ht).
  rewrite (rmatch_line Minutes head toks Hh Ht).
  reflexivity.
Qed.

Lemma some_token_matches (head : jsstring) (toks : list token) :
  digit_free head -> Forall token_ok toks -> toks <> [] ->
  let line := head ++ render_all toks in
  rmatch RELATIVE_DAYS line <> None \/ rmatch RELATIVE_HOURS line <> None
  \/ rmatch RELATIVE_MINS line <> None.
Proof.
  intros Hh Ht Hne line. destruct toks as [| t tl]; [congruence |].
  assert (Ha : amount_of (t_unit t) (t :: tl) = Some (t_digits t)).
  { cbn [amount_of]. destruct (t_unit t); reflexivity. }
  pose proof (rmatch_line (t_unit t) head (t :: tl) Hh Ht) as E. rewrite Ha in E.
  fold line in E.
  destruct (t_unit t); cbn [pattern_of] in E;
    [left | right; left | right; right]; intros H; rewrite H in E; discriminate.
Qed.

(** What the relative branch computes on the first line of the window that
    carries the reset word, when the line is a text without digits and then
    numbers each followed, after optional space, by a word starting with d,
    h or m in either case: days * 86400 + hours * 3600 + minutes * 60 of
    the numbers written, whatever the clock reads; the reset instant is the
    clock plus that duration, which must be a date the host can represent. *)
Lemma relative_duration_exact (host : Host) (before after : list jsstring)
    (head : jsstring) (toks : list token) :
  Forall (fun l => test RESET_WORD_RE l = false) before ->
  test RESET_WORD_RE (head ++ render_all toks) = true ->
  digit_free head -> Forall token_ok toks -> toks <> [] ->
  Z.abs (clock host + seconds_of toks * 1000) <= Date.maxTime ->
  exists r,
    parseResetTime host (before ++ (head ++ render_all toks) :: after) = Ret r
    /\ reset_seconds r = seconds_of toks
    /\ reset_human r = formatDuration (seconds_of toks)
    /\ reset_at r = Date.iso_string (clock host + seconds_of toks * 1000).
Proof.
  intros Hb Hw Hh Ht Hne Hrange.
  set (line := head ++ render_all toks) in *.
  unfold parseResetTime.
  change (before ++ line :: after) with ([] ++ before ++ line :: after).
  rewrite (first_return_drop (labelled_reset host (clock host)) before [] (line :: after)).
  - cbn [app first_return].
    rewrite (labelled_reset_relative host _ line Hw (some_token_matches head toks Hh Ht Hne)).
    unfold line at 1. rewrite (relative_total_tokens head toks Hh Ht).
    unfold relative_reset. rewrite (TimeClip_valid _ Hrange).
    cbn [Date.toISOString bind].
    eexists. split; [reflexivity |]. cbn [reset_seconds reset_human reset_at].
    repeat split.
  - eapply Forall_impl; [| exact Hb]. intros l Hl.
    unfold labelled_reset. rewrite Hl. reflexivity.
Qed.

(** The duration of a line with three units. *)
Example three_units_duration :
  exists r,
    parseResetTime (Sample.host Sample.FAKE_NOW)
      ([lit "Current session"; lit "14% used"]
         ++ (lit "Resets in " ++ render_all three_units) :: [lit "Extra usage"])
    = Ret r
    /\ reset_seconds r = seconds_of three_units
    /\ reset_human r = formatDuration (seconds_of three_units)
    /\ reset_at r
       = Date.iso_string (clock (Sample.host Sample.FAKE_NOW) + seconds_of three_units * 1000).
Proof.
  apply (relative_duration_exact (Sample.host Sample.FAKE_NOW)
           [lit "Current session"; lit "14% used"] [lit "Extra usage"]
           (lit "Resets in ") three_units).
  - repeat constructor.
  - vm_compute; reflexivity.
  - repeat constructor.
  - repeat constructor; try discriminate.
  - discriminate.
  - vm_compute; discriminate.
Qed.

Example three_units_seconds :
  render_all three_units = lit "3 Days 2 hr 05 min"
  /\ seconds_of three_units = 3 * 86400 + 2 * 3600 + 5 * 60.
Proof. split; reflexivity. Qed.

(** The same line read at two clocks, in the other order of the units. *)
Example relative_any_order :
  exists r1 r2,
    parseResetTime (Sample.host Sample.FAKE_NOW) [lit "Renews in 30m 2h"] = Ret r1
    /\ parseResetTime (Sample.host 0) [lit "Renews in 30m 2h"] = Ret r2
    /\ reset_seconds r1 = 9000 /\ reset_seconds r2 = 9000
    /\ reset_human r1 = lit "2h30m"
    /\ reset_at r1 = lit "2026-02-23T00:10:00.000Z"
    /\ reset_at r2 = lit "1970-01-01T02:30:00.000Z".
Proof.
  do 2 eexists. split; [vm_compute; reflexivity |].
  split; [vm_compute; reflexivity |]. repeat split.
Qed.

(** A unit is recognised by the first letter of the word after the number:
    "5 messages" counts as five minutes. *)
Example relative_first_letter :
  exists r,
    parseResetTime (Sample.host Sample.FAKE_NOW)
      [lit "Resets in 3 hours (5 messages left)"] = Ret r
    /\ reset_seconds r = 3 * 3600 + 5 * 60.
Proof. eexists. split; [vm_compute; reflexivity | reflexivity]. Qed.

(** Two lines on which the resolver does not give the seconds of the
    duration written: two hundred million days from the clock of the test
    suite there is no time value and it raises; and after "3 hours" the
    words "5 messages" add five minutes. *)
Lemma relative_duration_failures :
  (Forall token_ok far_future
   /\ lit "Resets in " ++ render_all far_future = lit "Resets in 200000000 days"
   /\ parseResetTime (Sample.host Sample.FAKE_NOW) [lit "Resets in 200000000 days"]
      = Throw RangeError
   /\ ~ (exists r,
           parseResetTime (Sample.host Sample.FAKE_NOW) [lit "Resets in 200000000 days"]
           = Ret r
           /\ reset_seconds r = 200000000 * 86400))
  /\ (exists r,
        parseResetTime (Sample.host Sample.FAKE_NOW)
          [lit "Resets in 3 hours (5 messages left)"] = Ret r
        /\ reset_seconds r = 11100 /\ reset_seconds r <> 3 * 3600).
Proof.
  assert (E : parseResetTime (Sample.host Sample.FAKE_NOW) [lit "Resets in 200000000 days"]
              = Throw RangeError)
    by (vm_compute; reflexivity).
  split.
  - split; [repeat constructor; try discriminate |].
    split; [reflexivity |]. split; [exact E |].
    intros [r [H _]]. rewrite E in H. discriminate.
  - eexists. split; [vm_compute; reflexivity |]. split; [reflexivity | discriminate].
Qed.

(** C5: a word that only starts with the letter of a unit is read as the
    unit. The line "Resets in 3 hours (5 messages left)" writes a duration
    of three hours, 10800 seconds. The pattern of the hours finds
    "3 hours"; the pattern of the minutes ends at the letter m whatever
    follows it, finds "5 m" in "5 messages", and the resolver returns 11100
    seconds, "3h5m", at every clock from which that is a date. *)
Theorem relative_duration_stray_word (host : Host) :
  Z.abs (clock host + 11100 * 1000) <= Date.maxTime ->
  option_map m0 (rmatch RELATIVE_DAYS stray_word_line) = None
  /\ option_map m0 (rmatch RELATIVE_HOURS stray_word_line) = Some (lit "3 hours")
  /\ option_map m0 (rmatch RELATIVE_MINS stray_word_line) = Some (lit "5 m")
  /\ parseResetTime host [stray_word_line]
     = Ret {| reset_at := Date.iso_string (clock host + 11100 * 1000);
              reset_seconds := 11100;
              reset_human := lit "3h5m" |}
  /\ 11100 <> 3 * 3600.
Proof.
  intros Hrange.
  split; [vm_compute; reflexivity |].
  split; [vm_compute; reflexivity |].
  split; [vm_compute; reflexivity |].
  split; [| discriminate].
  unfold parseResetTime. cbn [first_return].
  rewrite (labelled_reset_relative host (clock host) stray_word_line).
  - replace (relative_total stray_word_line) with 11100 by (vm_compute; reflexivity).
    unfold relative_reset. rewrite (TimeClip_valid _ Hrange).
    cbn [Date.toISOString bind].
    replace (formatDuration 11100) with (lit "3h5m") by (vm_compute; reflexivity).
    reflexivity.
  - vm_compute; reflexivity.
  - right. left. vm_compute. discriminate.
Qed.

(** The line at the clock of the test suite. *)
Lemma relative_duration_stray_word_witness :
  option_map m0 (rmatch RELATIVE_DAYS stray_word_line) = None
  /\ option_map m0 (rmatch RELATIVE_HOURS stray_word_line) = Some (lit "3 hours")
  /\ option_map m0 (rmatch RELATIVE_MINS stray_word_line) = Some (lit "5 m")
  /\ parseResetTime (Sample.host Sample.FAKE_NOW) [stray_word_line]
     = Ret {| reset_at :=
                Date.iso_string (clock (Sample.host Sample.FAKE_NOW) + 11100 * 1000);
              reset_seconds := 11100;
              reset_human := lit "3h5m" |}
  /\ 11100 <> 3 * 3600.
Proof.
  apply (relative_duration_stray_word (Sample.host Sample.FAKE_NOW)).
  vm_compute. discriminate.
Defined.

(** ** The bounds of the loops *)

(** The loops of the matcher, of [replace], of [split] and of [parseQuotas]
    are written with a bound computed from their input; any larger bound
    gives the same result, so the bound never cuts a loop short. *)

Lemma flat_map_nowhere {A B : Type} (f : A -> list B) (l : list A) :
  (forall x, In x l -> f x = []) -> flat_map f l = [].
Proof.
  induction l as [| x l IH]; intros H; [reflexivity |].
  cbn [flat_map]. rewrite (H x) by (left; reflexivity).
  apply IH. intros y Hy. apply H. right. exact Hy.
Qed.

Lemma flat_map_same {A B : Type} (f g : A -> list B) (l : list A) :
  (forall x, In x l -> f x = g x) -> flat_map f l = flat_map g l.
Proof.
  induction l as [| x l IH]; intros H; [reflexivity |].
  cbn [flat_map]. rewrite (H x) by (left; reflexivity). f_equal.
  apply IH. intros y Hy. apply H. right. exact Hy.
Qed.

Lemma star_iter_fuel (step : mstate -> list mstate) (f1 : nat) :
  forall (f2 : nat) (st : mstate),
    (length (fst st) <= f1)%nat -> (length (fst st) <= f2)%nat ->
    star_iter step f1 st = star_iter step f2 st.
Proof.
  induction f1 as [| f1 IH]; intros f2 st H1 H2.
  - destruct f2 as [| f2]; [reflexivity |]. cbn [star_iter].
    rewrite flat_map_nowhere; [reflexivity |]. intros st' _. cbv beta.
    destruct (_ <? _)%nat eqn:E; [apply Nat.ltb_lt in E; exfalso; unfold jsstring in *; lia | reflexivity].
  - destruct f2 as [| f2].
    + cbn [star_iter]. rewrite flat_map_nowhere; [reflexivity |]. intros st' _.
      cbv beta.
      destruct (_ <? _)%nat eqn:E; [apply Nat.ltb_lt in E; exfalso; unfold jsstring in *; lia | reflexivity].
    + cbn [star_iter]. f_equal. apply flat_map_same. intros st' _. cbv beta.
      destruct (_ <? _)%nat eqn:E; [| reflexivity].
      apply Nat.ltb_lt in E. apply IH; unfold jsstring in *; lia.
Qed.

Lemma replace_from_fuel (r : regex) (f : rmatch_result -> jsstring) (f1 : nat) :
  forall f2 s, (length s < f1)%nat -> (length s < f2)%nat ->
               replace_from f1 r f s = replace_from f2 r f s.
Proof.
  induction f1 as [| f1 IH]; intros f2 s H1 H2; [lia |].
  destruct f2 as [| f2]; [lia |]. cbn [replace_from].
  assert (Hskip : match s with
                  | [] => []
                  | c :: tl => c :: replace_from f1 r f tl
                  end
                  = match s with
                    | [] => []
                    | c :: tl => c :: replace_from f2 r f tl
                    end).
  { destruct s as [| c tl]; [reflexivity |]. cbn [length] in H1, H2.
    f_equal. apply IH; lia. }
  rewrite Hskip. destruct (exec_at r s) as [[rest m] |]; [| reflexivity].
  destruct (_ <? _)%nat eqn:E; [| reflexivity].
  apply Nat.ltb_lt in E. f_equal. apply IH; lia.
Qed.

Lemma split_from_fuel (r : regex) (f1 : nat) :
  forall f2 cur s, (length s < f1)%nat -> (length s < f2)%nat ->
                   split_from f1 r cur s = split_from f2 r cur s.
Proof.
  induction f1 as [| f1 IH]; intros f2 cur s H1 H2; [lia |].
  destruct f2 as [| f2]; [lia |]. cbn [split_from].
  destruct s as [| c tl]; [reflexivity |]. cbn [length] in H1, H2.
  destruct (exec_at r (c :: tl)) as [[rest m] |].
  - destruct (_ <? _)%nat eqn:E.
    + apply Nat.ltb_lt in E. cbn [length] in E. f_equal. apply IH; lia.
    + apply IH; lia.
  - apply IH; lia.
Qed.

Lemma parseQuotas_from_fuel (host : Host) (lines : list jsstring) (f1 f2 i : nat) :
  (length lines <= i + f1)%nat -> (length lines <= i + f2)%nat ->
  parseQuotas_from host f1 lines i = parseQuotas_from host f2 lines i.
Proof.
  intros H1 H2. rewrite !parseQuotas_from_suffix.
  apply quotas_from_fuel; rewrite length_skipn; lia.
Qed.

(** ** The scenarios of the test suite *)

Example detects_setup_required :
  kind_of (at_test_clock (lit "Let's get started! Choose a theme..."))
  = "not_authenticated"%string.
Proof. vm_compute; reflexivity. Qed.

Example detects_token_expired :
  kind_of (at_test_clock (lit "Your session has expired. Please log in again."))
  = "not_authenticated"%string.
Proof. vm_compute; reflexivity. Qed.

Example detects_no_subscription :
  kind_of (at_test_clock (lit "No active subscription found for this account."))
  = "not_authenticated"%string.
Proof. vm_compute; reflexivity. Qed.

Example garbage_is_error :
  at_test_clock (Sample.text_of ["some random text"; "with no usage data"; EmptyString]%string)
  = Ret (error no_data_message).
Proof. vm_compute; reflexivity. Qed.

Example pro_fixture_account :
  exists d a b,
    at_test_clock pro_fixture = Ret (ok d)
    /\ account_type d = lit "Claude Pro" /\ email d = lit "user@example.com"
    /\ quotas d = Some [a; b]
    /\ (type a, percent_remaining a, time_remaining_seconds a, time_remaining_human a)
       = (session, 86, 12000, lit "3h20m")
    /\ (type b, percent_remaining b, time_remaining_seconds b, time_remaining_human b)
       = (weekly, 93, 440400, lit "5d 2h").
Proof.
  do 3 eexists. split; [vm_compute; reflexivity |].
  repeat split.
Qed.

(** The sonnet section of the fixtures: Mar 1 at 3pm is 6d 22h20m away. *)
Example sonnet_section :
  exists q,
    parseQuotas (Sample.host Sample.FAKE_NOW)
      (Sample.lines_of ["Current week (Sonnet only)"; "0% used";
                        "Resets Mar 1 at 3pm (America/Toronto)"]%string)
    = Ret [q]
    /\ (type q, percent_remaining q, time_remaining_seconds q, time_remaining_human q)
       = (sonnet, 100, 598800, lit "6d 22h").
Proof. eexists. split; [vm_compute; reflexivity | reflexivity]. Qed.

(** A percentage and its reset time merged on one line. *)
Example merged_line :
  exists q,
    parseQuotas (Sample.host Sample.FAKE_NOW)
      (Sample.lines_of ["Current session";
                        "14% used    Resets 8pm (America/Toronto)"]%string)
    = Ret [q]
    /\ (percent_remaining q, time_remaining_seconds q, time_remaining_human q)
       = (86, 12000, lit "3h20m").
Proof. eexists. split; [vm_compute; reflexivity | reflexivity]. Qed.

(** A reset word broken by the spaces of cursor-forward sequences: the
    second loop of [parseResetTime] finds the clock time. *)
Example broken_reset_word :
  exists q,
    parseQuotas (Sample.host Sample.FAKE_NOW)
      (normalized_lines
         (lit "Current session" ++ [c_cr] ++ lit "14% used" ++ [c_cr]
          ++ lit "Re" ++ [c_esc] ++ lit "[2Cse" ++ [c_esc] ++ lit "[1Cts 8pm (America/Toronto)"))
    = Ret [q]
    /\ (percent_remaining q, time_remaining_seconds q) = (86, 12000).
Proof. eexists. split; [vm_compute; reflexivity | reflexivity]. Qed.

(** * Further properties *)

(** ** Escape sequences in the normalizer *)

(** A pattern that starts with a literal unit leaves a prefix without that
    unit alone. *)
Lemma replace_all_prefix (x : N) (r : regex) (f : rmatch_result -> jsstring)
    (p s : jsstring) :
  Forall (fun c => c <> x) p ->
  replace_all (Cat (Cls (chr x)) r) f (p ++ s)
  = p ++ replace_all (Cat (Cls (chr x)) r) f s.
Proof.
  intros Hp. induction Hp as [| c p Hc _ IH]; [reflexivity |].
  unfold replace_all. cbn [app length]. cbn [replace_from].
  rewrite exec_at_first_unit by (cbn; congruence).
  f_equal. exact IH.
Qed.

Lemma replace_all_match (r : regex) (f : rmatch_result -> jsstring)
    (s rest : jsstring) (m : rmatch_result) :
  exec_at r s = Some (rest, m) -> (length rest < length s)%nat ->
  replace_all r f s = f m ++ replace_all r f rest.
Proof.
  intros E Hlen. unfold replace_all.
  transitivity (f m ++ replace_from (length s) r f rest).
  - cbn [replace_from]. rewrite E.
    rewrite (proj2 (Nat.ltb_lt _ _) Hlen). reflexivity.
  - f_equal. apply replace_from_fuel; lia.
Qed.

Lemma replace_all_skip (r : regex) (f : rmatch_result -> jsstring)
    (c : cu) (s : jsstring) :
  exec_at r (c :: s) = None ->
  replace_all r f (c :: s) = c :: replace_all r f s.
Proof.
  intros E. unfold replace_all. cbn [length]. cbn [replace_from]. rewrite E.
  reflexivity.
Qed.

(** When every way to match leads to one state, that state is the match. *)
Lemma exec_at_only (r : regex) (s rest : jsstring) (caps : captures) :
  In (rest, caps) (mtch r (s, [])) ->
  (forall st, In st (mtch r (s, [])) -> st = (rest, caps)) ->
  exec_at r s = Some (rest, {| m0 := consumed s rest; groups := caps |}).
Proof.
  intros Hin Hall. unfold exec_at.
  destruct (mtch r (s, [])) as [| st l]; [destruct Hin |].
  rewrite (Hall st (or_introl eq_refl)). reflexivity.
Qed.

Lemma passes_map_filter (a : jsstring) :
  Forall passes a ->
  filter (fun c => negb (stray_control c)) (List.map cr_to_nl a) = a.
Proof.
  intros Ha. induction Ha as [| c tl [Hcr Hctl] _ IH]; [reflexivity |].
  assert (Hc : cr_to_nl c = c).
  { unfold cr_to_nl, chr. destruct (N.eqb_spec c c_cr); [contradiction | reflexivity]. }
  cbn [List.map filter]. rewrite Hc, Hctl. cbn [negb]. f_equal. exact IH.
Qed.

(** The normalizer after a passing prefix [a], a text [mid] the first pass
    turns into [mid'] and the second into [out]. *)
Lemma stripAnsi_after (a mid' out b : jsstring) (s : jsstring) :
  Forall passes a -> Forall passes out ->
  replace_all CURSOR_FWD_RE cursor_spaces s
  = a ++ mid' ++ replace_all CURSOR_FWD_RE cursor_spaces b ->
  (forall t, replace_all ANSI_RE (fun _ => []) (mid' ++ t)
             = out ++ replace_all ANSI_RE (fun _ => []) t) ->
  stripAnsi s = a ++ out ++ stripAnsi b.
Proof.
  intros Ha Hout E1 E2.
  assert (Hesc : Forall (fun c => c <> c_esc) a).
  { eapply Forall_impl; [| exact Ha]. exact passes_not_esc. }
  rewrite !stripAnsi_unfold. rewrite E1.
  unfold ANSI_RE at 1. rewrite replace_all_prefix by exact Hesc.
  fold ANSI_RE. rewrite E2.
  rewrite !map_app, !filter_app.
  rewrite (passes_map_filter a Ha), (passes_map_filter out Hout).
  reflexivity.
Qed.

Lemma repeat_space_passes (n : nat) : Forall passes (repeat_str (lit " ") n).
Proof.
  unfold repeat_str. induction n as [| n IH]; [constructor |].
  cbn [List.repeat List.concat]. apply Forall_app. split; [| exact IH].
  constructor; [| constructor]. split; [discriminate | reflexivity].
Qed.

Lemma CURSOR_FWD_RE_shape :
  CURSOR_FWD_RE
  = Cat (Cls (chr c_esc))
      (Cat (Cls (chr 91)) (Cat (Grp 1 (Star (Cls digit))) (Cls (chr 67)))).
Proof. reflexivity. Qed.

(** The cursor-forward pattern at the start of a cursor-forward sequence
    matches the sequence and captures its parameter. *)
Lemma cursor_forward_exec (ds b : jsstring) :
  all_in digit ds ->
  exec_at CURSOR_FWD_RE (cursor_forward ds ++ b)
  = Some (b, {| m0 := consumed (cursor_forward ds ++ b) b; groups := [(1%nat, ds)] |}).
Proof.
  intros Hds. apply exec_at_only.
  - rewrite CURSOR_FWD_RE_shape. unfold cursor_forward.
    change (lit "[") with [91%N]. change (lit "C") with [67%N].
    cbn [app]. rewrite <- app_assoc. cbn [app].
    apply in_mtch_cat. exists (91%N :: ds ++ 67%N :: b, []). split; [left; reflexivity |].
    apply in_mtch_cat. exists (ds ++ 67%N :: b, []). split; [left; reflexivity |].
    apply in_mtch_cat. exists (67%N :: b, [(1%nat, ds)]). split.
    + apply in_mtch_grp. exists (67%N :: b, []). split.
      * apply star_cls_reaches. exact Hds.
      * cbn [fst snd]. rewrite consumed_app. reflexivity.
    + left. reflexivity.
  - intros st H. rewrite CURSOR_FWD_RE_shape in H. unfold cursor_forward in H.
    change (lit "[") with [91%N] in H. change (lit "C") with [67%N] in H.
    cbn [app] in H. rewrite <- app_assoc in H. cbn [app] in H.
    cat_inv H s1 H1. cat_inv H s2 H2. cat_inv H s3 H3.
    apply in_mtch_cls in H1. destruct H1 as [c1 [E1 [_ C1]]]. cbn [fst snd] in E1, C1.
    injection E1 as _ E1.
    apply in_mtch_cls in H2. destruct H2 as [c2 [E2 [_ C2]]].
    rewrite <- E1 in E2. injection E2 as _ E2.
    apply (group_reads _ _ _ _ _ (reads_star digit _)) in H3.
    destruct H3 as [p [Hp [E3 C3]]].
    apply in_mtch_cls in H. destruct H as [c4 [E4 [Hc4 C4]]].
    unfold chr in Hc4. apply N.eqb_eq in Hc4. subst c4.
    rewrite <- E2, E4 in E3.
    assert (S1 : stops digit (67%N :: fst st)) by reflexivity.
    assert (S2 : stops digit (67%N :: b)) by reflexivity.
    destruct (run_unique digit _ _ _ _ E3 Hds Hp S2 S1) as [-> E'].
    injection E' as E'.
    destruct st as [rest caps]. cbn [fst snd] in *.
    rewrite C4, C3, C2, C1, E'. reflexivity.
Qed.

Lemma cursor_spaces_count (ds : jsstring) (m0' : jsstring) :
  cursor_spaces {| m0 := m0'; groups := [(1%nat, ds)] |}
  = repeat_str (lit " ") (forward_count ds).
Proof. unfold cursor_spaces, forward_count, group. cbn [groups capture Nat.eqb].
  destruct ds; reflexivity.
Qed.

(** X2: a cursor-forward sequence becomes as many spaces as its parameter
    says (one when it has none, never more than 100); the text before it,
    free of escapes, is kept and the text after it is normalized on its
    own. *)
Theorem cursor_forward_spaces (a ds b : jsstring) :
  Forall passes a -> all_in digit ds ->
  stripAnsi (a ++ cursor_forward ds ++ b)
  = a ++ repeat_str (lit " ") (forward_count ds) ++ stripAnsi b.
Proof.
  intros Ha Hds.
  assert (Hesc : Forall (fun c => c <> c_esc) a).
  { eapply Forall_impl; [| exact Ha]. exact passes_not_esc. }
  apply (stripAnsi_after a (repeat_str (lit " ") (forward_count ds))).
  - exact Ha.
  - apply repeat_space_passes.
  - rewrite CURSOR_FWD_RE_shape at 1. rewrite replace_all_prefix by exact Hesc.
    rewrite <- CURSOR_FWD_RE_shape. f_equal.
    rewrite (replace_all_match _ _ _ _ _ (cursor_forward_exec ds b Hds)).
    + rewrite cursor_spaces_count. reflexivity.
    + unfold cursor_forward. cbn [app length]. rewrite !length_app. cbn. lia.
  - intros t. unfold ANSI_RE. apply replace_all_prefix.
    eapply Forall_impl; [| apply repeat_space_passes]. exact passes_not_esc.
Qed.

(** The gap that a cursor-forward sequence leaves in the reset word. *)
Lemma cursor_forward_spaces_witness :
  stripAnsi (lit "Rese" ++ cursor_forward (lit "2") ++ lit "s 8pm")
  = lit "Rese" ++ repeat_str (lit " ") (forward_count (lit "2")) ++ stripAnsi (lit "s 8pm").
Proof.
  apply (cursor_forward_spaces (lit "Rese") (lit "2") (lit "s 8pm")).
  - repeat constructor; discriminate.
  - repeat constructor.
Defined.

Lemma ANSI_RE_shape :
  ANSI_RE
  = Cat (Cls (chr c_esc))
      (Alt (Cls esc_second)
         (Alt (Cat (Cls (chr 91))
                 (Cat (Star (Cls csi_param)) (Cat (Star (Cls csi_inter)) (Cls csi_final))))
              (Cat (Cls (chr 93))
                 (Cat (Star (Cls (compl (union (chr c_bel) (chr c_esc)))))
                    (Alt (Cls (chr c_bel)) (Cat (Cls (chr c_esc)) (Cls (chr 92)))))))).
Proof. reflexivity. Qed.

Ltac range_facts :=
  unfold csi_param, csi_inter, csi_final, esc_second, digit, union, range, chr in *;
  repeat match goal with
         | H : (_ || _) = true |- _ => apply orb_true_iff in H; destruct H as [H | H]
         | H : (_ && _) = true |- _ => apply andb_true_iff in H; destruct H as [? ?]
         | H : (_ <=? _)%N = true |- _ => apply N.leb_le in H
         | H : (_ =? _)%N = true |- _ => apply N.eqb_eq in H
         end.

Lemma inter_not_param (c : cu) : csi_inter c = true -> csi_param c = false.
Proof.
  intros H. destruct (csi_param c) eqn:E; [| reflexivity]. range_facts. lia.
Qed.

Lemma final_not_param (c : cu) : csi_final c = true -> csi_param c = false.
Proof.
  intros H. destruct (csi_param c) eqn:E; [| reflexivity]. range_facts. lia.
Qed.

Lemma final_not_inter (c : cu) : csi_final c = true -> csi_inter c = false.
Proof.
  intros H. destruct (csi_inter c) eqn:E; [| reflexivity]. range_facts. lia.
Qed.

Lemma stops_app (p q : cls) (xs : jsstring) (c : cu) (rest : jsstring) :
  all_in q xs -> (forall x, q x = true -> p x = false) -> p c = false ->
  stops p (xs ++ c :: rest).
Proof.
  intros Hxs Hq Hc. destruct Hxs as [| x xs Hx _]; [exact Hc |]. cbn. auto.
Qed.

(** The escape pattern at the start of a control sequence matches the
    sequence. *)
Lemma csi_exec (params inter : jsstring) (final : cu) (t : jsstring) :
  all_in csi_param params -> all_in csi_inter inter -> csi_final final = true ->
  exec_at ANSI_RE (csi params inter final ++ t)
  = Some (t, {| m0 := consumed (csi params inter final ++ t) t; groups := [] |}).
Proof.
  intros HP HI HF.
  assert (Etext : csi params inter final ++ t
                  = c_esc :: 91%N :: params ++ inter ++ final :: t).
  { unfold csi. change (lit "[") with [91%N]. cbn [app].
    rewrite <- !app_assoc. reflexivity. }
  rewrite Etext. apply exec_at_only.
  - rewrite ANSI_RE_shape.
    apply in_mtch_cat. exists (91%N :: params ++ inter ++ final :: t, []).
    split; [left; reflexivity |].
    apply in_mtch_alt. right. apply in_mtch_alt. left.
    apply in_mtch_cat. exists (params ++ inter ++ final :: t, []).
    split; [left; reflexivity |].
    apply in_mtch_cat. exists (inter ++ final :: t, []).
    split; [apply star_cls_reaches; exact HP |].
    apply in_mtch_cat. exists (final :: t, []).
    split; [apply star_cls_reaches; exact HI |].
    cbn [mtch fst snd]. rewrite HF. left. reflexivity.
  - intros st H. rewrite ANSI_RE_shape in H.
    cat_inv H s1 H1.
    apply in_mtch_cls in H1. destruct H1 as [c1 [E1 [_ C1]]]. cbn [fst snd] in E1, C1.
    injection E1 as _ E1.
    apply in_mtch_alt in H. destruct H as [H | H].
    { apply in_mtch_cls in H. destruct H as [c [E [Hc _]]].
      rewrite <- E1 in E. injection E as <- _. discriminate Hc. }
    apply in_mtch_alt in H. destruct H as [H | H].
    + cat_inv H s2 H2. cat_inv H s3 H3. cat_inv H s4 H4.
      apply in_mtch_cls in H2. destruct H2 as [c2 [E2 [_ C2]]].
      rewrite <- E1 in E2. injection E2 as _ E2.
      apply reads_star in H3. destruct H3 as [p1 [E3 [Hp1 C3]]].
      apply reads_star in H4. destruct H4 as [p2 [E4 [Hp2 C4]]].
      apply in_mtch_cls in H. destruct H as [c [E5 [Hc C5]]].
      rewrite <- E2, E4, E5 in E3.
      assert (S1 : stops csi_param (inter ++ final :: t)).
      { apply (stops_app _ csi_inter); auto using inter_not_param, final_not_param. }
      assert (S2 : stops csi_param (p2 ++ c :: fst st)).
      { apply (stops_app _ csi_inter); auto using inter_not_param, final_not_param. }
      destruct (run_unique csi_param _ _ _ _ E3 HP Hp1 S1 S2) as [_ E'].
      destruct (run_unique csi_inter inter p2 (final :: t) (c :: fst st) E' HI Hp2
                  (final_not_inter _ HF) (final_not_inter _ Hc)) as [_ E''].
      injection E'' as _ E''.
      destruct st as [rest caps]. cbn [fst snd] in *.
      rewrite C5, C4, C3, C2, C1, E''. reflexivity.
    + cat_inv H s2 H2.
      apply in_mtch_cls in H2. destruct H2 as [c [E [Hc _]]].
      rewrite <- E1 in E. injection E as <- _. discriminate Hc.
Qed.

Lemma not_cursor_text (p : jsstring) :
  all_in digit p ->
  forall params inter final b rest,
    all_in csi_param params -> all_in csi_inter inter -> csi_final final = true ->
    final <> 67%N ->
    params ++ inter ++ final :: b <> p ++ 67%N :: rest.
Proof.
  intros Hp. induction Hp as [| d p Hd _ IH]; intros params inter final b rest HP HI HF HC E.
  - cbn [app] in E.
    destruct HP as [| x params Hx _].
    + destruct HI as [| y inter Hy _].
      * cbn in E. congruence.
      * cbn in E. injection E as -> _. discriminate Hy.
    + cbn in E. injection E as -> _. discriminate Hx.
  - cbn [app] in E.
    destruct HP as [| x params Hx HP].
    + destruct HI as [| y inter Hy _].
      * cbn in E. injection E as -> _. range_facts. lia.
      * cbn in E. injection E as -> _. range_facts. lia.
    + cbn in E. injection E as _ E. exact (IH _ _ _ _ _ HP HI HF HC E).
Qed.

(** The cursor-forward pattern does not match at a control sequence whose
    final unit is not "C". *)
Lemma csi_not_cursor (params inter : jsstring) (final : cu) (b : jsstring) :
  all_in csi_param params -> all_in csi_inter inter -> csi_final final = true ->
  final <> 67%N ->
  exec_at CURSOR_FWD_RE (csi params inter final ++ b) = None.
Proof.
  intros HP HI HF HC. apply exec_at_none.
  destruct (mtch CURSOR_FWD_RE (csi params inter final ++ b, [])) as [| st l] eqn:El;
    [first [reflexivity | exact El] | exfalso].
  assert (H : In st (mtch CURSOR_FWD_RE (csi params inter final ++ b, [])))
    by (rewrite El; left; reflexivity).
  clear El. rewrite CURSOR_FWD_RE_shape in H. unfold csi in H.
  change (lit "[") with [91%N] in H. cbn [app] in H.
  rewrite <- !app_assoc in H. cbn [app] in H.
  cat_inv H s1 H1. cat_inv H s2 H2. cat_inv H s3 H3.
  apply in_mtch_cls in H1. destruct H1 as [c1 [E1 _]]. cbn [fst] in E1.
  injection E1 as _ E1.
  apply in_mtch_cls in H2. destruct H2 as [c2 [E2 _]].
  rewrite <- E1 in E2. injection E2 as _ E2.
  apply (group_reads _ _ _ _ _ (reads_star digit _)) in H3.
  destruct H3 as [p [Hp [E3 _]]].
  apply in_mtch_cls in H. destruct H as [c4 [E4 [Hc4 _]]].
  unfold chr in Hc4. apply N.eqb_eq in Hc4. subst c4.
  rewrite <- E2, E4 in E3.
  exact (not_cursor_text p Hp _ _ _ _ _ HP HI HF HC E3).
Qed.

Lemma class_not_esc (p : cls) (s : jsstring) :
  p c_esc = false -> all_in p s -> Forall (fun c => c <> c_esc) s.
Proof.
  intros Hp Hs. eapply Forall_impl; [| exact Hs].
  intros c Hc ->. cbn beta in Hc. congruence.
Qed.

(** X3: a control sequence of the terminal (colours, cursor moves other than
    cursor-forward, erasures) is deleted: the text before it, free of
    escapes, is kept and the text after it is normalized on its own. *)
Theorem control_sequence_deleted (a params inter : jsstring) (final : cu) (b : jsstring) :
  Forall passes a ->
  all_in csi_param params -> all_in csi_inter inter -> csi_final final = true ->
  final <> 67%N ->
  stripAnsi (a ++ csi params inter final ++ b) = a ++ stripAnsi b.
Proof.
  intros Ha HP HI HF HC.
  assert (Hesc : Forall (fun c => c <> c_esc) a).
  { eapply Forall_impl; [| exact Ha]. exact passes_not_esc. }
  apply (stripAnsi_after a (csi params inter final) [] b).
  - exact Ha.
  - constructor.
  - rewrite CURSOR_FWD_RE_shape at 1. rewrite replace_all_prefix by exact Hesc.
    rewrite <- CURSOR_FWD_RE_shape. f_equal.
    pose proof (csi_not_cursor params inter final b HP HI HF HC) as En.
    unfold csi in *. cbn [app] in *.
    rewrite (replace_all_skip _ _ _ _ En). f_equal.
    rewrite CURSOR_FWD_RE_shape at 1. rewrite replace_all_prefix; [reflexivity |].
    change (lit "[") with [91%N]. cbn [app]. constructor; [discriminate |].
    apply Forall_app. split; [exact (class_not_esc csi_param _ eq_refl HP) |].
    apply Forall_app. split; [exact (class_not_esc csi_inter _ eq_refl HI) |].
    constructor; [| constructor]. intros ->. discriminate HF.
  - intros t. rewrite (replace_all_match _ _ _ _ _ (csi_exec params inter final t HP HI HF)).
    + reflexivity.
    + unfold csi. cbn [app length]. rewrite !length_app. cbn. lia.
Qed.

(** A colour sequence inside a percentage line. *)
Lemma control_sequence_deleted_witness :
  stripAnsi (lit "14% " ++ csi (lit "1;31") [] 109%N ++ lit "used") = lit "14% " ++ stripAnsi (lit "used").
Proof.
  apply (control_sequence_deleted (lit "14% ") (lit "1;31") [] 109%N (lit "used")).
  - repeat constructor; discriminate.
  - repeat constructor.
  - constructor.
  - reflexivity.
  - discriminate.
Defined.

(** X4: ESC with a unit from "@" to "Z" or from "\" to "_" is deleted as a
    pair, whatever follows. "]" is such a unit, so of an operating-system
    command (ESC, "]", text, BEL) only the first two units go: the branch of
    the pattern for these commands is never reached. *)
Theorem two_unit_escape_deleted (a : jsstring) (c : cu) (b : jsstring) :
  Forall passes a -> esc_second c = true ->
  stripAnsi (a ++ c_esc :: c :: b) = a ++ stripAnsi b.
Proof.
  intros Ha Hc.
  assert (Hesc : Forall (fun c => c <> c_esc) a).
  { eapply Forall_impl; [| exact Ha]. exact passes_not_esc. }
  assert (Hc91 : (c =? 91)%N = false).
  { apply N.eqb_neq. intros ->. discriminate Hc. }
  assert (Hc27 : c <> c_esc) by (intros ->; discriminate Hc).
  apply (stripAnsi_after a [c_esc; c] [] b).
  - exact Ha.
  - constructor.
  - rewrite CURSOR_FWD_RE_shape at 1. rewrite replace_all_prefix by exact Hesc.
    rewrite <- CURSOR_FWD_RE_shape. f_equal. cbn [app].
    rewrite replace_all_skip.
    + f_equal. rewrite CURSOR_FWD_RE_shape.
      apply (replace_all_prefix c_esc _ _ [c] b). constructor; [exact Hc27 | constructor].
    + apply exec_at_none. rewrite CURSOR_FWD_RE_shape.
      cbn [mtch fst snd flat_map app].
      change (chr c_esc c_esc) with true. cbn [flat_map app fst snd].
      unfold chr. rewrite Hc91. reflexivity.
  - intros t. cbn [app].
    assert (E : exec_at ANSI_RE (c_esc :: c :: t)
                = Some (t, {| m0 := consumed (c_esc :: c :: t) t; groups := [] |})).
    { unfold exec_at. rewrite ANSI_RE_shape.
      cbn [mtch fst snd flat_map app].
      change (chr c_esc c_esc) with true. cbn [flat_map app fst snd].
      rewrite Hc. reflexivity. }
    rewrite (replace_all_match _ _ _ _ _ E); [reflexivity | cbn; lia].
Qed.

(** The start of a command that sets the window title. *)
Lemma two_unit_escape_deleted_witness :
  stripAnsi (lit "ab" ++ c_esc :: 93%N :: lit "0;title" ++ [c_bel] ++ lit "cd")
  = lit "ab" ++ stripAnsi (lit "0;title" ++ [c_bel] ++ lit "cd").
Proof.
  apply (two_unit_escape_deleted (lit "ab") 93%N (lit "0;title" ++ [c_bel] ++ lit "cd")).
  - repeat constructor; discriminate.
  - reflexivity.
Defined.

(** The text of the command stays in the transcript. *)
Example window_title_stays :
  stripAnsi (lit "ab" ++ c_esc :: 93%N :: lit "0;title" ++ [c_bel] ++ lit "cd")
  = lit "ab0;titlecd".
Proof. vm_compute. reflexivity. Qed.

(** X1: the texts the normalizer leaves unchanged are exactly those without
    ESC, carriage return and the control codes it deletes. *)
Theorem stripAnsi_fixed_points (s : jsstring) :
  stripAnsi s = s <-> Forall passes s.
Proof.
  split.
  - intros E. rewrite <- E. apply stripAnsi_passes.
  - apply stripAnsi_fixed.
Qed.

(** ** The records of a transcript *)

Lemma QuotaType_eqb_refl (t : QuotaType) : QuotaType_eqb t t = true.
Proof. destruct t; reflexivity. Qed.

Lemma subseq_tail (a : list QuotaType) :
  forall x b, subseq (x :: a) b = true -> subseq a b = true.
Proof.
  induction a as [| y a IH]; intros x b H; [destruct b; reflexivity |].
  revert x H. induction b as [| z b IHb]; intros x H; [discriminate H |].
  cbn [subseq] in H. cbn [subseq].
  destruct (QuotaType_eqb x z).
  - destruct (QuotaType_eqb y z).
    + apply (IH y). exact H.
    + exact H.
  - destruct (QuotaType_eqb y z).
    + apply (IH y). apply (IHb x). exact H.
    + apply (IHb x). exact H.
Qed.

Lemma subseq_skip (a b : list QuotaType) (y : QuotaType) :
  subseq a b = true -> subseq a (y :: b) = true.
Proof.
  intros H. destruct a as [| x a]; [reflexivity |]. cbn [subseq].
  destruct (QuotaType_eqb x y); [| exact H]. exact (subseq_tail a x b H).
Qed.

Lemma subseq_prefix (p a b : list QuotaType) :
  subseq a b = true -> subseq a (p ++ b) = true.
Proof.
  intros H. induction p as [| y p IH]; [exact H |].
  cbn [app]. apply subseq_skip. exact IH.
Qed.

Lemma subseq_length (a : list QuotaType) :
  forall b, subseq a b = true -> (length a <= length b)%nat.
Proof.
  induction a as [| x a IH]; intros b H; [cbn; lia |].
  induction b as [| y b IHb]; [discriminate H |].
  cbn [subseq] in H. cbn [length].
  destruct (QuotaType_eqb x y).
  - apply IH in H. lia.
  - apply IHb in H. cbn [length] in H. lia.
Qed.

Lemma label_types_skipn (k : nat) (l : list jsstring) :
  exists p, label_types l = p ++ label_types (skipn k l).
Proof.
  exists (label_types (firstn k l)).
  unfold label_types. rewrite <- flat_map_app, firstn_skipn. reflexivity.
Qed.

Lemma bind_ret_inv {A B : Type} (m : outcome A) (f : A -> outcome B) (b : B) :
  bind m f = Ret b -> exists a, m = Ret a /\ f a = Ret b.
Proof. destruct m as [a | e]; [| discriminate]. intros H. exists a. auto. Qed.

Lemma quotas_from_types (host : Host) (fuel : nat) :
  forall s qs, quotas_from host fuel s = Ret qs ->
               subseq (List.map type qs) (label_types s) = true.
Proof.
  induction fuel as [| fuel IH]; intros s qs H.
  - cbn in H. injection H as <-. destruct (label_types s); reflexivity.
  - destruct s as [| line tl]; [cbn in H; injection H as <-; reflexivity |].
    destruct (labelMatch line) as [t |] eqn:El.
    + rewrite (quotas_from_label host line tl fuel t El) in H.
      change (label_types (line :: tl)) with
        (match labelMatch line with Some t => [t] | None => [] end ++ label_types tl).
      rewrite El. cbn [app].
      destruct (find_percent (firstn 6 (line :: section_rest tl)) 0) as [[k pMatch] |].
      * apply bind_ret_inv in H. destruct H as [r [_ H]].
        apply bind_ret_inv in H. destruct H as [rest [Hrest H]].
        injection H as <-. cbn [List.map quota_of type subseq].
        rewrite QuotaType_eqb_refl.
        apply IH in Hrest.
        destruct (label_types_skipn k tl) as [p ->].
        apply subseq_prefix. exact Hrest.
      * apply subseq_skip. apply IH. exact H.
    + rewrite (quotas_from_plain host line tl fuel El) in H.
      change (label_types (line :: tl)) with
        (match labelMatch line with Some t => [t] | None => [] end ++ label_types tl).
      rewrite El. cbn [app]. apply IH. exact H.
Qed.

(** X5: the records follow the label lines: their types are the types of
    label lines of the transcript, in the order of the lines, each label
    line giving at most one record. *)
Theorem records_follow_labels (host : Host) (lines : list jsstring) (qs : list Quota) :
  parseQuotas host lines = Ret qs ->
  subseq (List.map type qs) (label_types lines) = true
  /\ (length qs <= length (label_types lines))%nat.
Proof.
  intros H. rewrite parseQuotas_suffix in H.
  apply quotas_from_types in H. split; [exact H |].
  apply subseq_length in H. rewrite length_map in H. exact H.
Qed.

(** The three records of a transcript with four label lines. *)
Lemma records_follow_labels_witness :
  subseq (List.map type week_records) (label_types week_lines) = true
  /\ (length week_records <= length (label_types week_lines))%nat.
Proof.
  apply (records_follow_labels (Sample.host Sample.FAKE_NOW)).
  vm_compute. reflexivity.
Defined.

Example week_records_types :
  List.map type week_records = [session; weekly; sonnet]
  /\ label_types week_lines = [session; weekly; opus; sonnet].
Proof. split; vm_compute; reflexivity. Qed.

Lemma first_return_some {A B : Type} (f : A -> outcome (option B)) (l : list A) (v : B) :
  first_return f l = Ret (Some v) -> exists x, In x l /\ f x = Ret (Some v).
Proof.
  induction l as [| x l IH]; intros H; [discriminate H |].
  cbn [first_return] in H. apply bind_ret_inv in H. destruct H as [r [Hr H]].
  destruct r as [w |].
  - injection H as ->. exists x. split; [left; reflexivity | exact Hr].
  - destruct (IH H) as [y [Hy Hf]]. exists y. split; [right; exact Hy | exact Hf].
Qed.

Lemma toISOString_ret (x : Z) (s : jsstring) :
  Date.toISOString (Date.TimeClip x) = Ret s ->
  Z.abs x <= Date.maxTime /\ s = Date.iso_string x.
Proof.
  unfold Date.TimeClip. destruct (Z.leb_spec (Z.abs x) Date.maxTime) as [Hle | Hgt].
  - cbn. intros H. injection H as <-. auto.
  - cbn. discriminate.
Qed.

Lemma computeDiffSeconds_shape (host : Host) (y : Z) (mo : option Z) (d h mi : Z)
    (tz : option jsstring) (now : Z) (a : AbsoluteTime) :
  computeDiffSeconds host y mo d h mi tz now = Ret a ->
  resolved_time (abs_seconds a) (abs_resets_at a).
Proof.
  unfold computeDiffSeconds. intros H.
  apply bind_ret_inv in H. destruct H as [c [_ H]].
  destruct (match mo with Some mo0 => _ | None => None end) as [t |]; [| discriminate H].
  destruct (local_time_value _ _ _ _ _ _) as [n |]; [| discriminate H].
  apply bind_ret_inv in H. destruct H as [s [Hs H]].
  injection H as <-. cbn [abs_seconds abs_resets_at].
  apply toISOString_ret in Hs. destruct Hs as [Hle ->].
  split; [lia |]. exists (now + (t - n)). auto.
Qed.

Lemma parseAbsoluteTime_shape (host : Host) (line : jsstring) (now : Z) (a : AbsoluteTime) :
  parseAbsoluteTime host line now = Ret (Some a) ->
  resolved_time (abs_seconds a) (abs_resets_at a).
Proof.
  unfold parseAbsoluteTime. intros H.
  apply bind_ret_inv in H. destruct H as [r [Hr H]].
  destruct r as [res |].
  - injection H as ->.
    destruct (rmatch DATE_TIME_RE line) as [dm |]; [| discriminate Hr].
    apply bind_ret_inv in Hr. destruct Hr as [res [Hres Hr]].
    destruct (0 <=? abs_seconds res); [| discriminate Hr].
    injection Hr as ->. exact (computeDiffSeconds_shape _ _ _ _ _ _ _ _ _ Hres).
  - destruct (rmatch TIME_ONLY_RE line) as [tm |]; [| discriminate H].
    apply bind_ret_inv in H. destruct H as [c [_ H]].
    apply bind_ret_inv in H. destruct H as [res [Hres H]].
    destruct (abs_seconds res <=? 0).
    + apply bind_ret_inv in H. destruct H as [res' [Hres' H]].
      injection H as ->. exact (computeDiffSeconds_shape _ _ _ _ _ _ _ _ _ Hres').
    + injection H as ->. exact (computeDiffSeconds_shape _ _ _ _ _ _ _ _ _ Hres).
Qed.

Lemma with_human_shape (host : Host) (line : jsstring) (now : Z)
    (abs : option AbsoluteTime) (r : ResetTime) :
  parseAbsoluteTime host line now = Ret abs ->
  option_map with_human abs = Some r ->
  resolved_time (reset_seconds r) (reset_at r)
  /\ reset_human r = formatDuration (reset_seconds r).
Proof.
  intros Ha Hr. destruct abs as [a |]; [| discriminate Hr].
  injection Hr as <-. split; [| reflexivity].
  exact (parseAbsoluteTime_shape host line now a Ha).
Qed.

Lemma opt_int_nonneg (g : option jsstring) : 0 <= opt_int g 0.
Proof.
  destruct g as [s |]; cbn [opt_int]; [| lia]. apply digits_nonneg. lia.
Qed.

Lemma labelled_reset_shape (host : Host) (now : Z) (line : jsstring) (r : ResetTime) :
  labelled_reset host now line = Ret (Some r) ->
  resolved_time (reset_seconds r) (reset_at r)
  /\ reset_human r = formatDuration (reset_seconds r).
Proof.
  unfold labelled_reset. destruct (negb (test RESET_WORD_RE line)); [discriminate |].
  intros H.
  assert (Hrel : forall total s,
             0 <= total ->
             Date.toISOString (Date.TimeClip (now + total * 1000)) = Ret s ->
             resolved_time total s).
  { intros total s Ht Hs. apply toISOString_ret in Hs. destruct Hs as [Hle ->].
    split; [exact Ht |]. exists (now + total * 1000). auto. }
  pose proof (opt_int_nonneg (option_map (group_text 1) (rmatch RELATIVE_DAYS line))) as Hd.
  pose proof (opt_int_nonneg (option_map (group_text 1) (rmatch RELATIVE_HOURS line))) as Hh.
  pose proof (opt_int_nonneg (option_map (group_text 1) (rmatch RELATIVE_MINS line))) as Hm.
  destruct (rmatch RELATIVE_DAYS line), (rmatch RELATIVE_HOURS line),
    (rmatch RELATIVE_MINS line);
    try (apply bind_ret_inv in H; destruct H as [s [Hs H]]; injection H as H;
         subst r; cbn [reset_seconds reset_at reset_human opt_int option_map] in *;
         split; [apply Hrel; [lia | exact Hs] | reflexivity]).
  apply bind_ret_inv in H. destruct H as [abs [Ha H]]. injection H as H.
  exact (with_human_shape host line now abs r Ha H).
Qed.

Lemma bare_reset_shape (host : Host) (now : Z) (line : jsstring) (r : ResetTime) :
  bare_reset host now line = Ret (Some r) ->
  resolved_time (reset_seconds r) (reset_at r)
  /\ reset_human r = formatDuration (reset_seconds r).
Proof.
  unfold bare_reset. destruct (negb (test BARE_CLOCK_RE line)); [discriminate |].
  destruct (test PERCENT_RE line); [discriminate |].
  intros H. apply bind_ret_inv in H. destruct H as [abs [Ha H]]. injection H as H.
  exact (with_human_shape host line now abs r Ha H).
Qed.

Lemma parseResetTime_shape (host : Host) (lines : list jsstring) (r : ResetTime) :
  parseResetTime host lines = Ret r ->
  r = unresolved
  \/ (resolved_time (reset_seconds r) (reset_at r)
      /\ reset_human r = formatDuration (reset_seconds r)).
Proof.
  unfold parseResetTime. intros H.
  apply bind_ret_inv in H. destruct H as [r1 [H1 H]].
  destruct r1 as [v |].
  - injection H as ->. right.
    apply first_return_some in H1. destruct H1 as [line [_ Hl]].
    exact (labelled_reset_shape host _ line r Hl).
  - apply bind_ret_inv in H. destruct H as [r2 [H2 H]].
    destruct r2 as [v |].
    + injection H as ->. right.
      apply first_return_some in H2. destruct H2 as [line [_ Hl]].
      exact (bare_reset_shape host _ line r Hl).
    + injection H as <-. left. reflexivity.
Qed.

Lemma quotas_from_reset (host : Host) (fuel : nat) :
  forall s qs q,
    quotas_from host fuel s = Ret qs -> In q qs ->
    exists sect r,
      parseResetTime host sect = Ret r
      /\ resets_at q = reset_at r
      /\ time_remaining_seconds q = reset_seconds r
      /\ time_remaining_human q = reset_human r.
Proof.
  induction fuel as [| fuel IH]; intros s qs q H Hq.
  - cbn in H. injection H as <-. destruct Hq.
  - destruct s as [| line tl]; [cbn in H; injection H as <-; destruct Hq |].
    destruct (labelMatch line) as [t |] eqn:El.
    + rewrite (quotas_from_label host line tl fuel t El) in H.
      destruct (find_percent (firstn 6 (line :: section_rest tl)) 0) as [[k pMatch] |].
      * apply bind_ret_inv in H. destruct H as [r [Hr H]].
        apply bind_ret_inv in H. destruct H as [rest [Hrest H]].
        injection H as <-. destruct Hq as [<- | Hq].
        -- exists (line :: section_rest tl), r. cbn. auto.
        -- exact (IH _ _ _ Hrest Hq).
      * exact (IH _ _ _ H Hq).
    + rewrite (quotas_from_plain host line tl fuel El) in H.
      exact (IH _ _ _ H Hq).
Qed.

(** X6: every record either has no reset time (empty instant, zero seconds,
    empty text) or has one: the seconds are not negative, the text is
    [formatDuration] of the seconds and the instant is the ISO form of a time
    value. *)
Theorem record_times (host : Host) (lines : list jsstring) (qs : list Quota) (q : Quota) :
  parseQuotas host lines = Ret qs -> In q qs ->
  unresolved_record q \/ resolved q.
Proof.
  intros H Hq. rewrite parseQuotas_suffix in H.
  destruct (quotas_from_reset host _ _ _ _ H Hq) as [sect [r [Hr [E1 [E2 E3]]]]].
  destruct (parseResetTime_shape host sect r Hr) as [-> | [[Hs [t [Ht Hat]]] Hh]].
  - left. unfold unresolved_record. rewrite E1, E2, E3. auto.
  - right. unfold resolved. rewrite E1, E2, E3.
    split; [exact Hs |]. split; [exact Hh |]. exists t. auto.
Qed.

(** The two records of a transcript whose session section has a clock
    time and whose week section has no reset line: the first has a reset
    time, the second has none. *)
Lemma record_times_witness :
  resolved timed_record /\ unresolved_record untimed_record.
Proof.
  assert (H : parseQuotas (Sample.host Sample.FAKE_NOW) mixed_lines
              = Ret [timed_record; untimed_record])
    by (vm_compute; reflexivity).
  split.
  - destruct (record_times (Sample.host Sample.FAKE_NOW) mixed_lines
                [timed_record; untimed_record] timed_record H)
      as [[E _] | R].
    + left. reflexivity.
    + discriminate E.
    + exact R.
  - destruct (record_times (Sample.host Sample.FAKE_NOW) mixed_lines
                [timed_record; untimed_record] untimed_record H)
      as [U | [_ [E _]]].
    + right. left. reflexivity.
    + exact U.
    + discriminate E.
Defined.

(** ** Sections *)

Lemma section_rest_boundary (tl : list jsstring) (b : jsstring) (more : list jsstring) :
  is_boundary b = true -> section_rest (tl ++ b :: more) = section_rest tl.
Proof.
  intros Hb. induction tl as [| a tl IH]; cbn [app section_rest].
  - rewrite Hb. reflexivity.
  - destruct (is_boundary a); [reflexivity |]. f_equal. exact IH.
Qed.

Lemma section_rest_length (l : list jsstring) :
  (length (section_rest l) <= length l)%nat.
Proof.
  induction l as [| a l IH]; cbn [section_rest length]; [lia |].
  destruct (is_boundary a); cbn [length]; lia.
Qed.

Lemma section_rest_is_inside (l : list jsstring) : inside (section_rest l).
Proof.
  induction l as [| a l IH]; cbn [section_rest]; [constructor |].
  destruct (is_boundary a) eqn:E; constructor; assumption.
Qed.

Lemma section_rest_next (l : list jsstring) :
  (length (section_rest l) < length l)%nat ->
  exists b, nth_error l (length (section_rest l)) = Some b /\ is_boundary b = true.
Proof.
  induction l as [| a l IH]; cbn [section_rest length]; [lia |].
  destruct (is_boundary a) eqn:E; cbn [length]; intros H.
  - exists a. auto.
  - apply IH. lia.
Qed.

Lemma quotas_from_nil (host : Host) (fuel : nat) : quotas_from host fuel [] = Ret [].
Proof. destruct fuel; reflexivity. Qed.

Lemma bind_ret_right {A : Type} (m : outcome (list A)) :
  (x <- m ;; Ret ([] ++ x)) = m.
Proof. destruct m; reflexivity. Qed.

Lemma quotas_from_boundary (host : Host) (b : jsstring) (more : list jsstring) :
  is_boundary b = true ->
  forall n p f,
    (length p <= n)%nat -> (length (p ++ b :: more) <= f)%nat ->
    quotas_from host f (p ++ b :: more)
    = (q1 <- quotas_from host f p ;;
       q2 <- quotas_from host f (b :: more) ;;
       Ret (q1 ++ q2)).
Proof.
  intros Hb. induction n as [| n IH]; intros p f Hn Hf.
  - destruct p; [| cbn in Hn; lia].
    rewrite quotas_from_nil. cbn [app bind]. symmetry. apply bind_ret_right.
  - destruct p as [| line tl].
    { rewrite quotas_from_nil. cbn [app bind]. symmetry. apply bind_ret_right. }
    destruct f as [| f]; [cbn in Hf; lia |].
    cbn [app length] in Hn, Hf.
    assert (Hmore : quotas_from host (S f) (b :: more) = quotas_from host f (b :: more)).
    { apply quotas_from_fuel; rewrite length_app in Hf; cbn [length] in *; lia. }
    rewrite Hmore. cbn [app].
    destruct (labelMatch line) as [t |] eqn:El.
    + rewrite !(quotas_from_label host line _ f t El).
      rewrite (section_rest_boundary tl b more Hb).
      destruct (find_percent (firstn 6 (line :: section_rest tl)) 0) as [[k pMatch] |] eqn:Ep.
      * assert (Hk : (k <= length tl)%nat).
        { apply find_percent_bound in Ep. rewrite length_firstn in Ep.
          cbn [length] in Ep. pose proof (section_rest_length tl). lia. }
        rewrite skipn_app. replace (k - length tl)%nat with O by lia.
        cbn [skipn].
        rewrite (IH (skipn k tl) f).
        -- destruct (parseResetTime host (line :: section_rest tl)) as [r | e];
             [| reflexivity].
           cbn [bind].
           destruct (quotas_from host f (skipn k tl)) as [q1 | e]; [| reflexivity].
           cbn [bind].
           destruct (quotas_from host f (b :: more)) as [q2 | e]; reflexivity.
        -- rewrite length_skipn. lia.
        -- rewrite length_app, length_skipn. rewrite length_app in Hf.
           cbn [length] in *. lia.
      * apply IH; lia.
    + rewrite !(quotas_from_plain host line _ f El). apply IH; lia.
Qed.

(** X7: a transcript is read section by section: cut before a label line or
    a cost header, its records are those of the part before the cut followed
    by those of the part from the cut on (and it raises when one of the
    parts does). *)
Theorem sections_compose (host : Host) (p : list jsstring) (b : jsstring)
    (more : list jsstring) :
  is_boundary b = true ->
  parseQuotas host (p ++ b :: more)
  = (q1 <- parseQuotas host p ;;
     q2 <- parseQuotas host (b :: more) ;;
     Ret (q1 ++ q2)).
Proof.
  intros Hb. rewrite !parseQuotas_suffix.
  rewrite (quotas_from_boundary host b more Hb (length p) p _ (le_n _) (le_n _)).
  rewrite (quotas_from_fuel host (length (p ++ b :: more)) (length p) p);
    [| rewrite length_app; lia | lia].
  rewrite (quotas_from_fuel host (length (p ++ b :: more)) (length (b :: more)) (b :: more));
    [reflexivity | rewrite length_app; lia | lia].
Qed.

(** A session section followed by a week section. *)
Lemma sections_compose_witness :
  parseQuotas (Sample.host Sample.FAKE_NOW)
    (Sample.lines_of ["Current session"; "14% used"; "Resets in 3h 20m"]%string
     ++ lit "Current week (all models)"
        :: Sample.lines_of ["7% used"; "Resets in 5d 2h"]%string)
  = (q1 <- parseQuotas (Sample.host Sample.FAKE_NOW)
             (Sample.lines_of ["Current session"; "14% used"; "Resets in 3h 20m"]%string) ;;
     q2 <- parseQuotas (Sample.host Sample.FAKE_NOW)
             (lit "Current week (all models)"
              :: Sample.lines_of ["7% used"; "Resets in 5d 2h"]%string) ;;
     Ret (q1 ++ q2)).
Proof.
  apply (sections_compose (Sample.host Sample.FAKE_NOW)). vm_compute. reflexivity.
Defined.

(** X8: [findNextSectionBoundary] from a line of the transcript returns the
    index of the first label line or cost header after it, the number of
    lines when there is none: no line between is one, and the line at that
    index, if any, is one. *)
Theorem next_boundary_is_first (lines : list jsstring) (i : nat) :
  (i < length lines)%nat ->
  let k := findNextSectionBoundary lines i in
  (i < k <= length lines)%nat
  /\ inside (slice (S i) k lines)
  /\ ((k < length lines)%nat ->
      exists b, nth_error lines k = Some b /\ is_boundary b = true).
Proof.
  intros Hi. unfold findNextSectionBoundary.
  rewrite scan_boundary_section by (rewrite length_skipn; lia).
  set (tl := skipn (S i) lines).
  pose proof (section_rest_length tl) as Hlen.
  assert (Htl : length tl = (length lines - S i)%nat) by apply length_skipn.
  cbv zeta. split; [lia |]. split.
  - unfold slice. fold tl.
    replace (S i + length (section_rest tl) - S i)%nat with (length (section_rest tl))
      by lia.
    rewrite section_rest_prefix. apply section_rest_is_inside.
  - intros Hk. destruct (section_rest_next tl) as [b [Hb1 Hb2]]; [lia |].
    exists b. split; [| exact Hb2].
    unfold tl in Hb1. rewrite nth_error_skipn in Hb1. exact Hb1.
Qed.

(** The end of the first section of the same transcript. *)
Lemma next_boundary_is_first_witness :
  let k := findNextSectionBoundary week_lines 0 in
  (0 < k <= length week_lines)%nat
  /\ inside (slice 1 k week_lines)
  /\ ((k < length week_lines)%nat ->
      exists b, nth_error week_lines k = Some b /\ is_boundary b = true).
Proof.
  apply (next_boundary_is_first week_lines 0). vm_compute. lia.
Defined.

(** ** Results of the coordinator and the status text *)

Lemma join_nonempty (sep x : jsstring) (tl : list jsstring) :
  x <> [] -> join sep (x :: tl) <> [].
Proof.
  intros Hx. cbn [join]. destruct tl as [| y tl]; [exact Hx |].
  destruct x; [congruence | discriminate].
Qed.

Lemma usage_part_nonempty (prefix : jsstring) (q : Quota) (tl : list jsstring) :
  join (lit " | ") (usage_part prefix (Some q) ++ tl) <> [].
Proof.
  cbn [usage_part app]. apply join_nonempty.
  intros E. apply (f_equal (@length cu)) in E.
  rewrite !length_app in E. cbn in E. lia.
Qed.

Lemma find_type_head (q : Quota) (qs : list Quota) :
  exists q', find_type (type q) (Some (q :: qs)) = Some q'.
Proof.
  exists q. cbn [find_type find]. destruct (type q); reflexivity.
Qed.

(** With a record the status text has a part. *)
Lemma status_text_nonempty (data : UsageData) (q : Quota) (qs : list Quota) :
  quotas data = Some (q :: qs) -> formatStatusText data <> [].
Proof.
  intros Eq E. unfold formatStatusText in E. rewrite Eq in E.
  destruct (find_type_head q qs) as [q' Hq'].
  destruct (type q); rewrite Hq' in E.
  - exact (usage_part_nonempty _ _ _ E).
  - destruct (find_type session _);
      [exact (usage_part_nonempty _ _ _ E) | exact (usage_part_nonempty _ _ _ E)].
  - destruct (find_type session _); [exact (usage_part_nonempty _ _ _ E) |].
    destruct (find_type weekly _);
      [exact (usage_part_nonempty _ _ _ E) | exact (usage_part_nonempty _ _ _ E)].
  - destruct (find_type session _); [exact (usage_part_nonempty _ _ _ E) |].
    destruct (find_type weekly _); [exact (usage_part_nonempty _ _ _ E) |].
    destruct (find_type opus _); [exact (usage_part_nonempty _ _ _ E) |].
    cbn [usage_part app] in E. revert E. apply join_nonempty.
    intros E. apply (f_equal (@length cu)) in E.
    rewrite !length_app in E. cbn in E. lia.
Qed.

(** X9: the status text is empty exactly when the data hold no record. *)
Theorem status_text_empty_iff (data : UsageData) :
  formatStatusText data = [] <-> quotas data = None \/ quotas data = Some [].
Proof.
  split.
  - intros E. destruct (quotas data) as [[| q qs] |] eqn:Eq; [auto | | auto].
    exfalso. exact (status_text_nonempty data q qs Eq E).
  - intros [E | E]; unfold formatStatusText; rewrite E; reflexivity.
Qed.

(** X10: an ok result of [parseCliOutput] carries no authentication error
    (every code of the table is in [AUTH_ERROR_CODES], so a detected error
    ends the parse before) and its status text is not empty. *)
Theorem ok_result_shape (host : Host) (raw : jsstring) (d : UsageData) :
  parseCliOutput host raw = Ret (ok d) ->
  auth_error d = None /\ formatStatusText d <> [].
Proof.
  rewrite parseCliOutput_lines. unfold outcome_of_lines.
  destruct (first_pattern AUTH_PATTERNS _); [discriminate |].
  destruct (parseQuotas host (normalized_lines raw)) as [[| q qs] | e];
    cbn [bind]; try discriminate.
  intros H. injection H as <-. cbn [auth_error].
  split; [reflexivity |].
  eapply status_text_nonempty. reflexivity.
Qed.

(** The result on the two-section fixture. *)
Lemma ok_result_shape_witness :
  auth_error clean_fixture_data = None /\ formatStatusText clean_fixture_data <> [].
Proof.
  apply (ok_result_shape (Sample.host Sample.FAKE_NOW) clean_fixture).
  vm_compute. reflexivity.
Defined.

Example clean_fixture_status :
  formatStatusText clean_fixture_data = lit "14% 3h20m | 7% 5d 2h".
Proof. vm_compute. reflexivity. Qed.

Lemma first_pattern_in (l : list (regex * AuthError)) (text : jsstring) (e : AuthError) :
  first_pattern l text = Some e -> In (Message e) (List.map (fun p => Message (snd p)) l).
Proof.
  induction l as [| [p e'] l IH]; [discriminate |].
  cbn [first_pattern List.map snd]. destruct (test p text).
  - intros H. injection H as ->. left. reflexivity.
  - intros H. right. exact (IH H).
Qed.

(** X11: [parseCliOutput] ends in one of four ways: it raises [RangeError];
    it reports that the user is not authenticated, with a message of the
    table; it reports the error that no quota data was found; or it returns
    data. It never reports an untrusted workspace or another error. *)
Theorem parseCliOutput_outcomes (host : Host) (raw : jsstring) :
  parseCliOutput host raw = Throw RangeError
  \/ (exists m, In m auth_messages /\ parseCliOutput host raw = Ret (not_authenticated m))
  \/ parseCliOutput host raw = Ret (error no_data_message)
  \/ (exists d, parseCliOutput host raw = Ret (ok d)).
Proof.
  rewrite parseCliOutput_lines. unfold outcome_of_lines.
  destruct (first_pattern AUTH_PATTERNS _) as [e |] eqn:Ee.
  - right. left. exists (Message e). split; [| reflexivity].
    exact (first_pattern_in _ _ _ Ee).
  - destruct (parseQuotas host (normalized_lines raw)) as [[| q qs] | []]; cbn [bind].
    + right. right. left. reflexivity.
    + right. right. right. eexists. reflexivity.
    + left. reflexivity.
Qed.

Lemma QuotaType_eqb_eq (a b : QuotaType) : QuotaType_eqb a b = true -> a = b.
Proof. destruct a, b; intros H; (reflexivity || discriminate H). Qed.

Lemma find_covered (t : QuotaType) (qs more : list Quota) :
  types_covered qs more = true ->
  find (fun q => QuotaType_eqb (type q) t) (qs ++ more)
  = find (fun q => QuotaType_eqb (type q) t) qs.
Proof.
  intros Hc. destruct (find (fun q => QuotaType_eqb (type q) t) qs) as [q |] eqn:E.
  - revert E. induction qs as [| a qs IH]; [discriminate |].
    cbn [find app]. destruct (QuotaType_eqb (type a) t); [auto |].
    intros E. clear IH Hc.
    induction qs as [| b qs IH]; [discriminate |].
    cbn [find app] in *. destruct (QuotaType_eqb (type b) t); auto.
  - assert (Hnone : forall q, In q qs -> QuotaType_eqb (type q) t = false).
    { intros q Hq. exact (find_none _ _ E q Hq). }
    assert (Hmore : forall q, In q more -> QuotaType_eqb (type q) t = false).
    { intros q Hq. unfold types_covered in Hc.
      rewrite forallb_forall in Hc. specialize (Hc q Hq).
      apply existsb_exists in Hc. destruct Hc as [q' [Hq' Et]].
      apply QuotaType_eqb_eq in Et. rewrite <- Et. auto. }
    clear E Hc. induction qs as [| a qs IH]; cbn [app find].
    + induction more as [| b more IHm]; [reflexivity |].
      cbn [find]. rewrite (Hmore b (or_introl eq_refl)).
      apply IHm. intros q Hq. apply Hmore. right. exact Hq.
    + rewrite (Hnone a (or_introl eq_refl)).
      apply IH. intros q Hq. apply Hnone. right. exact Hq.
Qed.

(** X12: the status text shows the first record of each type: records added
    after the list, of types the list already has, do not change it. *)
Theorem status_text_first_of_type (d1 d2 : UsageData) (qs more : list Quota) :
  quotas d1 = Some qs -> quotas d2 = Some (qs ++ more) ->
  types_covered qs more = true ->
  formatStatusText d2 = formatStatusText d1.
Proof.
  intros E1 E2 Hc. unfold formatStatusText, find_type. rewrite E1, E2.
  rewrite !(find_covered _ qs more Hc). reflexivity.
Qed.

(** A second session record after the records of the scenario. *)
Lemma status_text_first_of_type_witness :
  formatStatusText scenario_data_more = formatStatusText scenario_data.
Proof.
  apply (status_text_first_of_type scenario_data scenario_data_more
           scenario_quotas [late_session]); reflexivity.
Defined.

(** ** Dated times, unknown zones and short durations *)

(** X13: a clock time with a zone name the host does not know is not
    resolved without the zone: the formatter of the host raises and
    [parseAbsoluteTime] with it. *)
Theorem unknown_zone_raises (host : Host) (line : jsstring) (now : Z) (z : jsstring) :
  zone_of line = Some z -> zone_parts host z now = None ->
  rmatch TIME_ONLY_RE line <> None ->
  parseAbsoluteTime host line now = Throw RangeError.
Proof.
  intros Hz Hp Ht. unfold parseAbsoluteTime. fold (zone_of line). rewrite Hz.
  assert (Hnow : getNowInTz host z now = Throw RangeError).
  { unfold getNowInTz. rewrite Hp. reflexivity. }
  destruct (rmatch DATE_TIME_RE line) as [dm |].
  - unfold computeDiffSeconds. rewrite Hnow. reflexivity.
  - cbn [bind]. destruct (rmatch TIME_ONLY_RE line) as [tm |]; [| congruence].
    rewrite Hnow. reflexivity.
Qed.

(** A zone of another planet. *)
Lemma unknown_zone_raises_witness :
  parseAbsoluteTime (Sample.host Sample.FAKE_NOW) phobos_line Sample.FAKE_NOW
  = Throw RangeError.
Proof.
  apply (unknown_zone_raises (Sample.host Sample.FAKE_NOW) phobos_line Sample.FAKE_NOW
           (lit "Mars/Phobos")).
  - vm_compute. reflexivity.
  - vm_compute. reflexivity.
  - vm_compute. discriminate.
Defined.

(** The exception leaves [parseCliOutput]. *)
Example unknown_zone_transcript :
  parseCliOutput (Sample.host Sample.FAKE_NOW)
    (Sample.text_of ["Current session"; "14% used"; "Resets 3pm (Mars/Phobos)"]%string)
  = Throw RangeError.
Proof. vm_compute. reflexivity. Qed.

(** X14: a line with a date and a clock time is resolved by its date, in
    the year written or else the current year of the system zone: with [t]
    the time value of the date and [n] that of the calendar reading of now,
    both taken as local times, the seconds are [(t - n) / 1000] and 0 when
    the date is past, and the instant is [now + (t - n)]. A past date is
    neither moved to the next year nor read as a clock time alone. *)
Theorem dated_time_resolves (host : Host) (line : jsstring) (now : Z)
    (dm : rmatch_result) (mo : Z) (c : civil) (t n : Z) :
  rmatch DATE_TIME_RE line = Some dm ->
  month_of_name host (group_text 1 dm) = Some mo ->
  civil_now host (zone_of line) now = Ret c ->
  local_time_value host
    (opt_int (group 3 dm) (year (local_parts host now))) mo
    (parseInt (group_text 2 dm))
    (toHour24 (parseInt (group_text 4 dm)) (group_text 6 dm))
    (opt_int (group 5 dm) 0) = Some t ->
  local_time_value host (year c) (month c) (day c) (hour c) (minute c) = Some n ->
  Z.abs (now + (t - n)) <= Date.maxTime ->
  parseAbsoluteTime host line now
  = Ret (Some {| abs_resets_at := Date.iso_string (now + (t - n));
                 abs_seconds := Z.max 0 ((t - n) / 1000) |}).
Proof.
  intros Hm Hmo Hc Ht Hn Hclip.
  unfold parseAbsoluteTime. fold (zone_of line). rewrite Hm, Hmo.
  unfold computeDiffSeconds. rewrite Ht.
  unfold civil_now in Hc. rewrite Hc. cbn [bind]. rewrite Hn.
  rewrite (TimeClip_valid _ Hclip). cbn [Date.toISOString bind abs_seconds].
  rewrite (proj2 (Z.leb_le 0 _) (Z.le_max_l 0 _)). reflexivity.
Qed.

(** A reset on January 2 read on December 30. *)
Lemma dated_time_resolves_witness :
  parseAbsoluteTime (Sample.host year_end) january_line year_end
  = Ret (Some {| abs_resets_at :=
                   Date.iso_string (year_end + (1767366000000 - 1798632000000));
                 abs_seconds := Z.max 0 ((1767366000000 - 1798632000000) / 1000) |}).
Proof.
  apply (dated_time_resolves (Sample.host year_end) january_line year_end
           january_match 0 year_end_utc 1767366000000 1798632000000).
  - vm_compute. reflexivity.
  - vm_compute. reflexivity.
  - vm_compute. reflexivity.
  - vm_compute. reflexivity.
  - vm_compute. reflexivity.
  - vm_compute. discriminate.
Defined.

(** Two days before the end of 2026 a reset on January 2 is read as
    January 2, 2026: no time is left. *)
Example january_at_year_end :
  parseAbsoluteTime (Sample.host year_end) january_line year_end
  = Ret (Some {| abs_resets_at := lit "2026-01-02T15:00:00.000Z"; abs_seconds := 0 |}).
Proof. vm_compute. reflexivity. Qed.

(** X15: below one minute, and on negative input, [formatDuration] gives
    "< 1m". *)
Theorem formatDuration_below_minute (n : Z) :
  n < 60 -> formatDuration n = lit "< 1m".
Proof.
  intros Hn. unfold formatDuration.
  assert (Hq : forall a k, 60 <= k -> a < 60 -> a / k <= 0).
  { intros a k Hk Ha. destruct (Z_le_gt_dec 0 a) as [Hpos | Hneg].
    - rewrite Z.div_small by lia. lia.
    - apply Z.div_le_upper_bound; lia. }
  assert (Hr : forall k, 60 <= k -> Z.rem n k < 60).
  { intros k Hk. destruct (Z_le_gt_dec 0 n) as [Hpos | Hneg].
    - pose proof (Z.rem_le n k). lia.
    - pose proof (Z.rem_nonpos n k). lia. }
  assert (Hd : n / 86400 <= 0) by (apply Hq; lia).
  assert (Hh : Z.rem n 86400 / 3600 <= 0) by (apply Hq; [lia | apply Hr; lia]).
  assert (Hm : Z.rem n 3600 / 60 <= 0) by (apply Hq; [lia | apply Hr; lia]).
  rewrite (proj2 (Z.ltb_ge 0 _) Hd), (proj2 (Z.ltb_ge 0 _) Hh), (proj2 (Z.ltb_ge 0 _) Hm).
  reflexivity.
Qed.

(** A day, an hour, a minute and a second before zero. *)
Lemma formatDuration_below_minute_witness :
  -90061 < 60 /\ formatDuration (-90061) = lit "< 1m".
Proof. split; [lia | apply (formatDuration_below_minute (-90061)); lia]. Defined.

(** ** Reading a rendered duration back *)

Lemma uint_digits (d : Decimal.uint) : all_in digit (lit (NilEmpty.string_of_uint d)).
Proof.
  induction d; cbn [NilEmpty.string_of_uint]; try constructor;
    solve [reflexivity | exact IHd].
Qed.

Lemma lit_cons (c : ascii) (s : string) : lit (String c s) = N_of_ascii c :: lit s.
Proof. reflexivity. Qed.

Lemma parse_digits_uint_acc (d : Decimal.uint) :
  forall acc, parse_digits (Z.pos acc) (lit (NilEmpty.string_of_uint d))
              = Z.pos (Pos.of_uint_acc d acc).
Proof.
  induction d; intros acc; cbn [NilEmpty.string_of_uint Pos.of_uint_acc];
    try reflexivity;
    rewrite lit_cons; cbn [parse_digits];
    match goal with |- (if is_digit ?c then _ else _) = _ =>
      change (is_digit c) with true end;
    cbv iota; rewrite <- IHd; f_equal;
    match goal with |- context [Z.of_N ?x] =>
      let v := eval vm_compute in (Z.of_N x) in change (Z.of_N x) with v end;
    lia.
Qed.

Lemma parse_digits_uint (d : Decimal.uint) :
  parse_digits 0 (lit (NilEmpty.string_of_uint d)) = Z.of_N (Pos.of_uint d).
Proof.
  induction d; cbn [NilEmpty.string_of_uint Pos.of_uint]; try reflexivity;
    rewrite lit_cons; cbn [parse_digits];
    match goal with |- (if is_digit ?c then _ else _) = _ =>
      change (is_digit c) with true end;
    cbv iota;
    first [exact IHd | apply (parse_digits_uint_acc d)].
Qed.

(** The decimal rendering of a number that is not negative is a text of
    digits that reads back as the number. *)
Lemma of_Z_reads_back (z : Z) :
  0 <= z ->
  of_Z z <> [] /\ all_in digit (of_Z z) /\ parseInt (of_Z z) = z.
Proof.
  intros Hz. destruct z as [| p | p]; [| | lia].
  - split; [discriminate |]. split; [repeat constructor | reflexivity].
  - unfold of_Z. cbn [Z.to_int NilZero.string_of_int].
    pose proof (DecimalPos.Unsigned.to_uint_nonnil p) as Hnil.
    pose proof (DecimalPos.Unsigned.of_to p) as Hof.
    unfold NilZero.string_of_uint.
    destruct (Pos.to_uint p) as [| u | u | u | u | u | u | u | u | u | u] eqn:E;
      try congruence;
      (split; [discriminate |]);
      (split; [apply uint_digits |]);
      unfold parseInt; rewrite parse_digits_uint, Hof; reflexivity.
Qed.

Lemma hours_of (n : Z) : 0 <= n -> Z.rem n 86400 / 3600 = (n / 3600) mod 24.
Proof.
  intros. rewrite Z.rem_mod_nonneg by lia. Z.to_euclidean_division_equations; lia.
Qed.

Lemma mins_of (n : Z) : 0 <= n -> Z.rem n 3600 / 60 = (n / 60) mod 60.
Proof.
  intros. rewrite Z.rem_mod_nonneg by lia. Z.to_euclidean_division_equations; lia.
Qed.

Lemma shown_nonneg (n : Z) : 0 <= n -> 0 <= shown n.
Proof.
  intros Hn. unfold shown. destruct (86400 <=? n);
    Z.to_euclidean_division_equations; lia.
Qed.

(** Rendering forgets what [shown] forgets. *)
Lemma formatDuration_shown (n : Z) :
  60 <= n -> formatDuration (shown n) = formatDuration n.
Proof.
  intros Hn. pose proof (shown_nonneg n ltac:(lia)) as Hs.
  unfold formatDuration.
  rewrite !hours_of, !mins_of by lia.
  unfold shown in *. destruct (Z.leb_spec 86400 n) as [Hd | Hd].
  - assert (E1 : n / 3600 * 3600 / 86400 = n / 86400)
      by (Z.to_euclidean_division_equations; lia).
    assert (E2 : n / 3600 * 3600 / 3600 = n / 3600) by (apply Z.div_mul; lia).
    assert (E3 : 0 < n / 86400) by (Z.to_euclidean_division_equations; lia).
    rewrite E1, E2. rewrite (proj2 (Z.ltb_lt 0 _) E3). reflexivity.
  - assert (E1 : n / 60 * 60 / 86400 = n / 86400)
      by (Z.to_euclidean_division_equations; lia).
    assert (E2 : n / 60 * 60 / 3600 = n / 3600)
      by (Z.to_euclidean_division_equations; lia).
    assert (E3 : n / 60 * 60 / 60 = n / 60) by (apply Z.div_mul; lia).
    rewrite E1, E2, E3. reflexivity.
Qed.

Lemma render_plain (k : time_unit) (z : Z) (sep : jsstring) :
  render (plain_token k z sep) = of_Z z ++ letter_of k :: sep.
Proof. reflexivity. Qed.

(** From one minute on the rendering is a sequence of duration tokens. *)
Lemma formatDuration_tokens (n : Z) :
  60 <= n -> formatDuration n = render_all (duration_tokens n).
Proof.
  intros Hn. unfold formatDuration, duration_tokens.
  destruct (0 <? n / 86400) eqn:Ed.
  - destruct (0 <? Z.rem n 86400 / 3600); unfold render_all;
      cbn [List.map List.concat]; rewrite !render_plain; cbn [letter_of];
      rewrite ?app_nil_r, <- ?app_assoc; reflexivity.
  - destruct (0 <? Z.rem n 86400 / 3600) eqn:Eh.
    + destruct (0 <? Z.rem n 3600 / 60); unfold render_all;
        cbn [List.map List.concat]; rewrite !render_plain; cbn [letter_of];
        rewrite ?app_nil_r, <- ?app_assoc; reflexivity.
    + assert (Em : 0 < Z.rem n 3600 / 60).
      { apply Z.ltb_ge in Ed, Eh. rewrite hours_of in Eh by lia.
        rewrite mins_of by lia. Z.to_euclidean_division_equations; lia. }
      rewrite (proj2 (Z.ltb_lt 0 _) Em). unfold render_all.
      cbn [List.map List.concat]. rewrite !render_plain. cbn [letter_of].
      rewrite ?app_nil_r, <- ?app_assoc. reflexivity.
Qed.

Lemma plain_token_ok (k : time_unit) (z : Z) (sep : jsstring) :
  0 <= z -> digit_free sep -> token_ok (plain_token k z sep).
Proof.
  intros Hz Hsep. destruct (of_Z_reads_back z Hz) as [H1 [H2 _]].
  unfold token_ok. cbn [plain_token t_digits t_gap t_unit t_letter t_text].
  split; [exact H1 |]. split; [exact H2 |]. split; [constructor |].
  split; [destruct k; reflexivity | exact Hsep].
Qed.

Lemma duration_tokens_ok (n : Z) : 0 <= n -> Forall token_ok (duration_tokens n).
Proof.
  intros Hn. unfold duration_tokens.
  assert (H1 : 0 <= n / 86400) by (Z.to_euclidean_division_equations; lia).
  assert (H2 : 0 <= Z.rem n 86400 / 3600)
    by (rewrite hours_of by lia; Z.to_euclidean_division_equations; lia).
  assert (H3 : 0 <= Z.rem n 3600 / 60)
    by (rewrite mins_of by lia; Z.to_euclidean_division_equations; lia).
  assert (Hsp : digit_free (lit " ")) by (repeat constructor).
  assert (Hnil : digit_free []) by constructor.
  destruct (0 <? n / 86400); [destruct (0 <? Z.rem n 86400 / 3600) |
    destruct (0 <? Z.rem n 86400 / 3600); [destruct (0 <? Z.rem n 3600 / 60) |]];
    repeat (first [apply Forall_nil | apply Forall_cons]);
    apply plain_token_ok; assumption.
Qed.

Lemma opt_int_of_Z (z : Z) : 0 <= z -> opt_int (Some (of_Z z)) 0 = z.
Proof. intros Hz. cbn [opt_int]. exact (proj2 (proj2 (of_Z_reads_back z Hz))). Qed.

Lemma duration_tokens_seconds (n : Z) :
  60 <= n -> seconds_of (duration_tokens n) = shown n.
Proof.
  intros Hn. unfold duration_tokens, shown, seconds_of.
  assert (H1 : 0 <= n / 86400) by (Z.to_euclidean_division_equations; lia).
  assert (H2 : 0 <= Z.rem n 86400 / 3600)
    by (rewrite hours_of by lia; Z.to_euclidean_division_equations; lia).
  assert (H3 : 0 <= Z.rem n 3600 / 60)
    by (rewrite mins_of by lia; Z.to_euclidean_division_equations; lia).
  destruct (Z.ltb_spec 0 (n / 86400)) as [Ed | Ed].
  - assert (Hge : (86400 <=? n) = true)
      by (apply Z.leb_le; Z.to_euclidean_division_equations; lia).
    rewrite Hge.
    destruct (Z.ltb_spec 0 (Z.rem n 86400 / 3600)) as [Eh | Eh];
      cbn [amount_of plain_token t_unit t_digits unit_eqb];
      rewrite ?opt_int_of_Z by lia; cbn [opt_int];
      rewrite hours_of in * by lia; Z.to_euclidean_division_equations; lia.
  - assert (Hlt : (86400 <=? n) = false)
      by (apply Z.leb_gt; Z.to_euclidean_division_equations; lia).
    rewrite Hlt.
    destruct (Z.ltb_spec 0 (Z.rem n 86400 / 3600)) as [Eh | Eh];
      [destruct (Z.ltb_spec 0 (Z.rem n 3600 / 60)) as [Em | Em] |];
      cbn [amount_of plain_token t_unit t_digits unit_eqb];
      rewrite ?opt_int_of_Z by lia; cbn [opt_int];
      rewrite hours_of, mins_of in * by lia; Z.to_euclidean_division_equations; lia.
Qed.

Lemma duration_tokens_some (n : Z) : duration_tokens n <> [].
Proof.
  unfold duration_tokens.
  destruct (0 <? n / 86400); [destruct (0 <? Z.rem n 86400 / 3600) |
    destruct (0 <? Z.rem n 86400 / 3600); [destruct (0 <? Z.rem n 3600 / 60) |]];
    discriminate.
Qed.

Lemma in_nonempty {A : Type} (x : A) (l : list A) : In x l -> l <> [].
Proof. intros H E. rewrite E in H. destruct H. Qed.

(** A line that starts with "Resets" has the reset word. *)
Lemma resets_line (rest : jsstring) : test RESET_WORD_RE (lit "Resets" ++ rest) = true.
Proof.
  apply test_true.
  destruct (rmatch_here RESET_WORD_RE (lit "Resets" ++ rest)) as [m [_ [Hm _]]];
    [| exists m; exact Hm].
  apply (in_nonempty (rest, [])).
  { unfold RESET_WORD_RE. apply in_mtch_alt. left.
    change (seq_of [ci "rese"; sp_star; Opt (ci "t"); sp_star; ci "s"])
      with (Cat (ci "rese") (Cat sp_star (Cat (Opt (ci "t")) (Cat sp_star (ci "s"))))).
    apply in_mtch_cat. exists (lit "ts" ++ rest, []). split.
    { cbn. left. reflexivity. }
    apply in_mtch_cat. exists (lit "ts" ++ rest, []). split.
    { apply (star_cls_reaches space [] (lit "ts" ++ rest) []). constructor. }
    apply in_mtch_cat. exists (lit "s" ++ rest, []). split.
    { apply in_mtch_opt. left. cbn. left. reflexivity. }
    apply in_mtch_cat. exists (lit "s" ++ rest, []). split.
    { apply (star_cls_reaches space [] (lit "s" ++ rest) []). constructor. }
    cbn. left. reflexivity. }
Qed.

(** X16: a duration of one minute or more, rendered by [formatDuration]
    and written after "Resets in ", is read back by [parseResetTime] as the
    seconds the rendering shows (whole hours from one day on, whole minutes
    below), and rendering these gives the same text. *)
Theorem duration_reads_back (host : Host) (n : Z) :
  60 <= n ->
  Z.abs (clock host + shown n * 1000) <= Date.maxTime ->
  exists r,
    parseResetTime host [lit "Resets in " ++ formatDuration n] = Ret r
    /\ reset_seconds r = shown n
    /\ reset_human r = formatDuration n
    /\ reset_at r = Date.iso_string (clock host + shown n * 1000).
Proof.
  intros Hn Hclip.
  pose proof (duration_tokens_ok n ltac:(lia)) as Hok.
  assert (Hhead : digit_free (lit "Resets in ")) by (repeat constructor).
  set (line := lit "Resets in " ++ formatDuration n).
  assert (Eline : line = lit "Resets in " ++ render_all (duration_tokens n)).
  { unfold line. rewrite (formatDuration_tokens n Hn). reflexivity. }
  assert (Hword : test RESET_WORD_RE line = true).
  { unfold line. change (lit "Resets in ") with (lit "Resets" ++ lit " in ").
    rewrite <- app_assoc. apply resets_line. }
  assert (Hrel : labelled_reset host (clock host) line
                 = relative_reset (clock host) (shown n)).
  { rewrite (labelled_reset_relative host (clock host) line Hword).
    - rewrite Eline, (relative_total_tokens _ _ Hhead Hok).
      rewrite (duration_tokens_seconds n Hn). reflexivity.
    - rewrite Eline.
      exact (some_token_matches _ _ Hhead Hok (duration_tokens_some n)). }
  unfold parseResetTime. cbn [first_return]. rewrite Hrel.
  unfold relative_reset. rewrite (TimeClip_valid _ Hclip).
  cbn [Date.toISOString bind]. eexists. split; [reflexivity |].
  cbn [reset_seconds reset_human reset_at].
  split; [reflexivity |]. split; [apply formatDuration_shown; exact Hn | reflexivity].
Qed.

(** Five days, two hours, twenty minutes and fifty-five seconds. *)
Lemma duration_reads_back_witness :
  exists r,
    parseResetTime (Sample.host Sample.FAKE_NOW) [lit "Resets in " ++ formatDuration 440455]
    = Ret r
    /\ reset_seconds r = shown 440455
    /\ reset_human r = formatDuration 440455
    /\ reset_at r
       = Date.iso_string (clock (Sample.host Sample.FAKE_NOW) + shown 440455 * 1000).
Proof.
  apply (duration_reads_back (Sample.host Sample.FAKE_NOW) 440455).
  - lia.
  - vm_compute. discriminate.
Defined.

Example duration_reads_back_values :
  formatDuration 440455 = lit "5d 2h" /\ shown 440455 = 439200.
Proof. split; vm_compute; reflexivity. Qed.

(** Below one minute the text "< 1m" reads back as one minute. *)
Example under_minute_reads_as_minute :
  exists r,
    parseResetTime (Sample.host Sample.FAKE_NOW) [lit "Resets in " ++ formatDuration 20]
    = Ret r
    /\ reset_seconds r = 60.
Proof. eexists. split; [vm_compute; reflexivity | reflexivity]. Qed.

(** ** Cost usage *)

Lemma find_amount_none (w : list jsstring) : Forall no_amount w -> find_amount w = None.
Proof.
  intros H. induction H as [| l w Hl _ IH]; [reflexivity |].
  cbn [find_amount]. unfold no_amount in Hl. rewrite Hl. exact IH.
Qed.

Lemma find_amount_app (w : list jsstring) (rest : list jsstring) :
  Forall no_amount w -> find_amount (w ++ rest) = find_amount rest.
Proof.
  intros H. induction H as [| l w Hl _ IH]; [reflexivity |].
  cbn [find_amount app]. unfold no_amount in Hl. rewrite Hl. exact IH.
Qed.

Lemma parseCostUsage_skip (pre rest : list jsstring) :
  Forall no_header pre -> parseCostUsage (pre ++ rest) = parseCostUsage rest.
Proof.
  intros H. induction H as [| l pre Hl _ IH]; [reflexivity |].
  cbn [app]. cbn [parseCostUsage]. unfold no_header in Hl. rewrite Hl. exact IH.
Qed.

(** X17: the amounts are taken from the first line with an amount pair among
    the header line and the nine lines after it: with fewer than nine lines
    between the first header and the amount line, the pair of that line is
    the result. *)
Theorem cost_within_window (pre : list jsstring) (h : jsstring) (w : list jsstring)
    (a : jsstring) (post : list jsstring) (m : rmatch_result) :
  Forall no_header pre -> test COST_SECTION_RE h = true ->
  Forall no_amount (h :: w) -> (length w < 9)%nat ->
  rmatch COST_AMOUNT_RE a = Some m ->
  parseCostUsage (pre ++ h :: w ++ a :: post) = cost_of m.
Proof.
  intros Hpre Hh Hw Hlen Ha.
  rewrite (parseCostUsage_skip pre _ Hpre).
  cbn [parseCostUsage]. rewrite Hh.
  change (h :: w ++ a :: post) with ((h :: w) ++ a :: post).
  rewrite firstn_app. rewrite firstn_all2 by (cbn [length]; lia).
  rewrite (find_amount_app _ _ Hw).
  cbn [length]. destruct (10 - S (length w))%nat as [| k] eqn:Ek; [lia |].
  cbn [firstn find_amount]. rewrite Ha. reflexivity.
Qed.

(** The amount line nine lines after the header. *)
Lemma cost_within_window_witness :
  parseCostUsage ([lit "Current session"] ++ lit "Extra usage" :: List.repeat [] 8
                  ++ lit "$12.50 / $100 spent" :: [lit "Resets Mar 1"])
  = cost_of cost_match.
Proof.
  apply (cost_within_window [lit "Current session"] (lit "Extra usage") (List.repeat [] 8)
           (lit "$12.50 / $100 spent") [lit "Resets Mar 1"] cost_match).
  - repeat constructor.
  - reflexivity.
  - repeat constructor.
  - cbn. lia.
  - vm_compute. reflexivity.
Defined.

(** X18: an amount pair further than nine lines from the header is not
    read: with nine lines without pair after the only header, the cost is
    0 / 0 whatever follows. *)
Theorem cost_beyond_window (pre : list jsstring) (h : jsstring) (w post : list jsstring) :
  Forall no_header pre -> test COST_SECTION_RE h = true ->
  Forall no_amount (h :: w) -> length w = 9%nat ->
  Forall no_header (w ++ post) ->
  parseCostUsage (pre ++ h :: w ++ post) = {| spent := zero; budget := zero |}.
Proof.
  intros Hpre Hh Hw Hlen Hpost.
  rewrite (parseCostUsage_skip pre _ Hpre).
  cbn [parseCostUsage]. rewrite Hh.
  change (h :: w ++ post) with ((h :: w) ++ post).
  rewrite firstn_app. rewrite firstn_all2 by (cbn [length]; lia).
  rewrite (find_amount_app _ _ Hw).
  cbn [length]. rewrite Hlen. cbn [Nat.sub firstn find_amount].
  apply parseCostUsage_absent. exact Hpost.
Qed.

(** The amount line ten lines after the header. *)
Lemma cost_beyond_window_witness :
  parseCostUsage ([lit "Current session"] ++ lit "Extra usage" :: List.repeat [] 9
                  ++ [lit "$12.50 / $100 spent"; lit "Resets Mar 1"])
  = {| spent := zero; budget := zero |}.
Proof.
  apply (cost_beyond_window [lit "Current session"] (lit "Extra usage") (List.repeat [] 9)
           [lit "$12.50 / $100 spent"; lit "Resets Mar 1"]).
  - repeat constructor.
  - reflexivity.
  - repeat constructor.
  - reflexivity.
  - repeat constructor.
Defined.

Example cost_match_values :
  cost_of cost_match = {| spent := Dec (25 # 2); budget := Dec (100 # 1) |}.
Proof. vm_compute. reflexivity. Qed.

Lemma remove_first_comma_digits (a rest : jsstring) :
  all_in digit a -> remove_first_comma (a ++ 44%N :: rest) = a ++ rest.
Proof.
  intros Ha. induction Ha as [| c a Hc _ IH]; [reflexivity |].
  cbn [app remove_first_comma].
  destruct (N.eqb_spec c 44) as [-> | _]; [discriminate Hc |]. f_equal. exact IH.
Qed.

Lemma leading_digits_run (ds rest : jsstring) :
  all_in digit ds -> stops digit rest -> leading_digits (ds ++ rest) = (ds, rest).
Proof.
  intros Hds Hrest. induction Hds as [| c ds Hc _ IH].
  - cbn [app]. destruct rest as [| c rest]; [reflexivity |].
    cbn in Hrest. cbn [leading_digits].
    change (is_digit c) with (digit c). rewrite Hrest. reflexivity.
  - cbn [app leading_digits]. change (is_digit c) with (digit c). rewrite Hc, IH.
    reflexivity.
Qed.

(** X19: how an integer amount with separators is read: the first comma is
    removed and the number ends at the next one. With digit groups [a] and
    [b], the text [a,b] is read as the number written [ab]; so is
    [a,b,c...], whose further groups are lost. *)
Theorem amount_ends_at_second_comma (a b rest : jsstring) :
  all_in digit a -> all_in digit b -> a ++ b <> [] -> ends_integer rest ->
  parseFloat (remove_first_comma (a ++ 44%N :: b ++ rest))
  = Dec (Qred (parseInt (a ++ b) # 1)).
Proof.
  intros Ha Hb Hab Hrest.
  rewrite (remove_first_comma_digits a _ Ha). rewrite app_assoc.
  unfold parseFloat.
  rewrite leading_digits_run.
  - assert (Hfp : match rest with
                  | [] => []
                  | c :: r' => if (c =? 46)%N then fst (leading_digits r') else []
                  end = []).
    { destruct rest as [| c r']; [reflexivity |]. cbn in Hrest. subst c. reflexivity. }
    rewrite Hfp. rewrite app_nil_r.
    destruct (a ++ b) as [| x l] eqn:E; [congruence |]. reflexivity.
  - apply Forall_app. split; assumption.
  - destruct rest as [| c r']; [exact I |]. cbn in Hrest. subst c. reflexivity.
Qed.

(** Two million written with two commas. *)
Lemma amount_ends_at_second_comma_witness :
  parseFloat (remove_first_comma (lit "2" ++ 44%N :: lit "000" ++ lit ",000"))
  = Dec (Qred (parseInt (lit "2" ++ lit "000") # 1)).
Proof.
  apply (amount_ends_at_second_comma (lit "2") (lit "000") (lit ",000")).
  - repeat constructor.
  - repeat constructor.
  - discriminate.
  - reflexivity.
Defined.

(** ** The address of the account *)

Lemma star_iter_suffix (step : mstate -> list mstate) :
  (forall a b, In b (step a) -> exists pre, fst a = pre ++ fst b) ->
  forall fuel a b, In b (star_iter step fuel a) -> exists pre, fst a = pre ++ fst b.
Proof.
  intros Hstep. induction fuel as [| fuel IH]; intros a b H.
  - destruct H as [<- | []]. exists []. reflexivity.
  - cbn [star_iter] in H. apply in_app_iff in H. destruct H as [H | [<- | []]].
    + apply in_flat_map in H. destruct H as [m [Hm Hb]].
      destruct (length (fst m) <? length (fst a))%nat; [| destruct Hb].
      destruct (Hstep _ _ Hm) as [p1 E1]. destruct (IH _ _ Hb) as [p2 E2].
      exists (p1 ++ p2). rewrite E1, E2, app_assoc. reflexivity.
    + exists []. reflexivity.
Qed.

(** A match reads a prefix of the input. *)
Lemma mtch_suffix (r : regex) :
  forall a b, In b (mtch r a) -> exists pre, fst a = pre ++ fst b.
Proof.
  induction r as [| p | r1 IH1 r2 IH2 | r1 IH1 r2 IH2 | r1 IH1 | n r1 IH1]; intros a b H.
  - apply in_mtch_eps in H. subst b. exists []. reflexivity.
  - apply in_mtch_cls in H. destruct H as [c [E _]]. exists [c]. exact E.
  - apply in_mtch_cat in H. destruct H as [m [Hm Hb]].
    destruct (IH1 _ _ Hm) as [p1 E1]. destruct (IH2 _ _ Hb) as [p2 E2].
    exists (p1 ++ p2). rewrite E1, E2, app_assoc. reflexivity.
  - apply in_mtch_alt in H. destruct H as [H | H]; [exact (IH1 _ _ H) | exact (IH2 _ _ H)].
  - cbn [mtch] in H. exact (star_iter_suffix _ IH1 _ _ _ H).
  - apply in_mtch_grp in H. destruct H as [b0 [Hb0 ->]]. cbn [fst].
    exact (IH1 _ _ Hb0).
Qed.

(** The last pattern of a sequence matches after a part of the input. *)
Lemma seq_of_last (l : list regex) (last : regex) :
  forall a b, In b (mtch (seq_of (l ++ [last])) a) ->
              exists s pre, fst a = pre ++ fst s /\ In b (mtch last s).
Proof.
  induction l as [| r l IH]; intros a b H.
  - exists a, []. split; [reflexivity | exact H].
  - assert (E : seq_of ((r :: l) ++ [last]) = Cat r (seq_of (l ++ [last])))
      by (destruct l; reflexivity).
    rewrite E in H. apply in_mtch_cat in H. destruct H as [m [Hm Hb]].
    destruct (mtch_suffix r _ _ Hm) as [p1 E1].
    destruct (IH _ _ Hb) as [s [p2 [E2 Hs]]].
    exists s, (p1 ++ p2). split; [| exact Hs].
    rewrite E1, E2, app_assoc. reflexivity.
Qed.

Lemma all_in_app (p : cls) (x y : jsstring) : all_in p x -> all_in p y -> all_in p (x ++ y).
Proof. intros Hx Hy. apply Forall_app. split; assumption. Qed.

(** What the address group captures. *)
Lemma address_shape (a b : mstate) :
  In b (mtch address a) ->
  exists e, is_address e /\ fst a = e ++ fst b /\ snd b = (1%nat, e) :: snd a.
Proof.
  intros H. unfold address in H.
  change (seq_of [Plus (Cls nonspace); ch "@"; Plus (Cls nonspace)])
    with (Cat (Plus (Cls nonspace)) (Cat (Cls (chr 64)) (Plus (Cls nonspace)))) in H.
  apply (group_reads is_address) in H.
  - destruct H as [e [He [E C]]]. exists e. auto.
  - intros b0 Hb0.
    apply in_mtch_cat in Hb0. destruct Hb0 as [s1 [H1 Hb0]].
    apply in_mtch_cat in Hb0. destruct Hb0 as [s2 [H2 H3]].
    apply reads_plus in H1. apply reads_cls in H2. apply reads_plus in H3.
    eapply reads_weaken; [| exact (reads_seq _ _ _ _ _ H1 (reads_seq _ _ _ _ _ H2 H3))].
    intros pre [u [q [-> [[Hu Hu'] [x [d [-> [[c [-> Hc]] [Hd Hd']]]]]]]]].
    unfold chr in Hc. apply N.eqb_eq in Hc. subst c.
    split.
    + apply all_in_app; [exact Hu |]. constructor; [reflexivity | exact Hd].
    + exists u, d. auto.
Qed.

Lemma address_captured (l : list regex) (line : jsstring) (m : rmatch_result) :
  rmatch (seq_of (l ++ [address])) line = Some m ->
  is_address (group_text 1 m) /\ part_of_line (group_text 1 m) line.
Proof.
  intros H. apply rmatch_in in H. destruct H as [k [rest H]].
  apply seq_of_last in H. destruct H as [s [pre [E Hs]]].
  apply address_shape in Hs. destruct Hs as [e [He [Ee C]]].
  cbn [fst snd] in E, Ee, C.
  assert (Eg : group_text 1 m = e).
  { unfold group_text, group. rewrite C. reflexivity. }
  rewrite Eg. split; [exact He |].
  exists (firstn k line ++ pre), rest.
  rewrite <- (firstn_skipn k line) at 1. rewrite E. unfold jsstring, cu in *. rewrite Ee, <- !app_assoc. reflexivity.
Qed.

(** X20: the address [parseEmail] returns is empty (no line has one) or a
    part of a line of the transcript without white space, with "@" between
    two non-empty parts. *)
Theorem parseEmail_shape (lines : list jsstring) :
  parseEmail lines = []
  \/ (is_address (parseEmail lines)
      /\ exists line, In line lines /\ part_of_line (parseEmail lines) line).
Proof.
  induction lines as [| line tl IH]; [left; reflexivity |].
  cbn [parseEmail].
  destruct (rmatch EMAIL_PLAN_RE line) as [m |] eqn:E1.
  - right.
    destruct (address_captured
                [middle_dot; sp_star; ci "claude"; sp_plus; Alt (ci "pro") (ci "max");
                 sp_star; middle_dot; sp_star] line m E1) as [Ha Hp].
    split; [exact Ha |]. exists line. split; [left; reflexivity | exact Hp].
  - destruct (rmatch EMAIL_FIELD_RE line) as [m |] eqn:E2.
    + right.
      destruct (address_captured [Alt (ci "email") (ci "account"); ch ":"; sp_star]
                  line m E2) as [Ha Hp].
      split; [exact Ha |]. exists line. split; [left; reflexivity | exact Hp].
    + destruct IH as [IH | [Ha [l [Hl Hp]]]]; [left; exact IH |].
      right. split; [exact Ha |]. exists l. split; [right; exact Hl | exact Hp].
Qed.

(** Only the two plans of the pattern give the address of a header line:
    the header of a Team account gives none. *)
Example team_header_has_no_address :
  parseEmail [[183%N] ++ lit " Claude Team " ++ [183%N] ++ lit " user@example.com"] = []
  /\ parseEmail [[183%N] ++ lit " Claude Max " ++ [183%N] ++ lit " user@example.com"]
     = lit "user@example.com".
Proof. split; vm_compute; reflexivity. Qed.

(** ** The search path of the command *)

Lemma split_unit_nonempty (d : cu) (s : jsstring) : split_unit d s <> [].
Proof.
  destruct s as [| c tl]; cbn [split_unit]; [discriminate |].
  destruct (c =? d)%N; [discriminate |].
  destruct (split_unit d tl); discriminate.
Qed.

Lemma split_unit_free (d : cu) (s : jsstring) :
  Forall (Forall (fun c => c <> d)) (split_unit d s).
Proof.
  induction s as [| c tl IH]; cbn [split_unit]; [repeat constructor |].
  destruct (N.eqb_spec c d) as [-> | Hc]; [constructor; [constructor | exact IH] |].
  destruct (split_unit d tl) as [| x r]; [repeat constructor; exact Hc |].
  inversion IH; subst. constructor; [constructor; assumption | assumption].
Qed.

Lemma split_unit_app (d : cu) (x rest : jsstring) :
  Forall (fun c => c <> d) x ->
  split_unit d (x ++ d :: rest) = x :: split_unit d rest.
Proof.
  intros Hx. induction Hx as [| c x Hc _ IH]; cbn [app split_unit].
  - rewrite N.eqb_refl. reflexivity.
  - destruct (N.eqb_spec c d) as [E | _]; [contradiction |]. rewrite IH. reflexivity.
Qed.

Lemma split_unit_one (d : cu) (x : jsstring) :
  Forall (fun c => c <> d) x -> split_unit d x = [x].
Proof.
  intros Hx. induction Hx as [| c x Hc _ IH]; cbn [split_unit]; [reflexivity |].
  destruct (N.eqb_spec c d) as [E | _]; [contradiction |]. rewrite IH. reflexivity.
Qed.

(** Splitting a joined list of entries gives the entries back. *)
Lemma split_join (d : cu) (parts : list jsstring) :
  parts <> [] -> Forall (Forall (fun c => c <> d)) parts ->
  split_unit d (join [d] parts) = parts.
Proof.
  intros Hne H. induction H as [| x parts Hx Hparts IH];
    [exfalso; apply Hne; reflexivity |].
  destruct parts as [| y parts].
  - cbn [join]. apply split_unit_one. exact Hx.
  - change (join [d] (x :: y :: parts)) with (x ++ [d] ++ join [d] (y :: parts)).
    cbn [app]. rewrite (split_unit_app d x _ Hx). f_equal. apply IH. discriminate.
Qed.

(** Joining the entries of a text gives the text back. *)
Lemma join_split (d : cu) (s : jsstring) : join [d] (split_unit d s) = s.
Proof.
  induction s as [| c tl IH]; [reflexivity |].
  cbn [split_unit]. destruct (N.eqb_spec c d) as [-> | Hc].
  - destruct (split_unit d tl) as [| y r] eqn:E;
      [exact (False_ind _ (split_unit_nonempty d tl E)) |].
    change (join [d] ([] :: y :: r)) with ([] ++ [d] ++ join [d] (y :: r)).
    rewrite IH. reflexivity.
  - destruct (split_unit d tl) as [| y r] eqn:E;
      [exact (False_ind _ (split_unit_nonempty d tl E)) |].
    destruct r as [| z r].
    + cbn [join] in *. rewrite IH. reflexivity.
    + change (join [d] ((c :: y) :: z :: r)) with (c :: (y ++ [d] ++ join [d] (z :: r))).
      change (join [d] (y :: z :: r)) with (y ++ [d] ++ join [d] (z :: r)) in IH.
      rewrite IH. reflexivity.
Qed.

Lemma includes_In (p : jsstring) (parts : list jsstring) :
  includes p parts = true <-> In p parts.
Proof.
  unfold includes. rewrite existsb_exists. split.
  - intros [x [Hx E]]. apply str_eqb_eq in E. subst x. exact Hx.
  - intros H. exists p. split; [exact H | apply str_eqb_eq; reflexivity].
Qed.

(** The loop puts in front of the entries the directories that are not
    among them, the last one first. *)
Lemma add_missing_fold (extras old : list jsstring) :
  exists added,
    fold_left add_missing extras old = added ++ old
    /\ NoDup added
    /\ (forall p, In p added <-> In p extras /\ ~ In p old).
Proof.
  revert old. induction extras as [| e extras IH]; intros old.
  - exists []. cbn. split; [reflexivity |]. split; [constructor |].
    intros p. split; [intros [] | intros [[] _]].
  - cbn [fold_left]. unfold add_missing at 2.
    destruct (includes e old) eqn:Ei.
    + destruct (IH old) as [added [E [Hnd Hin]]]. exists added.
      split; [exact E |]. split; [exact Hnd |].
      intros p. rewrite Hin. apply includes_In in Ei. split.
      * intros [H1 H2]. split; [right; exact H1 | exact H2].
      * intros [[<- | H1] H2]; [contradiction | auto].
    + destruct (IH (e :: old)) as [added [E [Hnd Hin]]].
      assert (He : ~ In e old).
      { intros H. apply includes_In in H. congruence. }
      exists (added ++ [e]). split; [rewrite E, <- app_assoc; reflexivity |].
      split.
      * apply NoDup_app; [exact Hnd | repeat constructor; intros [] |].
        intros x Hx [<- | []]. apply Hin in Hx. destruct Hx as [_ Hx].
        apply Hx. left. reflexivity.
      * intros p. rewrite in_app_iff, Hin. cbn [In]. split.
        -- intros [[H1 H2] | [<- | []]].
           ++ split; [right; exact H1 | intros H; apply H2; right; exact H].
           ++ split; [left; reflexivity | exact He].
        -- intros [[<- | H1] H2]; [right; left; reflexivity |].
           destruct (list_eq_dec N.eq_dec e p) as [<- | Hne];
             [right; left; reflexivity |].
           left. split; [exact H1 |]. intros [H | H]; [congruence | contradiction].
Qed.

Lemma extraPaths_free (sys : Process) :
  usual_delimiter sys ->
  Forall (Forall (fun c => c <> path_delimiter sys)) (extraPaths sys).
Proof.
  intros [Hd Hhome]. unfold extraPaths.
  constructor; [exact Hhome |].
  destruct Hd as [-> | ->]; repeat constructor; discriminate.
Qed.

Lemma pathParts_free (sys : Process) :
  usual_delimiter sys ->
  Forall (Forall (fun c => c <> path_delimiter sys)) (pathParts sys).
Proof.
  intros Hu. unfold pathParts.
  destruct (add_missing_fold (extraPaths sys)
              (split_unit (path_delimiter sys)
                 match process_env sys (lit "PATH") with Some v => v | None => [] end))
    as [added [-> [_ Hin]]].
  apply Forall_app. split; [| apply split_unit_free].
  apply Forall_forall. intros p Hp. apply Hin in Hp. destruct Hp as [Hp _].
  exact (proj1 (Forall_forall _ _) (extraPaths_free sys Hu) p Hp).
Qed.

Lemma fold_left_add_nonempty (extras old : list jsstring) :
  old <> [] -> fold_left add_missing extras old <> [].
Proof.
  revert old. induction extras as [| e extras IH]; intros old Hne; [exact Hne |].
  cbn [fold_left]. apply IH. unfold add_missing.
  destruct (includes e old); [exact Hne | discriminate].
Qed.

Lemma buildEnv_entries (sys : Process) :
  usual_delimiter sys ->
  path_entries (path_delimiter sys) (buildEnv sys) = pathParts sys.
Proof.
  intros Hu. unfold path_entries, buildEnv.
  change (str_eqb (lit "PATH") (lit "TERM")) with false.
  change (str_eqb (lit "PATH") (lit "PATH")) with true. cbv iota.
  apply split_join; [| exact (pathParts_free sys Hu)].
  unfold pathParts. apply fold_left_add_nonempty. apply split_unit_nonempty.
Qed.

Lemma pathParts_has_extras (sys : Process) (p : jsstring) :
  In p (extraPaths sys) -> In p (pathParts sys).
Proof.
  intros Hp. unfold pathParts.
  set (old := split_unit (path_delimiter sys)
                match process_env sys (lit "PATH") with Some v => v | None => [] end).
  destruct (add_missing_fold (extraPaths sys) old) as [added [-> [_ Hin]]].
  apply in_app_iff.
  destruct (in_dec (list_eq_dec N.eq_dec) p old) as [Hold | Hnew]; [right; exact Hold |].
  left. apply Hin. auto.
Qed.

(** X21: the search path [buildEnv] gives the command: its entries are the
    entries of the search path of the process, in their order, after those
    of the three directories that were not among them, each once; so every
    one of the three directories is an entry. *)
Theorem buildEnv_search_path (sys : Process) :
  usual_delimiter sys ->
  let d := path_delimiter sys in
  (exists added,
     path_entries d (buildEnv sys) = added ++ path_entries d (process_env sys)
     /\ NoDup added
     /\ (forall p, In p added
                   <-> In p (extraPaths sys) /\ ~ In p (path_entries d (process_env sys))))
  /\ (forall p, In p (extraPaths sys) -> In p (path_entries d (buildEnv sys))).
Proof.
  intros Hu d. subst d. rewrite (buildEnv_entries sys Hu).
  destruct (add_missing_fold (extraPaths sys)
              (path_entries (path_delimiter sys) (process_env sys)))
    as [added [E [Hnd Hin]]].
  assert (Ep : pathParts sys
               = added ++ path_entries (path_delimiter sys) (process_env sys)) by exact E.
  split.
  - exists added. auto.
  - intros p Hp. exact (pathParts_has_extras sys p Hp).
Qed.

(** A search path that has one of the three directories. *)
Lemma buildEnv_search_path_witness :
  let d := path_delimiter sample_process in
  (exists added,
     path_entries d (buildEnv sample_process)
     = added ++ path_entries d (process_env sample_process)
     /\ NoDup added
     /\ (forall p, In p added
                   <-> In p (extraPaths sample_process)
                       /\ ~ In p (path_entries d (process_env sample_process))))
  /\ (forall p, In p (extraPaths sample_process)
                -> In p (path_entries d (buildEnv sample_process))).
Proof.
  apply (buildEnv_search_path sample_process).
  split; [left; reflexivity | repeat constructor; discriminate].
Defined.

Example sample_search_path :
  buildEnv sample_process (lit "PATH")
  = Some (lit "/opt/homebrew/bin:/home/u/.local/bin:/usr/bin:/usr/local/bin:/bin").
Proof. vm_compute. reflexivity. Qed.

(** Without a search path the result ends with an empty entry. *)
Example no_search_path :
  buildEnv {| process_env := fun _ => None; path_delimiter := 58%N;
              home_local_bin := lit "/home/u/.local/bin" |} (lit "PATH")
  = Some (lit "/opt/homebrew/bin:/usr/local/bin:/home/u/.local/bin:").
Proof. vm_compute. reflexivity. Qed.




(** ** Trust *)

Lemma str_eqb_refl (a : jsstring) : str_eqb a a = true.
Proof. apply str_eqb_eq. reflexivity. Qed.

Lemma str_eqb_neq (a b : jsstring) : a <> b -> str_eqb a b = false.
Proof.
  intros H. destruct (str_eqb a b) eqn:E; [| reflexivity].
  apply str_eqb_eq in E. contradiction.
Qed.

Lemma get_set_same (k : jsstring) (v : json) (fields : list (jsstring * json)) :
  get_field k (set_field k v fields) = Some v.
Proof.
  induction fields as [| [k' v'] tl IH]; cbn [set_field get_field].
  - rewrite str_eqb_refl. reflexivity.
  - destruct (str_eqb k' k) eqn:E; cbn [get_field].
    + rewrite str_eqb_refl. reflexivity.
    + rewrite E. exact IH.
Qed.

Lemma get_set_other (k k' : jsstring) (v : json) (fields : list (jsstring * json)) :
  k' <> k -> get_field k' (set_field k v fields) = get_field k' fields.
Proof.
  intros Hne. induction fields as [| [k0 v0] tl IH]; cbn [set_field get_field].
  - rewrite (str_eqb_neq k k') by congruence. reflexivity.
  - destruct (str_eqb k0 k) eqn:E; cbn [get_field].
    + apply str_eqb_eq in E. subst k0.
      rewrite (str_eqb_neq k k') by congruence. reflexivity.
    + destruct (str_eqb k0 k'); [reflexivity | exact IH].
Qed.

Lemma set_field_same (k : jsstring) (v : json) (fields : list (jsstring * json)) :
  get_field k fields = Some v -> set_field k v fields = fields.
Proof.
  induction fields as [| [k0 v0] tl IH]; cbn [set_field get_field]; [discriminate |].
  destruct (str_eqb k0 k) eqn:E.
  - intros H. injection H as ->. apply str_eqb_eq in E. subst k0. reflexivity.
  - intros H. rewrite (IH H). reflexivity.
Qed.

Lemma writeClaudeConfig_done (config : json) (f f' : ConfigFile) :
  writeClaudeConfig config f = Done f' ->
  f' = {| content := Some config; writable := true |}.
Proof.
  unfold writeClaudeConfig. destruct (writable f); [| discriminate].
  intros H. injection H as <-. reflexivity.
Qed.

Lemma trustWorkspace_cases (p : WorkspacePath) (f f' : ConfigFile) :
  trustWorkspace p f = Done f' ->
  exists after,
    f' = {| content := Some after; writable := true |}
    /\ trust_case (path_text p) (readClaudeConfig f) after.
Proof.
  unfold trustWorkspace.
  destruct (readClaudeConfig f) as [| b | n | s | items | fields]; try discriminate.
  - intros H. apply writeClaudeConfig_done in H. exists (JArr items).
    split; [exact H | constructor].
  - destruct (get_field (lit "projects") fields) as [projects |] eqn:Ep.
    + destruct (truthy projects) eqn:Et.
      * destruct projects as [| b | n | s | items | entries]; try discriminate.
        -- intros H. apply writeClaudeConfig_done in H. exists (JObj fields).
           split; [exact H | econstructor 2; exact Ep].
        -- destruct (get_field (path_text p) entries) as [e |] eqn:Ee.
           ++ destruct (truthy e) eqn:Ete.
              ** destruct e as [| b | n | s | items | e]; try discriminate.
                 --- intros H. apply writeClaudeConfig_done in H. exists (JObj fields).
                     split; [exact H | econstructor 3; eassumption].
                 --- intros H. apply writeClaudeConfig_done in H. eexists.
                     split; [exact H | econstructor 6; eassumption].
              ** intros H. apply writeClaudeConfig_done in H. eexists.
                 split; [exact H |]. apply trust_new_entry; [exact Ep |].
                 rewrite Ee. exact Ete.
           ++ intros H. apply writeClaudeConfig_done in H. eexists.
              split; [exact H |]. apply trust_new_entry; [exact Ep |].
              rewrite Ee. exact I.
      * cbn [get_field set_field]. intros H. apply writeClaudeConfig_done in H. eexists.
        split; [exact H |]. apply trust_new_projects. rewrite Ep. exact Et.
    + cbn [get_field set_field]. intros H. apply writeClaudeConfig_done in H. eexists.
      split; [exact H |]. apply trust_new_projects. rewrite Ep. exact I.
Qed.

Lemma isWorkspaceTrusted_in (p : WorkspacePath) (f : ConfigFile) :
  readClaudeConfig f <> JNull ->
  isWorkspaceTrusted p f = Done (trusted_in (readClaudeConfig f) (path_text p)).
Proof.
  unfold isWorkspaceTrusted, trusted_in.
  destruct (readClaudeConfig f); [congruence | reflexivity ..].
Qed.

Lemma trust_case_not_null (p : jsstring) (before after : json) :
  trust_case p before after -> before <> JNull /\ after <> JNull.
Proof. intros H. destruct H; split; discriminate. Qed.

Lemma falsy_own (v : json) (k : jsstring) :
  truthy v = false -> match v with JNull => None | _ => own v k end = None.
Proof. destruct v; cbn; try reflexivity; discriminate. Qed.

Lemma trust_case_trusted (p : jsstring) (before after : json) :
  trust_case p before after ->
  trusted_in after p
  = negb match before with
         | JArr _ => true
         | JObj fields =>
             match get_field (lit "projects") fields with
             | Some (JArr _) => true
             | Some (JObj entries) =>
                 match get_field p entries with
                 | Some (JArr _) => true
                 | _ => false
                 end
             | _ => false
             end
         | _ => false
         end.
Proof.
  intros H. destruct H as [items | fields items Hp | fields entries items Hp He
                           | fields Hp | fields entries Hp He | fields entries e Hp He].
  - reflexivity.
  - unfold trusted_in. cbn [own]. rewrite Hp. reflexivity.
  - unfold trusted_in. cbn [own]. rewrite Hp. cbn [own]. rewrite He. reflexivity.
  - unfold trusted_in. cbn [own]. rewrite get_set_same. cbn [own get_field].
    rewrite str_eqb_refl. cbn [own trusted_entry get_field]. rewrite str_eqb_refl.
    destruct (get_field (lit "projects") fields) as [[| b | n | s | l | l] |];
      cbn in Hp; try reflexivity; discriminate.
  - unfold trusted_in. cbn [own]. rewrite get_set_same. cbn [own].
    rewrite get_set_same. cbn [own trusted_entry get_field]. rewrite str_eqb_refl.
    rewrite Hp.
    destruct (get_field p entries) as [[| b | n | s | l | l] |];
      cbn in He; try reflexivity; discriminate.
  - unfold trusted_in. cbn [own]. rewrite get_set_same. cbn [own].
    rewrite get_set_same. cbn [own]. rewrite get_set_same.
    rewrite Hp, He. reflexivity.
Qed.

(** X23: after [trustWorkspace] returned, [isWorkspaceTrusted] answers true
    for the workspace, unless an array stands where the entry is written:
    the property set on an array is not written to the file, and the answer
    stays false. *)
Theorem trusted_after_trust (p : WorkspacePath) (f f' : ConfigFile) :
  trustWorkspace p f = Done f' ->
  isWorkspaceTrusted p f' = Done (negb (array_on_way p f)).
Proof.
  intros H. destruct (trustWorkspace_cases p f f' H) as [after [-> Hc]].
  destruct (trust_case_not_null _ _ _ Hc) as [_ Ha].
  rewrite isWorkspaceTrusted_in by exact Ha.
  cbn [readClaudeConfig content].
  rewrite (trust_case_trusted _ _ _ Hc). unfold array_on_way. reflexivity.
Qed.

(** A new workspace in a configuration with one trusted workspace. *)
Lemma trusted_after_trust_witness :
  isWorkspaceTrusted new_workspace sample_config_trusted
  = Done (negb (array_on_way new_workspace sample_config)).
Proof.
  apply (trusted_after_trust new_workspace sample_config sample_config_trusted).
  vm_compute. reflexivity.
Defined.

(** With an array as configuration the call returns and nothing is
    trusted. *)
Example array_config_stays_untrusted :
  trustWorkspace new_workspace array_config = Done array_config
  /\ isWorkspaceTrusted new_workspace array_config = Done false.
Proof. split; reflexivity. Qed.

Lemma trust_case_frame (p q : jsstring) (before after : json) :
  trust_case p before after -> q <> p -> trusted_in after q = trusted_in before q.
Proof.
  intros H Hq. destruct H as [items | fields items Hp | fields entries items Hp He
                              | fields Hp | fields entries Hp He | fields entries e Hp He];
    try reflexivity.
  - unfold trusted_in. cbn [own]. rewrite get_set_same. cbn [own get_field].
    rewrite (str_eqb_neq p q) by congruence.
    destruct (get_field (lit "projects") fields) as [[| b | n | s | l | l] |];
      cbn in Hp; try reflexivity; try discriminate.
  - unfold trusted_in. cbn [own]. rewrite get_set_same, Hp. cbn [own].
    rewrite (get_set_other _ _ _ _ Hq). reflexivity.
  - unfold trusted_in. cbn [own]. rewrite get_set_same, Hp. cbn [own].
    rewrite (get_set_other _ _ _ _ Hq). reflexivity.
Qed.

(** X24: [trustWorkspace] changes the answer of [isWorkspaceTrusted] for no
    other workspace. *)
Theorem trust_leaves_others (p q : WorkspacePath) (f f' : ConfigFile) :
  trustWorkspace p f = Done f' -> path_text q <> path_text p ->
  isWorkspaceTrusted q f' = isWorkspaceTrusted q f.
Proof.
  intros H Hq. destruct (trustWorkspace_cases p f f' H) as [after [-> Hc]].
  destruct (trust_case_not_null _ _ _ Hc) as [Hb Ha].
  rewrite !isWorkspaceTrusted_in by assumption.
  cbn [readClaudeConfig content]. f_equal.
  exact (trust_case_frame _ _ _ _ Hc Hq).
Qed.

(** The workspace trusted before stays trusted. *)
Lemma trust_leaves_others_witness :
  isWorkspaceTrusted old_workspace sample_config_trusted
  = isWorkspaceTrusted old_workspace sample_config.
Proof.
  apply (trust_leaves_others new_workspace old_workspace sample_config sample_config_trusted).
  - vm_compute. reflexivity.
  - vm_compute. discriminate.
Defined.

Lemma trust_case_rest (p k : jsstring) (before after : json) :
  trust_case p before after -> k <> lit "projects" -> own after k = own before k.
Proof.
  intros H Hk. destruct H; try reflexivity; cbn [own];
    rewrite ?(get_set_other _ _ _ _ Hk); reflexivity.
Qed.

(** X25: [trustWorkspace] keeps the rest of a configuration: every property
    other than [projects] has the value it had, and [readStatusData] returns
    what it returned. *)
Theorem trust_keeps_rest (p : WorkspacePath) (f f' : ConfigFile) :
  trustWorkspace p f = Done f' ->
  (forall k, k <> lit "projects" ->
             own (readClaudeConfig f') k = own (readClaudeConfig f) k)
  /\ readStatusData f' = readStatusData f.
Proof.
  intros H. destruct (trustWorkspace_cases p f f' H) as [after [-> Hc]].
  cbn [readClaudeConfig content]. split.
  - intros k Hk. exact (trust_case_rest _ _ _ _ Hc Hk).
  - assert (Hacc : own after (lit "oauthAccount")
                   = own (readClaudeConfig f) (lit "oauthAccount")).
    { apply (trust_case_rest _ _ _ _ Hc). discriminate. }
    destruct (trust_case_not_null _ _ _ Hc) as [Hb Ha].
    unfold readStatusData. cbn [content].
    unfold readClaudeConfig in *. destruct (content f) as [data |].
    + destruct after, data; try congruence; rewrite Hacc; reflexivity.
    + cbn [own get_field] in Hacc. destruct after; try congruence; rewrite Hacc; reflexivity.
Qed.

(** The account and the counters of the same configuration. *)
Lemma trust_keeps_rest_witness :
  (forall k, k <> lit "projects" ->
             own (readClaudeConfig sample_config_trusted) k
             = own (readClaudeConfig sample_config) k)
  /\ readStatusData sample_config_trusted = readStatusData sample_config.
Proof.
  apply (trust_keeps_rest new_workspace sample_config sample_config_trusted).
  vm_compute. reflexivity.
Defined.

Lemma trust_case_again (p : WorkspacePath) (before after : json) :
  trust_case (path_text p) before after ->
  trustWorkspace p {| content := Some after; writable := true |}
  = Done {| content := Some after; writable := true |}.
Proof.
  intros H. unfold trustWorkspace. cbn [readClaudeConfig content].
  destruct H as [items | fields items Hp | fields entries items Hp He
                 | fields Hp | fields entries Hp He | fields entries e Hp He].
  - reflexivity.
  - rewrite Hp. reflexivity.
  - rewrite Hp. cbn [truthy]. rewrite He. reflexivity.
  - rewrite get_set_same. cbn [truthy get_field]. rewrite str_eqb_refl.
    cbn [truthy trusted_entry set_field]. rewrite !str_eqb_refl.
    rewrite set_field_same by apply get_set_same. reflexivity.
  - rewrite get_set_same. cbn [truthy]. rewrite get_set_same.
    cbn [truthy trusted_entry set_field]. rewrite str_eqb_refl.
    rewrite (set_field_same (path_text p)) by apply get_set_same.
    rewrite set_field_same by apply get_set_same. reflexivity.
  - rewrite get_set_same. cbn [truthy]. rewrite get_set_same. cbn [truthy].
    rewrite (set_field_same flag_name) by apply get_set_same.
    rewrite (set_field_same (path_text p)) by apply get_set_same.
    rewrite set_field_same by apply get_set_same. reflexivity.
Qed.

(** X26: [trustWorkspace] is idempotent: called again on the file it wrote,
    it writes the same file. *)
Theorem trust_twice (p : WorkspacePath) (f f' : ConfigFile) :
  trustWorkspace p f = Done f' -> trustWorkspace p f' = Done f'.
Proof.
  intros H. destruct (trustWorkspace_cases p f f' H) as [after [-> Hc]].
  exact (trust_case_again p _ _ Hc).
Qed.

(** The same workspace trusted again. *)
Lemma trust_twice_witness :
  trustWorkspace new_workspace sample_config_trusted = Done sample_config_trusted.
Proof.
  apply (trust_twice new_workspace sample_config sample_config_trusted).
  vm_compute. reflexivity.
Defined.

(** X27: a configuration file that cannot be read or parsed counts as
    empty, so [trustWorkspace] replaces it by a file that holds the entry of
    the workspace and nothing else. *)
Theorem unreadable_config_replaced (p : WorkspacePath) (f : ConfigFile) :
  content f = None -> writable f = true ->
  trustWorkspace p f
  = Done {| content :=
              Some (JObj [(lit "projects", JObj [(path_text p, trusted_entry)])]);
            writable := true |}.
Proof.
  intros Hc Hw. unfold trustWorkspace, readClaudeConfig, writeClaudeConfig.
  rewrite Hc, Hw. reflexivity.
Qed.

(** A file that cannot be read. *)
Lemma unreadable_config_replaced_witness :
  trustWorkspace new_workspace {| content := None; writable := true |}
  = Done {| content :=
              Some (JObj [(lit "projects",
                           JObj [(path_text new_workspace, trusted_entry)])]);
            writable := true |}.
Proof.
  apply (unreadable_config_replaced new_workspace {| content := None; writable := true |});
    reflexivity.
Defined.

(** ** Runs of the command *)

Lemma handle_settled (r : Run) (e : event) (s : settlement) :
  settled r = Some s -> settled (handle r e) = Some s.
Proof.
  intros H. destruct e as [c | c | | code m | |]; cbn [handle settled]; try exact H.
  - unfold settle. rewrite H. exact H.
  - destruct (str_eqb code (lit "ENOENT")); unfold settle; rewrite H; exact H.
  - destruct (timer_pending r); [| exact H]. unfold settle. cbn [kill settled].
    rewrite H. reflexivity.
  - destruct (earlyKillTimer r) as [[|] |]; try exact H.
    unfold settle. cbn [kill settled]. rewrite H. reflexivity.
Qed.

Lemma run_settled (events : list event) :
  forall r s, settled r = Some s -> settled (run events r) = Some s.
Proof.
  induction events as [| e tl IH]; intros r s H; [exact H |].
  cbn [run fold_left]. apply IH. apply handle_settled. exact H.
Qed.

(** X28: the promise of [runClaudeUsage] is settled once: whatever happens
    after it was resolved or rejected, its settlement stays. *)
Theorem settled_once (before after : list event) (r : Run) (s : settlement) :
  settled (run before r) = Some s -> settled (run (before ++ after) r) = Some s.
Proof.
  intros H. unfold run. rewrite fold_left_app. apply run_settled. exact H.
Qed.

(** Data, the end of the process and the timeout after the early kill. *)
Lemma settled_once_witness :
  settled (run ([Stdout (lit "14% used"); EarlyKill] ++ [Stdout (lit "more"); Close; Timeout])
             started)
  = Some (Resolved (lit "14% used")).
Proof.
  apply (settled_once [Stdout (lit "14% used"); EarlyKill]
           [Stdout (lit "more"); Close; Timeout] started (Resolved (lit "14% used"))).
  vm_compute. reflexivity.
Defined.

Lemma handle_output (r : Run) (e : event) :
  output (handle r e) = output r ++ chunks [e].
Proof.
  destruct e as [c | c | | code m | |]; cbn [handle output chunks];
    rewrite ?app_nil_r; try reflexivity.
  - unfold settle. destruct (settled r); reflexivity.
  - destruct (str_eqb code (lit "ENOENT")); unfold settle; destruct (settled r); reflexivity.
  - destruct (timer_pending r); [| reflexivity]. unfold settle. cbn [kill settled].
    destruct (settled r); reflexivity.
  - destruct (earlyKillTimer r) as [[|] |]; try reflexivity.
    unfold settle. cbn [kill settled]. destruct (settled r); reflexivity.
Qed.

Lemma chunks_app (a b : list event) : chunks (a ++ b) = chunks a ++ chunks b.
Proof.
  induction a as [| e a IH]; [reflexivity |].
  destruct e; cbn [app chunks]; rewrite IH, ?app_assoc; reflexivity.
Qed.

Lemma run_output (events : list event) :
  forall r, output (run events r) = output r ++ chunks events.
Proof.
  induction events as [| e tl IH]; intros r; [cbn; rewrite app_nil_r; reflexivity |].
  cbn [run fold_left]. fold (run tl (handle r e)). rewrite IH, handle_output.
  change (e :: tl) with ([e] ++ tl). rewrite chunks_app, app_assoc. reflexivity.
Qed.

(** The event that settles the promise. *)
Lemma first_settlement (events : list event) :
  forall r s,
    settled r = None -> settled (run events r) = Some s ->
    exists before e after,
      events = before ++ e :: after
      /\ settled (run before r) = None
      /\ settled (handle (run before r) e) = Some s.
Proof.
  induction events as [| e tl IH]; intros r s Hn Hs; [cbn in Hs; congruence |].
  destruct (settled (handle r e)) as [s' |] eqn:E.
  - exists [], e, tl. cbn [app run fold_left]. split; [reflexivity |].
    split; [exact Hn |]. rewrite E. f_equal.
    cbn [run fold_left] in Hs. fold (run tl (handle r e)) in Hs.
    rewrite (run_settled tl _ _ E) in Hs. congruence.
  - cbn [run fold_left] in Hs. fold (run tl (handle r e)) in Hs.
    destruct (IH _ _ E Hs) as [before [e' [after [-> [H1 H2]]]]].
    exists (e :: before), e', after. split; [reflexivity |]. split; assumption.
Qed.

Lemma handle_arms (r : Run) (e : event) :
  earlyKillTimer r = None -> earlyKillTimer (handle r e) <> None ->
  exists c, e = Stdout c /\ test EARLY_RE (stripAnsi (output r ++ c)) = true.
Proof.
  intros Hn H. destruct e as [c | c | | code m | |]; cbn [handle earlyKillTimer] in H.
  - exists c. split; [reflexivity |]. rewrite Hn in H.
    destruct (test EARLY_RE (stripAnsi (output r ++ c))); [reflexivity | congruence].
  - congruence.
  - unfold settle in H. destruct (settled r); cbn [earlyKillTimer] in H;
      rewrite Hn in H; cbn in H; congruence.
  - destruct (str_eqb code (lit "ENOENT")); unfold settle in H; destruct (settled r);
      cbn [earlyKillTimer] in H; rewrite Hn in H; cbn in H; congruence.
  - destruct (timer_pending r); [| congruence].
    unfold settle in H. cbn [kill settled] in H.
    destruct (settled r); cbn [kill earlyKillTimer] in H; rewrite Hn in H; cbn in H;
      congruence.
  - rewrite Hn in H. congruence.
Qed.

(** The early-kill timer is set by data on [stdout] that shows a
    percentage. *)
Lemma armed_by_percentage (events : list event) :
  forall r,
    earlyKillTimer r = None -> earlyKillTimer (run events r) <> None ->
    exists before c after,
      events = before ++ Stdout c :: after
      /\ test EARLY_RE (stripAnsi (output r ++ chunks before ++ c)) = true.
Proof.
  induction events as [| e tl IH]; intros r Hn H; [cbn in H; congruence |].
  destruct (earlyKillTimer (handle r e)) as [b |] eqn:E.
  - destruct (handle_arms r e Hn) as [c [-> Hc]]; [congruence |].
    exists [], c, tl. split; [reflexivity | exact Hc].
  - cbn [run fold_left] in H. fold (run tl (handle r e)) in H.
    destruct (IH _ E H) as [before [c [after [-> Hc]]]].
    exists (e :: before), c, after. split; [reflexivity |].
    rewrite handle_output, <- app_assoc in Hc.
    change (e :: before) with ([e] ++ before). rewrite chunks_app, <- app_assoc.
    exact Hc.
Qed.

(** X29: when the promise is resolved, it is by the event [close] or by the
    early-kill timer, and with everything the process wrote before that
    event, on [stdout] and [stderr] in the order of arrival; the early-kill
    timer fires only after data on [stdout] made the output show a
    percentage. *)
Theorem resolved_with_output (events : list event) (out : jsstring) :
  settled (run events started) = Some (Resolved out) ->
  exists before e after,
    events = before ++ e :: after
    /\ out = chunks before
    /\ (e = Close
        \/ (e = EarlyKill
            /\ exists b1 c b2,
                 before = b1 ++ Stdout c :: b2
                 /\ test EARLY_RE (stripAnsi (chunks b1 ++ c)) = true)).
Proof.
  intros H.
  destruct (first_settlement events started _ eq_refl H)
    as [before [e [after [-> [Hn Hs]]]]].
  exists before, e, after. split; [reflexivity |].
  pose proof (run_output before started) as Ho. cbn [started output app] in Ho.
  destruct e as [c | c | | code m | |]; cbn [handle settled] in Hs.
  - congruence.
  - congruence.
  - unfold settle in Hs. rewrite Hn in Hs. cbn [settled] in Hs.
    injection Hs as <-. split; [exact Ho | left; reflexivity].
  - destruct (str_eqb code (lit "ENOENT")); unfold settle in Hs; rewrite Hn in Hs;
      cbn [settled] in Hs; discriminate Hs.
  - destruct (timer_pending (run before started)); [| congruence].
    unfold settle in Hs. cbn [kill settled] in Hs. rewrite Hn in Hs. discriminate Hs.
  - destruct (earlyKillTimer (run before started)) as [[|] |] eqn:Ee; try congruence.
    unfold settle in Hs. cbn [kill settled output] in Hs. rewrite Hn in Hs.
    cbn [settled] in Hs. injection Hs as <-. split; [exact Ho |].
    right. split; [reflexivity |].
    destruct (armed_by_percentage before started eq_refl) as [b1 [c [b2 [E Hc]]]];
      [congruence |].
    exists b1, c, b2. split; [exact E | exact Hc].
Qed.

(** A run ended by the early-kill timer. *)
Lemma resolved_with_output_witness :
  exists before e after,
    early_run = before ++ e :: after
    /\ early_output = chunks before
    /\ (e = Close
        \/ (e = EarlyKill
            /\ exists b1 c b2,
                 before = b1 ++ Stdout c :: b2
                 /\ test EARLY_RE (stripAnsi (chunks b1 ++ c)) = true)).
Proof.
  apply (resolved_with_output early_run early_output). vm_compute. reflexivity.
Defined.

(** A run that ends by the timeout rejects the promise. *)
Example silent_run_times_out :
  settled (run [Stdout (lit "Loading"); Timeout; Close] started)
  = Some (Rejected (lit "timeout")).
Proof. vm_compute. reflexivity. Qed.

Lemma parseCliOutput_never_untrusted (host : Host) (raw : jsstring) (m : jsstring) :
  parseCliOutput host raw <> Ret (not_trusted m).
Proof.
  rewrite parseCliOutput_lines. unfold outcome_of_lines.
  destruct (first_pattern AUTH_PATTERNS _); [discriminate |].
  destruct (parseQuotas host (normalized_lines raw)) as [[| q qs] | e];
    cbn [bind]; discriminate.
Qed.

(** [readUsageData] reports an untrusted workspace exactly when
    [isWorkspaceTrusted] answers false. *)
Lemma untrusted_iff (host : Host) (f : ConfigFile)
    (child : jsstring -> jsstring -> list event)
    (claudePath : jsstring) (p : WorkspacePath) :
  (exists m, readUsageData host f child claudePath p = Returned (not_trusted m))
  <-> isWorkspaceTrusted p f = Done false.
Proof.
  unfold readUsageData. split.
  - intros [m H]. destruct (isWorkspaceTrusted p f) as [[|] | e]; try discriminate;
      [| reflexivity].
    exfalso.
    destruct (settled (run (child (resolveClaudeBinary claudePath) (path_text p)) started))
      as [[raw | msg] |]; try discriminate.
    + destruct (parseCliOutput host raw) as [res | e] eqn:E; [| discriminate].
      injection H as ->. exact (parseCliOutput_never_untrusted host raw m E).
    + destruct (str_eqb msg (lit "ENOENT")); [discriminate |].
      destruct (str_eqb msg (lit "timeout")); discriminate.
  - intros ->. eexists. reflexivity.
Qed.

(** X30: once [trustWorkspace] has returned (no array standing where the
    entry is written), [readUsageData] no longer reports the workspace as
    untrusted, whatever the command does. *)
Theorem read_after_trust (host : Host) (f f' : ConfigFile)
    (child : jsstring -> jsstring -> list event) (claudePath : jsstring)
    (p : WorkspacePath) (m : jsstring) :
  trustWorkspace p f = Done f' -> array_on_way p f = false ->
  readUsageData host f' child claudePath p <> Returned (not_trusted m).
Proof.
  intros H Ha Hr.
  assert (Hu : isWorkspaceTrusted p f' = Done false).
  { apply (untrusted_iff host f' child claudePath p). exists m. exact Hr. }
  destruct (trustWorkspace_cases p f f' H) as [after [-> Hc]].
  destruct (trust_case_not_null _ _ _ Hc) as [_ Hn].
  rewrite isWorkspaceTrusted_in in Hu by exact Hn.
  cbn [readClaudeConfig content] in Hu.
  rewrite (trust_case_trusted _ _ _ Hc) in Hu.
  unfold array_on_way in Ha. rewrite Ha in Hu. discriminate Hu.
Qed.

(** The new workspace after it was trusted. *)
Lemma read_after_trust_witness :
  readUsageData (Sample.host Sample.FAKE_NOW) sample_config_trusted
    (fun _ _ => early_run) [] new_workspace
  <> Returned (not_trusted not_trusted_message).
Proof.
  apply (read_after_trust (Sample.host Sample.FAKE_NOW) sample_config sample_config_trusted
           (fun _ _ => early_run) [] new_workspace not_trusted_message).
  - vm_compute. reflexivity.
  - vm_compute. reflexivity.
Defined.

(** Before, the same call reports the workspace; after, it returns the
    usage. *)
Example read_before_and_after_trust :
  readUsageData (Sample.host Sample.FAKE_NOW) sample_config
    (fun _ _ => early_run) [] new_workspace
  = Returned (not_trusted not_trusted_message)
  /\ exists d,
       readUsageData (Sample.host Sample.FAKE_NOW) sample_config_trusted
         (fun _ _ => early_run) [] new_workspace
       = Returned (ok d)
       /\ formatStatusText d = lit "14% 3h20m".
Proof.
  split; [vm_compute; reflexivity |].
  eexists. split; [vm_compute; reflexivity | vm_compute; reflexivity].
Qed.
